(** * The game clock of tyrquake: [Sys_InitTimers] and [Sys_DoubleTime]

    A shallow embedding of the timer code of the Win32 system layer
    (sys_win.c) and of the libretro system layer (common/sys_libretro.c),
    and the properties of the clock they implement.

    - A C [unsigned int] or [DWORD] is a [Z] kept in [0, 2^32) by [wrap32];
      an [int] is kept in range by [wrap_int32], a 64-bit [long] by
      [wrap_int64].
    - A C [double] is a primitive binary64 [float]. Its operations are the
      IEEE 754 ones of [PrimFloat], which the kernel evaluates; what holds
      for every float is proved on the executable specification [SpecFloat],
      to which [FloatAxioms] relates them.
    - The file-level statics of sys_win.c and the function-level statics of
      [Sys_DoubleTime] are the fields of one record, threaded explicitly.
    - What the operating system answers (QueryPerformanceFrequency,
      QueryPerformanceCounter, timeGetTime, gettimeofday) is an argument.
    - [MaskExceptions], [Sys_SetFPCW], [Sys_PushFPCW_SetHigh] and
      [Sys_PopFPCW] act on the control word of the x87 unit only; binary64
      arithmetic has no such state and they do not appear. *)

From Stdlib Require Import ZArith Lia Bool List Zbitwise.
From Stdlib Require Import Uint63 Floats.
From Stdlib Require Ascii String.
Import String.StringSyntax.
Delimit Scope string_scope with string.
Import ListNotations.

Local Open Scope Z_scope.

(** ** Machine integers *)

Definition wrap32 (z : Z) : Z := z mod 2 ^ 32.

(** Conversion to a C [int] (two's complement, 32 bits). *)
Definition wrap_int32 (z : Z) : Z := (z + 2 ^ 31) mod 2 ^ 32 - 2 ^ 31.

(** Conversion to a 64-bit [long]. *)
Definition wrap_int64 (z : Z) : Z := (z + 2 ^ 63) mod 2 ^ 64 - 2 ^ 63.

(** [(double)u] for an unsigned 32-bit [u]. *)
Definition double_of_uint (u : Z) : float := of_uint63 (Uint63.of_Z u).

(** [(double)n] for a signed 64-bit [n]. *)
Definition double_of_long (n : Z) : float :=
  if n =? - 2 ^ 63 then (- 9223372036854775808)%float
  else if n <? 0 then (- of_uint63 (Uint63.of_Z (- n)))%float
  else of_uint63 (Uint63.of_Z n).

(** ** sys_win.c *)

Module SysWin.

(** [LARGE_INTEGER]: a 64-bit count as two 32-bit halves. *)
Record LARGE_INTEGER := { LowPart : Z; HighPart : Z }.

(** [LONG_MAX] of limits.h on Win32, where [long] has 32 bits. *)
Definition LONG_MAX : Z := 2147483647.

(** The statics [timer_pfreq], [timer_lowshift], [timer_oldtime],
    [timer_fallback], [timer_fallback_start] of the file and the statics
    [curtime], [lastcurtime], [sametimecount] of [Sys_DoubleTime]. *)
Record timers := {
  timer_pfreq : float;
  timer_lowshift : Z;
  timer_oldtime : Z;
  timer_fallback : bool;
  timer_fallback_start : Z;
  curtime : float;
  lastcurtime : float;
  sametimecount : Z
}.

(** The statics at program start: C zero-initialises them, and [curtime]
    and [lastcurtime] are initialised to [0.0]. *)
Definition timers_at_start : timers :=
  {| timer_pfreq := 0; timer_lowshift := 0; timer_oldtime := 0;
     timer_fallback := false; timer_fallback_start := 0;
     curtime := 0; lastcurtime := 0; sametimecount := 0 |}.

(** What one call reads from the system: [timeGetTime()] and the count
    stored by [QueryPerformanceCounter]. *)
Record clock_env := { timeGetTime : Z; QueryPerformanceCounter : LARGE_INTEGER }.

(** [temp = (unsigned int)pcount.LowPart >> timer_lowshift;
     temp |= (unsigned int)pcount.HighPart << (32 - timer_lowshift);]

    For [timer_lowshift = 0] the second shift count is 32, which C leaves
    undefined; here the shift is the mathematical one truncated to 32 bits,
    so the high part contributes nothing in that case. *)
Definition shifted_count (lowshift : Z) (pcount : LARGE_INTEGER) : Z :=
  let temp := wrap32 (Z.shiftr (wrap32 (LowPart pcount)) lowshift) in
  wrap32 (Z.lor temp
            (wrap32 (Z.shiftl (wrap32 (HighPart pcount)) (32 - lowshift)))).

(** The loop of [Sys_InitTimers]:
    [while (highpart || (lowpart > 2000000.0)) { timer_lowshift++;
       lowpart >>= 1; lowpart |= (highpart & 1) << 31; highpart >>= 1; }]
    The comparison is made in [double], to which a 32-bit [lowpart]
    converts exactly, so it is the comparison of the integers.
    [None] when the fuel runs out before the loop condition fails. *)
Fixpoint lowshift_loop (fuel : nat) (lowshift lowpart highpart : Z)
  : option (Z * Z * Z) :=
  if negb (highpart =? 0) || (2000000 <? lowpart) then
    match fuel with
    | O => None
    | S fuel' =>
        let lowshift := lowshift + 1 in
        let lowpart := Z.shiftr lowpart 1 in
        let lowpart :=
          wrap32 (Z.lor lowpart (wrap32 (Z.shiftl (Z.land highpart 1) 31))) in
        let highpart := Z.shiftr highpart 1 in
        lowshift_loop fuel' lowshift lowpart highpart
    end
  else Some (lowshift, lowpart, highpart).

(** [Sys_InitTimers]. [freq] is [None] when [QueryPerformanceFrequency]
    fails; [env] is what [timeGetTime] and [QueryPerformanceCounter] answer
    during the call. [None] only if the loop did not finish within [fuel]
    iterations. *)
Definition Sys_InitTimers_fuel (fuel : nat) (s : timers)
    (freq : option LARGE_INTEGER) (env : clock_env) : option timers :=
  match freq with
  | None =>
      Some {| timer_pfreq := timer_pfreq s;
              timer_lowshift := timer_lowshift s;
              timer_oldtime := timer_oldtime s;
              timer_fallback := true;
              timer_fallback_start := wrap32 (timeGetTime env);
              curtime := curtime s;
              lastcurtime := lastcurtime s;
              sametimecount := sametimecount s |}
  | Some f =>
      match lowshift_loop fuel 0 (wrap32 (LowPart f)) (wrap32 (HighPart f)) with
      | None => None
      | Some (lowshift, lowpart, _) =>
          Some {| timer_pfreq := (1 / double_of_uint lowpart)%float;
                  timer_lowshift := lowshift;
                  timer_oldtime :=
                    shifted_count lowshift (QueryPerformanceCounter env);
                  timer_fallback := timer_fallback s;
                  timer_fallback_start := timer_fallback_start s;
                  curtime := curtime s;
                  lastcurtime := lastcurtime s;
                  sametimecount := sametimecount s |}
      end
  end.

(** Sixty-four iterations empty a 64-bit frequency. *)
Definition Sys_InitTimers := Sys_InitTimers_fuel 64.

(** The test of the backward guard:
    [(temp <= timer_oldtime) && ((timer_oldtime - temp) < 0x10000000)]. *)
Definition backward_guard (temp oldtime : Z) : bool :=
  (temp <=? oldtime) && (wrap32 (oldtime - temp) <? 268435456).

(** [Sys_DoubleTime]: the value returned and the statics after the call.
    [Sys_PushFPCW_SetHigh] and [Sys_PopFPCW] set and restore the precision
    field of the x87 control word; binary64 arithmetic has no such field.
    [sametimecount] is an [int] that the function keeps between 0 and
    100000 ([sametimecount_step]), so its increment is written without
    wrap-around. *)
Definition Sys_DoubleTime (s : timers) (env : clock_env) : float * timers :=
  if timer_fallback s then
    let now := wrap32 (timeGetTime env) in
    if now <? timer_fallback_start s then
      ((double_of_uint
          (wrap32 (now + wrap32 (LONG_MAX - timer_fallback_start s)))
        / 1000)%float,
       s)
    else
      ((double_of_uint (wrap32 (now - timer_fallback_start s)) / 1000)%float,
       s)
  else
    let temp := shifted_count (timer_lowshift s) (QueryPerformanceCounter env) in
    if backward_guard temp (timer_oldtime s) then
      (curtime s,
       {| timer_pfreq := timer_pfreq s;
          timer_lowshift := timer_lowshift s;
          timer_oldtime := temp;
          timer_fallback := timer_fallback s;
          timer_fallback_start := timer_fallback_start s;
          curtime := curtime s;
          lastcurtime := lastcurtime s;
          sametimecount := sametimecount s |})
    else
      let t2 := wrap32 (temp - timer_oldtime s) in
      let time := (double_of_uint t2 * timer_pfreq s)%float in
      let cur := (curtime s + time)%float in
      let '(cur, count) :=
        if (cur =? lastcurtime s)%float then
          let count := sametimecount s + 1 in
          if 100000 <? count then ((cur + 1)%float, 0) else (cur, count)
        else (cur, 0) in
      (cur,
       {| timer_pfreq := timer_pfreq s;
          timer_lowshift := timer_lowshift s;
          timer_oldtime := temp;
          timer_fallback := timer_fallback s;
          timer_fallback_start := timer_fallback_start s;
          curtime := cur;
          lastcurtime := cur;
          sametimecount := count |}).

(** A run of calls: the values returned, in order, and the final statics. *)
Fixpoint run (s : timers) (envs : list clock_env) : list float * timers :=
  match envs with
  | [] => ([], s)
  | env :: envs' =>
      let '(v, s') := Sys_DoubleTime s env in
      let '(vs, s'') := run s' envs' in
      (v :: vs, s'')
  end.

End SysWin.

(** ** common/sys_libretro.c *)

Module SysLibretro.

(** [struct timeval] as [gettimeofday] fills it. *)
Record timeval := { tv_sec : Z; tv_usec : Z }.

(** [Sys_DoubleTime]: [secbase] is the function's static [int]; [tp] is
    what [gettimeofday] stores. Returns the value and the new [secbase]. *)
Definition Sys_DoubleTime (secbase : Z) (tp : timeval) : float * Z :=
  if secbase =? 0 then
    ((double_of_long (wrap_int64 (tv_usec tp)) / 1000000)%float,
     wrap_int32 (tv_sec tp))
  else
    ((double_of_long (wrap_int64 (wrap_int64 (tv_sec tp) - secbase))
      + double_of_long (wrap_int64 (tv_usec tp)) / 1000000)%float,
     secbase).

Fixpoint run (secbase : Z) (tps : list timeval) : list float * Z :=
  match tps with
  | [] => ([], secbase)
  | tp :: tps' =>
      let '(v, sb) := Sys_DoubleTime secbase tp in
      let '(vs, sb') := run sb tps' in
      (v :: vs, sb')
  end.

End SysLibretro.

Import SysWin.

(** ** Auxiliary definitions *)

(** *** Statics and readings used in the statements *)

(** [s] after [timer_oldtime = temp]. *)
Definition set_oldtime (s : timers) (temp : Z) : timers :=
  {| timer_pfreq := timer_pfreq s;
     timer_lowshift := timer_lowshift s;
     timer_oldtime := temp;
     timer_fallback := timer_fallback s;
     timer_fallback_start := timer_fallback_start s;
     curtime := curtime s;
     lastcurtime := lastcurtime s;
     sametimecount := sametimecount s |}.


(** What [Sys_DoubleTime] relies on in the statics, on the primary path. *)
Definition timers_ok (s : timers) : Prop :=
  timer_fallback s = false /\
  (0 <=? curtime s)%float = true /\
  (0 <=? timer_pfreq s)%float = true /\
  0 <= timer_oldtime s < 2 ^ 32.

(** A call during which the performance counter reads [high:low]. *)
Definition at_pcount (low high : Z) : clock_env :=
  {| timeGetTime := 0;
     QueryPerformanceCounter := {| LowPart := low; HighPart := high |} |}.

(** A call during which the performance counter reads [c], below 2^32. *)
Definition at_count (c : Z) : clock_env :=
  {| timeGetTime := 0; QueryPerformanceCounter := {| LowPart := c; HighPart := 0 |} |}.

(** A call during which [timeGetTime] answers [t]. *)
Definition at_ms (t : Z) : clock_env :=
  {| timeGetTime := t; QueryPerformanceCounter := {| LowPart := 0; HighPart := 0 |} |}.



(** The statics in fallback mode with origin [start]. *)
Definition fallback_timers (start : Z) : timers :=
  {| timer_pfreq := 0; timer_lowshift := 0; timer_oldtime := 0;
     timer_fallback := true; timer_fallback_start := start;
     curtime := 0; lastcurtime := 0; sametimecount := 0 |}.





(** Readings of [timeGetTime] that start at or above [lo], never go down
    and stay below 2^32: the counter has not wrapped. *)
Fixpoint rising (lo : Z) (ts : list Z) : bool :=
  match ts with
  | [] => true
  | t :: ts' => (lo <=? t) && (t <? 2 ^ 32) && rising t ts'
  end.

(** The 64-bit count that [QueryPerformanceCounter] stores, both parts
    taken as [unsigned int] as the code takes them. *)
Definition raw_count (pcount : LARGE_INTEGER) : Z :=
  wrap32 (HighPart pcount) * 2 ^ 32 + wrap32 (LowPart pcount).

(** The time [a] is not after the time [b]. *)
Definition timeval_le (a b : SysLibretro.timeval) : bool :=
  (SysLibretro.tv_sec a <? SysLibretro.tv_sec b)
  || ((SysLibretro.tv_sec a =? SysLibretro.tv_sec b)
      && (SysLibretro.tv_usec a <=? SysLibretro.tv_usec b)).

(** A time as [gettimeofday] stores it: microseconds below a million;
    seconds not below [INT_MIN], and below [2^63 - 2^31], so that
    [tv_sec - secbase] is in the range of a 64-bit [long] whatever the [int]
    [secbase] is. *)
Definition timeval_ok (tp : SysLibretro.timeval) : bool :=
  (0 <=? SysLibretro.tv_usec tp) && (SysLibretro.tv_usec tp <? 1000000)
  && (- 2 ^ 31 <=? SysLibretro.tv_sec tp)
  && (SysLibretro.tv_sec tp <? 2 ^ 63 - 2 ^ 31).

(** The wall clock is never set back: no reading of [gettimeofday] is
    before the one that precedes it, [last] for the first. *)
Fixpoint wall_clock_rising (last : SysLibretro.timeval)
    (tps : list SysLibretro.timeval) : bool :=
  match tps with
  | [] => true
  | tp :: tps' => timeval_le last tp && timeval_ok tp && wall_clock_rising tp tps'
  end.

(** The readings of a run from program start: the seconds of the first are
    not zero when stored in an [int], and the wall clock is never set back. *)
Definition wall_clock_ok (tps : list SysLibretro.timeval) : bool :=
  match tps with
  | [] => true
  | tp :: tps' =>
      timeval_ok tp && negb (wrap_int32 (SysLibretro.tv_sec tp) =? 0)
      && wall_clock_rising tp tps'
  end.

(** *** Lists of returned values *)

(** Each value is at most the next one, by the comparison of C. *)
Fixpoint nondecreasing (l : list float) : bool :=
  match l with
  | x :: (y :: _) as t => (x <=? y)%float && nondecreasing t
  | _ => true
  end.

(** Every value compares at or above zero; a NaN does not. *)
Definition all_nonneg (l : list float) : bool :=
  forallb (fun v => (0 <=? v)%float) l.

(** *** Binary64 *)

(** [SpecFloat.fexp] at precision 53 and [emax = 1024]: the exponent of the
    last place of a float of magnitude [2^e]. *)
Definition fexp64 (e : Z) : Z := Z.max (e - 53) (-1074).

(** Zero of either sign, or positive: what [0 <= x] accepts. *)
Definition SFnonneg (x : spec_float) : bool :=
  match x with
  | S754_zero _ => true
  | S754_infinity s | S754_finite s _ _ => negb s
  | S754_nan => false
  end.

(** The sign bit is clear and [x] is not a NaN. *)
Definition SFplus (x : spec_float) : bool :=
  match x with
  | S754_zero s | S754_infinity s | S754_finite s _ _ => negb s
  | S754_nan => false
  end.

(** Not a NaN, and of sign [s]. *)
Definition SFsigned (s : bool) (x : spec_float) : bool :=
  match x with
  | S754_zero s' | S754_infinity s' | S754_finite s' _ _ => Bool.eqb s s'
  | S754_nan => false
  end.

(** Finite, not zero, positive. *)
Definition SFfinite_pos (x : spec_float) : bool :=
  match x with
  | S754_finite false _ _ => true
  | _ => false
  end.

(** Finite and not zero. *)
Definition SFfinite (x : spec_float) : bool :=
  match x with
  | S754_finite _ _ _ => true
  | _ => false
  end.

(** Zero or finite. *)
Definition SFreal (x : spec_float) : bool :=
  match x with
  | S754_zero _ | S754_finite _ _ _ => true
  | _ => false
  end.

(** Not a NaN. *)
Definition SFnumber (x : spec_float) : bool :=
  match x with
  | S754_nan => false
  | _ => true
  end.

(** [mx * 2^ex <= M * 2^e], without leaving the integers. *)
Definition scaled_le (mx ex M e : Z) : Prop :=
  mx * 2 ^ Z.max (ex - e) 0 <= M * 2 ^ Z.max (e - ex) 0.

(** The quotient of [X] by [2^N], rounded to nearest, ties to even. *)
Definition rne_quot (X N : Z) : Z :=
  let q := X / 2 ^ N in
  let r := X mod 2 ^ N in
  if 2 * r <? 2 ^ N then q
  else if 2 ^ N <? 2 * r then q + 1
  else if Z.even q then q else q + 1.

(** The binary64 nearest to [X] units of [2^-1074], ties to even. *)
Definition round_units (X : Z) : spec_float :=
  let N := Z.max (Zdigits2 X - 53) 0 in
  let m := rne_quot X N in
  let a := if m =? 2 ^ 53 then 2 ^ 52 else m in
  let N' := if m =? 2 ^ 53 then N + 1 else N in
  match a with
  | Zpos p =>
      if N' - 1074 <=? 971 then S754_finite false p (N' - 1074)
      else S754_infinity false
  | _ => S754_zero false
  end.

(** ** Characters, C strings and buffers *)

(** Conversion to a C [char] where it is signed (two's complement, 8 bits),
    as the [CHAR] of the Win32 headers is. *)
Definition wrap_int8 (z : Z) : Z := (z + 128) mod 256 - 128.

(** The characters of a string literal, as the values of C [char]s. *)
Definition chars (s : String.string) : list Z :=
  map (fun c => Z.of_N (Ascii.N_of_ascii c)) (String.list_ascii_of_string s).

(** The C string at the start of a buffer: the characters before the first
    NUL. *)
Fixpoint cstring (buf : list Z) : list Z :=
  match buf with
  | [] => []
  | c :: buf' => if c =? 0 then [] else c :: cstring buf'
  end.

(** [buf[i] = c]. An index outside the buffer, which C leaves undefined,
    changes nothing here; the functions below are shown to keep their
    indices inside their buffers. *)
Fixpoint store (buf : list Z) (i : nat) (c : Z) : list Z :=
  match buf, i with
  | [], _ => []
  | _ :: buf', O => c :: buf'
  | b :: buf', S i' => b :: store buf' i' c
  end.

(** [strrchr(s, c)] on the characters of a C string: the index of the last
    [c], if there is one. *)
Fixpoint strrchr (s : list Z) (c : Z) : option nat :=
  match s with
  | [] => None
  | x :: s' =>
      match strrchr s' c with
      | Some i => Some (S i)
      | None => if x =? c then Some O else None
      end
  end.

(** ** sys_win.c: the console of the dedicated server *)

Module WinConsole.

(** [INPUT_RECORD]: a key event with [bKeyDown] and [uChar.AsciiChar], or an
    event of another type (mouse, window size, menu, focus). *)
Inductive INPUT_RECORD :=
| KEY_EVENT (bKeyDown : bool) (AsciiChar : Z)
| OTHER_EVENT.

(** What the console answers during one iteration of the loop of
    [Sys_ConsoleInput]: whether [GetNumberOfConsoleInputEvents] succeeded and
    the [numevents] it stored, whether [ReadConsoleInput] succeeded, and the
    [numread] and [recs[0]] it stored. *)
Record console_poll := {
  events_ok : bool;
  numevents : Z;
  read_ok : bool;
  numread : Z;
  recs0 : INPUT_RECORD
}.

(** The globals [isDedicated] and [sc_return_on_enter], the statics [text]
    and [len] of [Sys_ConsoleInput], and the bytes written to [houtput] so
    far. *)
Record console := {
  isDedicated : bool;
  sc_return_on_enter : bool;
  text : list Z;
  len : Z;
  houtput : list Z
}.

(** The console at program start: C zero-initialises the statics. *)
Definition console_at_start (dedicated : bool) : console :=
  {| isDedicated := dedicated; sc_return_on_enter := false;
     text := repeat 0 256; len := 0; houtput := [] |}.

(** How a call ends: it returns a line or [NULL]; or it calls [Sys_Error],
    which does not return; or the answers given ran out before the loop
    ended. *)
Inductive outcome :=
| Returned (line : option (list Z))
| Fatal (error : String.string)
| Unanswered.

(** [WriteFile(houtput, bytes, ...)]. *)
Definition WriteFile (s : console) (bytes : list Z) : console :=
  {| isDedicated := isDedicated s; sc_return_on_enter := sc_return_on_enter s;
     text := text s; len := len s; houtput := houtput s ++ bytes |}.

(** [text = t; len = n]. *)
Definition set_line (s : console) (t : list Z) (n : Z) : console :=
  {| isDedicated := isDedicated s; sc_return_on_enter := sc_return_on_enter s;
     text := t; len := n; houtput := houtput s |}.

(** The loop [for (;;)] of [Sys_ConsoleInput], one answer of the console for
    each iteration. Returns how the call ended, the statics and the output
    after it, and the answers not used. A line is returned as the pointer
    [text]; here it is the C string found there. *)
Fixpoint console_loop (s : console) (polls : list console_poll)
  : outcome * console * list console_poll :=
  match polls with
  | [] => (Unanswered, s, [])
  | p :: polls' =>
      if negb (events_ok p) then
        (Fatal "Error getting # of console events"%string, s, polls')
      else if numevents p <=? 0 then (Returned None, s, polls')
      else if negb (read_ok p) then
        (Fatal "Error reading console input"%string, s, polls')
      else if negb (numread p =? 1) then
        (Fatal "Couldn't read console input"%string, s, polls')
      else
        match recs0 p with
        | KEY_EVENT false AsciiChar =>
            let ch := wrap_int8 AsciiChar in
            if ch =? 13 then
              let s := WriteFile s [13; 10] in
              if negb (len s =? 0) then
                let t := store (text s) (Z.to_nat (len s)) 0 in
                (Returned (Some (cstring t)), set_line s t 0, polls')
              else if sc_return_on_enter s then
                let t := store (text s) 0 13 in
                (Returned (Some (cstring t)), set_line s t 0, polls')
              else console_loop s polls'
            else if ch =? 8 then
              let s := WriteFile s [8; 32; 8] in
              if negb (len s =? 0) then
                console_loop (set_line s (text s) (len s - 1)) polls'
              else console_loop s polls'
            else if 32 <=? ch then
              let s := WriteFile s [ch mod 256] in
              console_loop
                (set_line s (store (text s) (Z.to_nat (len s)) ch)
                   (Z.land (len s + 1) 255))
                polls'
            else console_loop s polls'
        | _ => console_loop s polls'
        end
  end.

(** [Sys_ConsoleInput]. *)
Definition Sys_ConsoleInput (s : console) (polls : list console_poll)
  : outcome * console * list console_poll :=
  if negb (isDedicated s) then (Returned None, s, polls)
  else console_loop s polls.

(** Calls of [Sys_ConsoleInput] one after the other on the same queue of
    answers: what each returned, then the statics and the answers left. *)
Fixpoint calls (n : nat) (s : console) (polls : list console_poll)
  : list outcome * console * list console_poll :=
  match n with
  | O => ([], s, polls)
  | S n' =>
      let '(r, s', polls') := Sys_ConsoleInput s polls in
      let '(rs, s'', polls'') := calls n' s' polls' in
      (r :: rs, s'', polls'')
  end.

(** One event was pending and was read. *)
Definition event (r : INPUT_RECORD) : console_poll :=
  {| events_ok := true; numevents := 1; read_ok := true; numread := 1;
     recs0 := r |}.

(** The key with character [c] was released. *)
Definition key_up (c : Z) : console_poll := event (KEY_EVENT false c).

(** No event is pending. *)
Definition no_events : console_poll :=
  {| events_ok := true; numevents := 0; read_ok := true; numread := 0;
     recs0 := OTHER_EVENT |}.

(** An event read with success that the loop passes over: a key going down,
    an event that is no key event, or a released key whose character is
    neither Enter nor backspace and is below the space. *)
Definition passed_over (p : console_poll) : bool :=
  events_ok p && negb (numevents p <=? 0) && read_ok p && (numread p =? 1)
  && match recs0 p with
     | KEY_EVENT false c =>
         let ch := wrap_int8 c in
         negb (ch =? 13) && negb (ch =? 8) && negb (32 <=? ch)
     | _ => true
     end.

(** A character that [Sys_ConsoleInput] stores: from the space up. *)
Definition stored_char (c : Z) : bool := (32 <=? c) && (c <=? 127).

(** What [Sys_ConsoleInput] relies on in its statics: [text] has its 256
    bytes, [len] is an index into it, and the [len] characters typed so far
    are such as it stores. *)
Definition console_ok (s : console) : Prop :=
  length (text s) = 256%nat /\
  0 <= len s <= 255 /\
  forallb stored_char (firstn (Z.to_nat (len s)) (text s)) = true.

(** The flags that a call leaves alone, and the output, which only grows. *)
Definition console_grows (s s' : console) : Prop :=
  isDedicated s' = isDedicated s /\
  sc_return_on_enter s' = sc_return_on_enter s /\
  exists bytes, houtput s' = houtput s ++ bytes.

(** A line as it can be typed and returned: 1 to 255 characters from the
    space up. *)
Definition typed_line (w : list Z) : bool :=
  (0 <? Z.of_nat (length w)) && (Z.of_nat (length w) <? 256)
  && forallb stored_char w.

(** The events of typing each line and releasing Enter after it. *)
Definition typing (ws : list (list Z)) : list console_poll :=
  flat_map (fun w => map key_up w ++ [key_up 13]) ws.

End WinConsole.

(** ** sys_win.c: start-up *)

Module WinStartup.

(** The first inner loop of the command-line loop of [WinMain]:
    [lpCmdLine] moves on while it points at a character [c] that is not the
    NUL and has [(c <= 32) || (c > 126)]. The list holds the characters before the terminating NUL. Whether [char] is signed
    or not, the test holds of every byte from 128 to 255: signed it is below
    32, unsigned it is above 126. *)
Fixpoint skip_blanks (l : list Z) : list Z :=
  match l with
  | [] => []
  | c :: l' => if (c <=? 32) || (126 <? c) then skip_blanks l' else l
  end.

(** The second inner loop:
    [lpCmdLine] moves on while it points at a character [c] that is not the
    NUL and has [(c > 32) && (c <= 126)]. Returns the characters passed and
    the rest. *)
Fixpoint scan_word (l : list Z) : list Z * list Z :=
  match l with
  | [] => ([], [])
  | c :: l' =>
      if (32 <? c) && (c <=? 126) then
        let '(w, r) := scan_word l' in (c :: w, r)
      else ([], l)
  end.

(** The loop of [WinMain] that runs while [lpCmdLine] is not at the NUL and
    [parms.argc < MAX_NUM_ARGVS]. Each
    argument is a pointer into the command line, ended by the NUL that the
    loop writes over the character after it; here it is the string found
    there. Returns [argv[1]], [argv[2]], ... in order; [None] when the fuel
    runs out. [MAX_NUM_ARGVS] comes from common.h. *)
Fixpoint argv_loop (fuel : nat) (MAX_NUM_ARGVS argc : Z) (l : list Z)
  : option (list (list Z)) :=
  match fuel with
  | O => None
  | S fuel' =>
      match l with
      | [] => Some []
      | _ :: _ =>
          if argc <? MAX_NUM_ARGVS then
            match skip_blanks l with
            | [] => Some []
            | (_ :: _) as l1 =>
                let '(w, r) := scan_word l1 in
                let r' := match r with [] => [] | _ :: r' => r' end in
                match argv_loop fuel' MAX_NUM_ARGVS (argc + 1) r' with
                | Some args => Some (w :: args)
                | None => None
                end
            end
          else Some []
      end
  end.

(** The arguments that [WinMain] finds in [lpCmdLine], after [argv[0]],
    which is the empty string; [parms.argc] is their number plus one. *)
Definition WinMain_argv (MAX_NUM_ARGVS : Z) (lpCmdLine : list Z)
  : option (list (list Z)) :=
  argv_loop (S (length lpCmdLine)) MAX_NUM_ARGVS 1 lpCmdLine.

(** A character that the command-line loop puts into an argument. *)
Definition in_word (c : Z) : bool := (32 <? c) && (c <=? 126).

(** An argument as the loop finds them: not empty, and made of such
    characters. *)
Definition word (w : list Z) : bool :=
  negb (Nat.eqb (length w) 0) && forallb in_word w.

(** Words with one space between them. *)
Fixpoint join (ws : list (list Z)) : list Z :=
  match ws with
  | [] => []
  | [w] => w
  | w :: ws' => w ++ 32 :: join ws'
  end.

Definition MINIMUM_WIN_MEMORY : Z := 12582912.
Definition MAXIMUM_WIN_MEMORY : Z := 33554432.

(** [parms.memsize] as [WinMain] computes it from the [dwAvailPhys] and
    [dwTotalPhys] that [GlobalMemoryStatus] stores. [heapsize] is the number
    that [Q_atoi] reads after [-heapsize], if the option is given and an
    argument follows it. [parms.memsize] is an [int]: in the comparison with
    [dwTotalPhys >> 1] it converts to unsigned, and what is assigned to it is
    converted to [int]. *)
Definition WinMain_memsize (dwAvailPhys dwTotalPhys : Z) (heapsize : option Z)
  : Z :=
  let memsize := wrap_int32 dwAvailPhys in
  let memsize :=
    if memsize <? MINIMUM_WIN_MEMORY then MINIMUM_WIN_MEMORY else memsize in
  let memsize :=
    if wrap32 memsize <? Z.shiftr dwTotalPhys 1
    then wrap_int32 (Z.shiftr dwTotalPhys 1) else memsize in
  let memsize :=
    if MAXIMUM_WIN_MEMORY <? memsize then MAXIMUM_WIN_MEMORY else memsize in
  match heapsize with
  | Some n => wrap_int32 (wrap_int32 n * 1024)
  | None => memsize
  end.

(** The [int] read through the address of [x[m]]: four bytes, the low one
    first. *)
Definition read_int (x : Z -> Z) (m : Z) : Z :=
  wrap_int32 (x m + x (m + 1) * 2 ^ 8 + x (m + 2) * 2 ^ 16 + x (m + 3) * 2 ^ 24).

(** The inner loop of [Sys_PageIn]:
    [for (m = 0; m < (size - 16 * 0x1000); m += 4)], which adds to
    [sys_checksum] the [int] at [x[m]] and the [int] at [x[m + 16 * 0x1000]],
    from a given [m]. [x] gives the byte at each offset from [ptr]. Returns
    [sys_checksum] and the offsets at which an [int] was read, in order. *)
Fixpoint PageIn_pass (fuel : nat) (x : Z -> Z) (size m sys_checksum : Z)
  : option (Z * list Z) :=
  if m <? size - 16 * 4096 then
    match fuel with
    | O => None
    | S fuel' =>
        let sys_checksum := wrap_int32 (sys_checksum + read_int x m) in
        let sys_checksum :=
          wrap_int32 (sys_checksum + read_int x (m + 16 * 4096)) in
        match PageIn_pass fuel' x size (m + 4) sys_checksum with
        | Some (sum, reads) => Some (sum, m :: (m + 16 * 4096) :: reads)
        | None => None
        end
    end
  else Some (sys_checksum, []).

(** The outer loop [for (n = 0; n < 4; n++)], [n] passes being left. *)
Fixpoint PageIn_passes (n : nat) (x : Z -> Z) (size sys_checksum : Z)
  : option (Z * list Z) :=
  match n with
  | O => Some (sys_checksum, [])
  | S n' =>
      match PageIn_pass (Z.to_nat size) x size 0 sys_checksum with
      | Some (sum, reads) =>
          match PageIn_passes n' x size sum with
          | Some (sum', reads') => Some (sum', reads ++ reads')
          | None => None
          end
      | None => None
      end
  end.

(** [Sys_PageIn(ptr, size)]: [sys_checksum] after the call, and the offsets
    from [ptr] at which it read an [int]. *)
Definition Sys_PageIn (x : Z -> Z) (size sys_checksum : Z)
  : option (Z * list Z) :=
  PageIn_passes 4 x size sys_checksum.

(** An [int] read at offset [m] lies inside a block of [size] bytes. *)
Definition inside (size m : Z) : bool := (0 <=? m) && (m + 4 <=? size).

End WinStartup.

(** ** common/sys_libretro.c: printing and the content directory *)

Module LibretroFront.

(** One digit of [%x]. *)
Definition hex_digit (d : Z) : Z := if d <? 10 then 48 + d else 87 + d.

(** The body of the loop of [Sys_Printf] for the [unsigned char] [c]:
    if [(c > 128 || c < 32) && c != 10 && c != 13 && c != 9] it is printed
    with the format [%02x] between square brackets, else as it is. *)
Definition Sys_Printf_char (c : Z) : list Z :=
  if ((128 <? c) || (c <? 32))
     && negb (c =? 10) && negb (c =? 13) && negb (c =? 9)
  then [91; hex_digit (c / 16); hex_digit (c mod 16); 93]
  else [c].

(** [Sys_Printf]: the bytes written to [stdout]. [text] is the buffer that
    [vsnprintf] filled; the loop reads it as [unsigned char]s up to the
    NUL. *)
Definition Sys_Printf (nostdout : bool) (text : list Z) : list Z :=
  if nostdout then []
  else flat_map (fun c => Sys_Printf_char (c mod 256)) (cstring text).

(** A byte that [Sys_Printf] writes as it is. *)
Definition plain (c : Z) : bool :=
  ((32 <=? c) && (c <=? 128)) || (c =? 10) || (c =? 13) || (c =? 9).

(** [extract_directory(buf, path, size)]: the string left in [buf].
    [strncpy(buf, path, size - 1); buf[size - 1] = '\0';] leave in [buf] the
    first [size - 1] characters of [path]; [size] is at least 1. *)
Definition extract_directory (path : list Z) (size : nat) : list Z :=
  let buf := firstn (size - 1) path in
  match strrchr buf 47 with
  | Some base => firstn base buf
  | None =>
      match strrchr buf 92 with
      | Some base => firstn base buf
      | None => []
      end
  end.

End LibretroFront.

(** ** sys_win.c: the main loop *)

Module WinLoop.

(** What happens between two frames: the calls of [Sys_DoubleTime] that
    [Host_Frame] and the rest of the program made since the last sample of
    the main loop, with what the clock read at each of them, and then what
    it reads at the sample of the main loop. *)
Record turn := { others : list clock_env; sample : clock_env }.

(** The main loop of [WinMain], one sample for each turn given:
    [newtime = Sys_DoubleTime(); time = newtime - oldtime;]
    then, with [isDedicated] set and [time < sys_ticrate.value], the loop
    sleeps and samples again; else it calls [Host_Frame(time)] and sets
    [oldtime = newtime]. Returns the times given to [Host_Frame], in order,
    and the statics of the clock at the end. *)
Fixpoint main_loop (isDedicated : bool) (sys_ticrate : float) (s : timers)
    (oldtime : float) (turns : list turn) : list float * timers :=
  match turns with
  | [] => ([], s)
  | t :: turns' =>
      let s := snd (run s (others t)) in
      let '(newtime, s) := Sys_DoubleTime s (sample t) in
      let time := (newtime - oldtime)%float in
      if isDedicated && (time <? sys_ticrate)%float then
        main_loop isDedicated sys_ticrate s oldtime turns'
      else
        let '(times, s') := main_loop isDedicated sys_ticrate s newtime turns' in
        (time :: times, s')
  end.

(** [WinMain] from [Sys_InitTimers] on: [before] are the calls of
    [Sys_DoubleTime] made during [Host_Init], [first] is the sample
    [oldtime = Sys_DoubleTime()] taken before the loop. *)
Definition WinMain_frames (isDedicated : bool) (sys_ticrate : float)
    (freq : option LARGE_INTEGER) (env0 : clock_env)
    (before : list clock_env) (first : clock_env) (turns : list turn)
  : option (list float * timers) :=
  match Sys_InitTimers timers_at_start freq env0 with
  | None => None
  | Some s =>
      let s := snd (run s before) in
      let '(oldtime, s) := Sys_DoubleTime s first in
      Some (main_loop isDedicated sys_ticrate s oldtime turns)
  end.

End WinLoop.

(** ** Binary64: magnitudes *)

(** The magnitude of a float in units of [2^-1074], the least positive
    double; zero for what is not finite. *)
Definition SFunits (x : spec_float) : Z :=
  match x with
  | S754_finite _ m e => Zpos m * 2 ^ (e + 1074)
  | _ => 0
  end.

(** [x] is a zero, or positive, finite and below [2^n]. *)
Definition SFbelow (n : Z) (x : spec_float) : Prop :=
  match x with
  | S754_zero _ => True
  | S754_finite false m e => -1074 <= e /\ SFunits x < 2 ^ (n + 1074)
  | _ => False
  end.

(** The statics of a clock that runs at [f] scaled ticks per second and
    has not passed [2^88] seconds. *)
Definition clock_bounded (f : Z) (s : timers) : Prop :=
  timer_fallback s = false /\
  timer_pfreq s = (1 / double_of_uint f)%float /\
  0 <= timer_oldtime s < 2 ^ 32 /\
  SFbelow 88 (Prim2SF (curtime s)).

(** Every value is below [2^88]. *)
Definition all_below (l : list float) : bool :=
  forallb (fun v => (v <? 0x1p88)%float) l.

(** ** sys_win.c: [Sys_Error] *)

Module WinError.

(** The functions defined elsewhere that [Sys_Error] calls. A call is
    recorded, in the order made, and taken to return; [exit] ends the
    process. *)
Inductive extern :=
| VID_ForceUnlockedAndReturnState
| VID_SetDefaultMode
| MessageBox (text : list Z) (caption : String.string)
| Host_Shutdown
| DeinitConProc
| exit (status : Z).

(** What [Sys_Error] works on: the console, the clock, its statics
    [in_sys_error0] to [in_sys_error3], and the calls made so far. *)
Record process := {
  con : WinConsole.console;
  clock : timers;
  in_sys_error0 : bool;
  in_sys_error1 : bool;
  in_sys_error2 : bool;
  in_sys_error3 : bool;
  made : list extern
}.

(** How a call of [Sys_Error] goes: the process exits; or the calls nested
    in one another need more stack frames than there are; or the answers
    of the console or of the clock ran out first. *)
Inductive ending := Exited | Overflow | Waiting.

Definition called (p : process) (e : extern) : process :=
  {| con := con p; clock := clock p;
     in_sys_error0 := in_sys_error0 p; in_sys_error1 := in_sys_error1 p;
     in_sys_error2 := in_sys_error2 p; in_sys_error3 := in_sys_error3 p;
     made := made p ++ [e] |}.

Definition set_flags (p : process) (f0 f1 f2 f3 : bool) : process :=
  {| con := con p; clock := clock p;
     in_sys_error0 := f0; in_sys_error1 := f1;
     in_sys_error2 := f2; in_sys_error3 := f3;
     made := made p |}.

Definition set_con (p : process) (c : WinConsole.console) : process :=
  {| con := c; clock := clock p;
     in_sys_error0 := in_sys_error0 p; in_sys_error1 := in_sys_error1 p;
     in_sys_error2 := in_sys_error2 p; in_sys_error3 := in_sys_error3 p;
     made := made p |}.

Definition set_clock (p : process) (t : timers) : process :=
  {| con := con p; clock := t;
     in_sys_error0 := in_sys_error0 p; in_sys_error1 := in_sys_error1 p;
     in_sys_error2 := in_sys_error2 p; in_sys_error3 := in_sys_error3 p;
     made := made p |}.

(** [sc_return_on_enter = true]. *)
Definition return_on_enter (c : WinConsole.console) : WinConsole.console :=
  {| WinConsole.isDedicated := WinConsole.isDedicated c;
     WinConsole.sc_return_on_enter := true;
     WinConsole.text := WinConsole.text c; WinConsole.len := WinConsole.len c;
     WinConsole.houtput := WinConsole.houtput c |}.

(** [snprintf(buf, sizeof(buf), ...)] as C99 has it, [s] being the text
    formatted: the characters of [s] that fit before the last byte of
    [buf], then a NUL; the bytes after it keep what they held. *)
Definition snprintf (buf s : list Z) : list Z :=
  let w := firstn (length buf - 1) s in
  w ++ 0 :: skipn (S (length w)) buf.

(** The line that [Sys_Error] writes to the console of the dedicated
    server: [text2] after
    [snprintf(text2, sizeof(text2), "ERROR: %s\n", text);] and, if
    [text2[sizeof(text2) - 2]] is not NUL,
    [strcpy(text2 + sizeof(text2) - 2, "\n")]. [text2] is an array on the
    stack that is not initialised: [stack] is what it holds before. *)
Definition error_line (stack text : list Z) : list Z :=
  let size := length stack in
  let text2 := snprintf stack (chars "ERROR: "%string ++ text ++ [10]) in
  let text2 :=
    if negb (nth (size - 2) text2 0 =? 0)
    then store (store text2 (size - 2) 10) (size - 1) 0
    else text2 in
  cstring text2.

(** [text3], [text4] and [text5]. *)
Definition text3 : list Z := chars "Press Enter to exit"%string ++ [10].
Definition text4 : list Z := repeat 42 35 ++ [10].
Definition text5 : list Z := [10].

(** What [Sys_Error] writes to the console before it waits. *)
Definition banner (stack text : list Z) : list Z :=
  text5 ++ text4 ++ error_line stack text ++ text3 ++ text4.

Definition CONSOLE_ERROR_TIMEOUT : float := 60.

(** The end of [Sys_Error]: [Host_Shutdown] and [DeinitConProc], each
    unless its flag is set, then [exit(1)]. *)
Definition shut_down (p : process) : ending * process :=
  let p :=
    if in_sys_error1 p then p
    else called (set_flags p (in_sys_error0 p) true (in_sys_error2 p)
                   (in_sys_error3 p)) Host_Shutdown in
  let p :=
    if in_sys_error2 p then p
    else called (set_flags p (in_sys_error0 p) (in_sys_error1 p) true
                   (in_sys_error3 p)) DeinitConProc in
  (Exited, called p (exit 1)).

(** The loop of [Sys_Error] on the dedicated server,
    [while (!Sys_ConsoleInput() &&
            ((Sys_DoubleTime() - starttime) < CONSOLE_ERROR_TIMEOUT))],
    and what follows it. The console answers [polls] and the clock
    [clocks], one answer for each call of [Sys_DoubleTime]. [nested] is the
    call of [Sys_Error] that [Sys_ConsoleInput] makes when the console
    fails: it does not return. *)
Fixpoint wait_for_enter
    (nested : process -> list Z -> list WinConsole.console_poll ->
              list clock_env -> ending * process)
    (p : process) (starttime : float)
    (polls : list WinConsole.console_poll) (clocks : list clock_env)
    {struct clocks} : ending * process :=
  match WinConsole.Sys_ConsoleInput (con p) polls with
  | (WinConsole.Returned (Some _), c, _) => shut_down (set_con p c)
  | (WinConsole.Returned None, c, polls) =>
      match clocks with
      | [] => (Waiting, set_con p c)
      | env :: clocks' =>
          let '(now, t) := Sys_DoubleTime (clock p) env in
          let p := set_clock (set_con p c) t in
          if (now - starttime <? CONSOLE_ERROR_TIMEOUT)%float
          then wait_for_enter nested p starttime polls clocks'
          else shut_down p
      end
  | (WinConsole.Fatal message, c, polls) =>
      nested (set_con p c) (chars message) polls clocks
  | (WinConsole.Unanswered, c, _) => (Waiting, set_con p c)
  end.

(** [Sys_Error]. [error] is the message as [vsnprintf] formats it, of which
    [text] takes what fits into its [MAX_PRINTMSG] bytes; [stack] is what
    the array [text2], of [MAX_PRINTMSG] bytes as well, holds at first, so
    that [MAX_PRINTMSG], which comes from common.h, is the length of
    [stack]. A call of [Sys_Error] nested in this one takes a stack frame
    more, of which there are [frames]. *)
Fixpoint Sys_Error (frames : nat) (stack : list Z) (p : process)
    (error : list Z) (polls : list WinConsole.console_poll)
    (clocks : list clock_env) {struct frames} : ending * process :=
  match frames with
  | O => (Overflow, p)
  | S frames' =>
      let p :=
        if in_sys_error3 p then p
        else called (set_flags p (in_sys_error0 p) (in_sys_error1 p)
                       (in_sys_error2 p) true)
               VID_ForceUnlockedAndReturnState in
      let text := firstn (length stack - 1) error in
      if WinConsole.isDedicated (con p) then
        let c := WinConsole.WriteFile (con p) text5 in
        let c := WinConsole.WriteFile c text4 in
        let c := WinConsole.WriteFile c (error_line stack text) in
        let c := WinConsole.WriteFile c text3 in
        let c := WinConsole.WriteFile c text4 in
        match clocks with
        | [] => (Waiting, set_con p c)
        | env :: clocks =>
            let '(starttime, t) := Sys_DoubleTime (clock p) env in
            wait_for_enter (Sys_Error frames' stack)
              (set_clock (set_con p (return_on_enter c)) t) starttime
              polls clocks
        end
      else
        let p :=
          if in_sys_error0 p then
            called p (MessageBox text "Double Quake Error"%string)
          else
            called (called (set_flags p true (in_sys_error1 p)
                              (in_sys_error2 p) (in_sys_error3 p))
                      VID_SetDefaultMode)
              (MessageBox text "Quake Error"%string) in
        shut_down p
  end.

(** [GetNumberOfConsoleInputEvents] fails. *)
Definition console_fails : WinConsole.console_poll :=
  {| WinConsole.events_ok := false; WinConsole.numevents := 0;
     WinConsole.read_ok := false; WinConsole.numread := 0;
     WinConsole.recs0 := WinConsole.OTHER_EVENT |}.

(** No byte of the text is a NUL. *)
Definition no_NUL (text : list Z) : bool := forallb (fun c => negb (c =? 0)) text.

(** A process in which [Sys_Error] has not been called. *)
Definition first_error (c : WinConsole.console) (t : timers) : process :=
  {| con := c; clock := t;
     in_sys_error0 := false; in_sys_error1 := false;
     in_sys_error2 := false; in_sys_error3 := false; made := [] |}.

End WinError.

(** ** Lemmas *)

(** *** Binary64: the shifts of [binary_round_aux] *)

Lemma fexp64_eq e : SpecFloat.fexp prec emax e = fexp64 e.
Proof. reflexivity. Qed.

Lemma iter_pos_iter {A} (f : A -> A) p : forall x, iter_pos f p x = Pos.iter f x p.
Proof.
  induction p as [p IH|p IH|]; intro x; simpl.
  - rewrite !IH. now rewrite <- !Pos.iter_swap.
  - now rewrite !IH.
  - reflexivity.
Qed.

Lemma shr_1_m mrs : 0 <= shr_m mrs -> shr_m (shr_1 mrs) = shr_m mrs / 2.
Proof.
  destruct mrs as [m r s]; simpl.
  destruct m as [|[p|p|]|p]; simpl; intros H; try lia; try reflexivity.
  - apply Z.div_unique with 1; lia.
  - apply Z.div_unique with 0; lia.
Qed.

Lemma shr_m_iter p : forall mrs, 0 <= shr_m mrs ->
  shr_m (iter_pos shr_1 p mrs) = shr_m mrs / 2 ^ Zpos p.
Proof.
  intros mrs H. rewrite iter_pos_iter.
  induction p as [|p IH] using Pos.peano_ind.
  - simpl. now apply shr_1_m.
  - rewrite Pos.iter_succ, shr_1_m.
    + rewrite IH, Pos2Z.inj_succ, Z.pow_succ_r by lia.
      rewrite Z.div_div by lia. f_equal. lia.
    + rewrite IH. apply Z.div_pos; lia.
Qed.

Lemma shr_m_record_of_loc m l : shr_m (shr_record_of_loc m l) = m.
Proof. now destruct l as [|[]]. Qed.

Lemma shr_spec mrs e n : 0 <= shr_m mrs ->
  shr_m (fst (shr mrs e n)) = shr_m mrs / 2 ^ Z.max n 0 /\
  snd (shr mrs e n) = e + Z.max n 0.
Proof.
  intros H. destruct n as [|p|p].
  - simpl. rewrite Z.div_1_r. lia.
  - replace (Z.max (Z.pos p) 0) with (Z.pos p) by lia.
    unfold shr, fst, snd. now rewrite shr_m_iter.
  - simpl. rewrite Z.div_1_r. lia.
Qed.

Lemma round_nearest_even_bounds m l :
  m <= round_nearest_even m l <= m + 1.
Proof. destruct l as [|[]]; simpl; try lia. destruct (Z.even m); lia. Qed.

(** The two shifts of [binary_round_aux], by their arithmetic. *)
Lemma binary_round_aux_spec s M e l : 0 <= M ->
  let n1 := Z.max (fexp64 (Zdigits2 M + e) - e) 0 in
  let m1 := M / 2 ^ n1 in
  let e1 := e + n1 in
  exists m2, m1 <= m2 <= m1 + 1 /\
    let n2 := Z.max (fexp64 (Zdigits2 m2 + e1) - e1) 0 in
    binary_round_aux prec emax s M e l =
      match m2 / 2 ^ n2 with
      | 0 => S754_zero s
      | Zpos m => if e1 + n2 <=? 971 then S754_finite s m (e1 + n2) else S754_infinity s
      | Zneg _ => S754_nan
      end.
Proof.
  intros HM n1 m1 e1. unfold binary_round_aux, shr_fexp.
  change (SpecFloat.fexp prec emax) with fexp64.
  destruct (shr_spec (shr_record_of_loc M l) e
              (fexp64 (Zdigits2 M + e) - e)) as [Hm He].
  { now rewrite shr_m_record_of_loc. }
  rewrite shr_m_record_of_loc in Hm.
  destruct (shr (shr_record_of_loc M l) e
              (fexp64 (Zdigits2 M + e) - e)) as [mrs' e'].
  simpl in Hm, He. fold n1 in Hm, He. fold m1 in Hm. fold e1 in He. subst e'.
  set (m2 := round_nearest_even (shr_m mrs') (loc_of_shr_record mrs')).
  exists m2. split.
  { unfold m2. rewrite <- Hm. apply round_nearest_even_bounds. }
  cbv zeta. set (n2 := Z.max (fexp64 (Zdigits2 m2 + e1) - e1) 0).
  assert (H2 : 0 <= m2).
  { unfold m2. pose proof (round_nearest_even_bounds (shr_m mrs') (loc_of_shr_record mrs')).
    assert (0 <= shr_m mrs')
      by (rewrite Hm; apply Z.div_pos; [lia|apply Z.pow_pos_nonneg; lia]).
    lia. }
  destruct (shr_spec (shr_record_of_loc m2 loc_Exact) e1
              (fexp64 (Zdigits2 m2 + e1) - e1)) as [Hm' He'].
  { simpl. exact H2. }
  simpl shr_record_of_loc in *.
  destruct (shr {| shr_m := m2; shr_r := false; shr_s := false |} e1
              (fexp64 (Zdigits2 m2 + e1) - e1)) as [mrs'' e''].
  simpl in Hm', He'. fold n2 in Hm', He'. rewrite Hm', He'. reflexivity.
Qed.

(** *** Binary64: digits, and bounds on a rounded value *)

Lemma digits2_pos_bounds p :
  2 ^ (Zpos (digits2_pos p) - 1) <= Zpos p < 2 ^ Zpos (digits2_pos p).
Proof.
  induction p as [p IH|p IH|]; simpl digits2_pos.
  1, 2: rewrite Pos2Z.inj_succ;
    replace (Z.succ (Zpos (digits2_pos p)) - 1)
      with (Z.succ (Zpos (digits2_pos p) - 1)) by lia;
    rewrite !Z.pow_succ_r by lia; lia.
  simpl. lia.
Qed.

Lemma Zdigits2_bounds m : 0 < m ->
  1 <= Zdigits2 m /\ 2 ^ (Zdigits2 m - 1) <= m < 2 ^ Zdigits2 m.
Proof.
  destruct m as [|p|p]; try lia. intros _. simpl Zdigits2.
  split; [lia|apply digits2_pos_bounds].
Qed.

Lemma Zdigits2_lower m k : 0 < m -> 2 ^ k <= m -> k + 1 <= Zdigits2 m.
Proof.
  intros Hm Hk. destruct (Zdigits2_bounds m Hm) as [H1 [_ H2]].
  destruct (Z.le_gt_cases (k + 1) (Zdigits2 m)) as [|Hlt]; [assumption|].
  exfalso. assert (2 ^ Zdigits2 m <= 2 ^ k) by (apply Z.pow_le_mono_r; lia). lia.
Qed.

Lemma Zdigits2_upper m k : 0 < m -> m < 2 ^ k -> Zdigits2 m <= k.
Proof.
  intros Hm Hk. destruct (Zdigits2_bounds m Hm) as [H1 [H2 _]].
  destruct (Z.le_gt_cases (Zdigits2 m) k) as [|Hlt]; [assumption|].
  exfalso. assert (2 ^ k <= 2 ^ (Zdigits2 m - 1)) by (apply Z.pow_le_mono_r; lia). lia.
Qed.

(** Dividing by a power of two that leaves 53 digits leaves at least 2^52. *)
Lemma div_pow2_digits_lower m n : 0 < m -> 0 <= n -> n = Zdigits2 m - 53 ->
  2 ^ 52 <= m / 2 ^ n.
Proof.
  intros Hm Hn ->. destruct (Zdigits2_bounds m Hm) as [_ [H _]].
  apply Z.div_le_lower_bound; [apply Z.pow_pos_nonneg; lia|].
  rewrite <- Z.pow_add_r by lia.
  replace (Zdigits2 m - 53 + 52) with (Zdigits2 m - 1) by lia. exact H.
Qed.

Lemma div_pow2_upper m n : 0 < m -> 0 <= n -> Zdigits2 m - 53 <= n ->
  m / 2 ^ n < 2 ^ 53.
Proof.
  intros Hm Hn Hd. destruct (Zdigits2_bounds m Hm) as [_ [_ H]].
  apply Z.div_lt_upper_bound; [apply Z.pow_pos_nonneg; lia|].
  rewrite <- Z.pow_add_r by lia.
  eapply Z.lt_le_trans; [exact H|]. apply Z.pow_le_mono_r; lia.
Qed.

(** The second shift of [binary_round_aux] removes at most one bit and
    leaves a positive mantissa positive. *)
Lemma second_shift m2 e1 : 0 < m2 -> -1074 <= e1 ->
  let n2 := Z.max (fexp64 (Zdigits2 m2 + e1) - e1) 0 in
  0 < m2 / 2 ^ n2 /\ (n2 = 0 \/ (n2 = Zdigits2 m2 - 53 /\ 0 < n2)).
Proof.
  intros Hm He n2. unfold fexp64 in n2.
  destruct (Z.eq_dec n2 0) as [E|E].
  - rewrite E. rewrite Z.div_1_r. auto.
  - assert (Hn : n2 = Zdigits2 m2 - 53 /\ 0 < n2) by (unfold n2 in *; lia).
    split; [|auto]. destruct Hn as [Hn Hp].
    pose proof (div_pow2_digits_lower m2 n2 Hm (Z.lt_le_incl _ _ Hp) Hn). lia.
Qed.

(** Rounding is bounded below by any canonical float under the rounded
    value: for a canonical [mx * 2^ex] with [mx * 2^ex <= M * 2^e], the
    result is an infinity or a finite float that compares at or above it. *)
Lemma binary_round_aux_lower M e l mx ex :
  0 < mx -> 0 < M -> fexp64 (Zdigits2 mx + ex) = ex ->
  mx * 2 ^ Z.max (ex - e) 0 <= M * 2 ^ Z.max (e - ex) 0 ->
  binary_round_aux prec emax false M e l = S754_infinity false \/
  exists m3 e3, binary_round_aux prec emax false M e l = S754_finite false m3 e3 /\
    (ex < e3 \/ (e3 = ex /\ mx <= Zpos m3)).
Proof.
  intros Hmx HM Hcan Hle.
  destruct (binary_round_aux_spec false M e l (Z.lt_le_incl _ _ HM)) as [m2 [Hm2 Hr]].
  cbv zeta in Hr.
  set (n1 := Z.max (fexp64 (Zdigits2 M + e) - e) 0) in *.
  set (m1 := M / 2 ^ n1) in *.
  set (e1 := e + n1) in *.
  destruct (Zdigits2_bounds mx Hmx) as [Hdx1 [Hdx2 Hdx3]].
  destruct (Zdigits2_bounds M HM) as [HdM1 [HdM2 HdM3]].
  assert (Hex : -1074 <= ex) by (unfold fexp64 in Hcan; lia).
  (* digits of M, shifted, dominate digits of mx, shifted *)
  assert (Hdig : Zdigits2 mx + ex <= Zdigits2 M + e).
  { destruct (Z.le_gt_cases (Zdigits2 mx + ex) (Zdigits2 M + e)) as [|Hgt]; [assumption|exfalso].
    destruct (Z.le_gt_cases e ex) as [Hc|Hc].
    - rewrite (Z.max_r (e - ex) 0), Z.mul_1_r, (Z.max_l (ex - e) 0) in Hle by lia.
      assert (2 ^ (Zdigits2 M) * 1 <= 2 ^ (Zdigits2 mx - 1) * 2 ^ (ex - e)).
      { rewrite <- Z.pow_add_r, Z.mul_1_r by lia. apply Z.pow_le_mono_r; lia. }
      assert (2 ^ (Zdigits2 mx - 1) * 2 ^ (ex - e) <= mx * 2 ^ (ex - e)).
      { apply Z.mul_le_mono_nonneg_r; [apply Z.pow_nonneg|]; lia. }
      lia.
    - rewrite (Z.max_l (e - ex) 0), (Z.max_r (ex - e) 0), Z.mul_1_r in Hle by lia.
      assert (M * 2 ^ (e - ex) < 2 ^ Zdigits2 M * 2 ^ (e - ex)).
      { apply Z.mul_lt_mono_pos_r; [apply Z.pow_pos_nonneg|]; lia. }
      assert (2 ^ Zdigits2 M * 2 ^ (e - ex) <= 2 ^ (Zdigits2 mx - 1)).
      { rewrite <- Z.pow_add_r by lia. apply Z.pow_le_mono_r; lia. }
      lia. }
  assert (Hfe : ex <= fexp64 (Zdigits2 M + e)) by (unfold fexp64 in *; lia).
  assert (He1 : ex <= e1) by (unfold e1, n1; lia).
  assert (Hn1 : 0 <= n1) by (unfold n1; lia).
  assert (Hm1 : 0 < m1 /\ (e1 = ex -> mx <= m1)).
  { destruct (Z.eq_dec e1 ex) as [E|E].
    - assert (Hc : e <= ex) by (unfold e1 in E; lia).
      assert (En : n1 = ex - e) by (unfold e1 in E; lia).
      rewrite (Z.max_r (e - ex) 0), Z.mul_1_r, (Z.max_l (ex - e) 0) in Hle by lia.
      assert (mx <= m1).
      { unfold m1. rewrite En. apply Z.div_le_lower_bound; [apply Z.pow_pos_nonneg; lia|]. lia. }
      split; [lia|auto].
    - split; [|intros; contradiction].
      destruct (Z.eq_dec n1 0) as [E0|E0].
      + unfold m1. rewrite E0, Z.div_1_r. exact HM.
      + assert (n1 = Zdigits2 M - 53) by (unfold n1, e1, fexp64 in *; lia).
        pose proof (div_pow2_digits_lower M n1 HM Hn1 H). fold m1 in H0. lia. }
  destruct Hm1 as [Hm1 Hm1x].
  assert (Hm2p : 0 < m2) by lia.
  destruct (second_shift m2 e1 Hm2p) as [Hm3 Hn2]; [lia|].
  cbv zeta in Hm3, Hn2.
  set (n2 := Z.max (fexp64 (Zdigits2 m2 + e1) - e1) 0) in *.
  destruct (m2 / 2 ^ n2) as [|m3|m3] eqn:E3; try lia.
  destruct (e1 + n2 <=? 971); [|left; exact Hr].
  right. exists m3, (e1 + n2). split; [exact Hr|].
  destruct (Z.eq_dec (e1 + n2) ex) as [E|E]; [right|left; lia].
  split; [exact E|].
  assert (n2 = 0) by lia. assert (e1 = ex) by lia.
  rewrite H, Z.div_1_r in E3. specialize (Hm1x H0). lia.
Qed.

(** No overflow when the rounded value lies below [2^1023]. *)
Lemma binary_round_aux_no_overflow s M e l :
  0 <= M -> Zdigits2 M + e <= 1023 -> e <= 970 ->
  binary_round_aux prec emax s M e l <> S754_infinity s.
Proof.
  intros HM Hd He.
  destruct (binary_round_aux_spec s M e l HM) as [m2 [Hm2 Hr]].
  cbv zeta in Hr.
  set (n1 := Z.max (fexp64 (Zdigits2 M + e) - e) 0) in *.
  set (m1 := M / 2 ^ n1) in *.
  set (e1 := e + n1) in *.
  set (n2 := Z.max (fexp64 (Zdigits2 m2 + e1) - e1) 0) in *.
  rewrite Hr.
  destruct (m2 / 2 ^ n2) as [|m3|m3] eqn:E3; try discriminate.
  assert (Hn1 : 0 <= n1) by (unfold n1; lia).
  assert (He1 : -1074 <= e1 \/ n1 = 0) by (unfold e1, n1, fexp64; lia).
  assert (Hm1 : 0 <= m1) by (apply Z.div_pos; [lia|apply Z.pow_pos_nonneg; lia]).
  assert (Hm2p : 0 < m2).
  { destruct (Z.eq_dec m2 0) as [E|E]; [|lia]. rewrite E in E3.
    rewrite Z.div_0_l in E3; [discriminate|]. apply Z.pow_nonzero; unfold n2; lia. }
  assert (Hle : e1 + n2 <= 971).
  { assert (Hm1b : m1 < 2 ^ 53).
    { destruct (Z.eq_dec M 0) as [E0|E0].
      - unfold m1. rewrite E0, Z.div_0_l; [lia|]. apply Z.pow_nonzero; lia.
      - apply div_pow2_upper; try lia. unfold n1, fexp64. lia. }
    assert (Hd2 : Zdigits2 m2 <= 54).
    { apply Zdigits2_upper; [lia|]. change (2 ^ 54) with (2 * 2 ^ 53). lia. }
    unfold n2, e1, n1, fexp64 in *. lia. }
  apply Z.leb_le in Hle. rewrite Hle. discriminate.
Qed.

(** *** Binary64: sums, products and quotients of floats that are not negative *)

Lemma scaled_le_base mx ex M e b : b <= ex -> b <= e ->
  scaled_le mx ex M e <-> mx * 2 ^ (ex - b) <= M * 2 ^ (e - b).
Proof.
  intros Hx He. unfold scaled_le.
  set (c := Z.min ex e - b).
  replace (ex - b) with (Z.max (ex - e) 0 + c) by (unfold c; lia).
  replace (e - b) with (Z.max (e - ex) 0 + c) by (unfold c; lia).
  rewrite !Z.pow_add_r by (unfold c; lia).
  rewrite !Z.mul_assoc.
  assert (0 < 2 ^ c) by (apply Z.pow_pos_nonneg; unfold c; lia).
  split; intro H0.
  - apply Z.mul_le_mono_nonneg_r; lia.
  - apply Z.mul_le_mono_pos_r in H0; assumption.
Qed.

Lemma iter_xO_value m d : Zpos (Pos.iter xO m d) = Zpos m * 2 ^ Zpos d.
Proof.
  induction d as [|d IH] using Pos.peano_ind.
  - simpl. lia.
  - rewrite Pos.iter_succ, Pos2Z.inj_xO, IH, Pos2Z.inj_succ, Z.pow_succ_r by lia. lia.
Qed.

Lemma shl_align_spec m e e' :
  let k := Z.max (e - e') 0 in
  Zpos (fst (shl_align m e e')) = Zpos m * 2 ^ k /\ snd (shl_align m e e') = e - k.
Proof.
  intros k. unfold shl_align.
  destruct (e' - e) as [|d|d] eqn:E; simpl fst; simpl snd.
  - replace k with 0 by (unfold k; lia). simpl. lia.
  - replace k with 0 by (unfold k; lia). simpl. lia.
  - replace k with (Zpos d) by (unfold k; lia). rewrite iter_xO_value. lia.
Qed.

Lemma Zdigits2_shift m k : 0 < m -> 0 <= k -> Zdigits2 (m * 2 ^ k) = Zdigits2 m + k.
Proof.
  intros Hm Hk. destruct (Zdigits2_bounds m Hm) as [H1 [H2 H3]].
  assert (Hp : 0 < 2 ^ k) by (apply Z.pow_pos_nonneg; lia).
  assert (Hmk : 0 < m * 2 ^ k) by lia.
  apply Z.le_antisymm.
  - apply Zdigits2_upper; [assumption|]. rewrite Z.pow_add_r by lia.
    apply Z.mul_lt_mono_pos_r; assumption.
  - replace (Zdigits2 m + k) with ((Zdigits2 m - 1 + k) + 1) by lia.
    apply Zdigits2_lower; [assumption|]. rewrite Z.pow_add_r by lia.
    apply Z.mul_le_mono_nonneg_r; lia.
Qed.

Lemma binary_round_lower M e mx ex :
  0 < mx -> fexp64 (Zdigits2 mx + ex) = ex ->
  scaled_le mx ex (Zpos M) e ->
  binary_round prec emax false M e = S754_infinity false \/
  exists m3 e3, binary_round prec emax false M e = S754_finite false m3 e3 /\
    (ex < e3 \/ (e3 = ex /\ mx <= Zpos m3)).
Proof.
  intros Hmx Hcan Hle. unfold binary_round.
  destruct (shl_align_spec M e (SpecFloat.fexp prec emax (Zpos (digits2_pos M) + e))) as [Hm He].
  destruct (shl_align M e (SpecFloat.fexp prec emax (Zpos (digits2_pos M) + e))) as [mz ez].
  simpl fst in Hm; simpl snd in He.
  set (k := Z.max (e - SpecFloat.fexp prec emax (Zpos (digits2_pos M) + e)) 0) in *.
  assert (Hk : 0 <= k) by (unfold k; lia).
  apply binary_round_aux_lower; try assumption; try lia.
  set (b := Z.min ex ez).
  apply (scaled_le_base mx ex (Zpos M) e b) in Hle; try (unfold b; lia).
  apply (scaled_le_base mx ex (Zpos mz) ez b); try (unfold b; lia).
  rewrite Hm. replace (e - b) with (k + (ez - b)) in Hle by lia.
  rewrite Z.pow_add_r in Hle by (unfold b; lia). lia.
Qed.

Lemma binary_round_no_overflow s M e :
  Zpos (digits2_pos M) + e <= 1023 -> e <= 970 ->
  binary_round prec emax s M e <> S754_infinity s.
Proof.
  intros Hd He. unfold binary_round.
  destruct (shl_align_spec M e (SpecFloat.fexp prec emax (Zpos (digits2_pos M) + e))) as [Hm Hez].
  destruct (shl_align M e (SpecFloat.fexp prec emax (Zpos (digits2_pos M) + e))) as [mz ez].
  simpl fst in Hm; simpl snd in Hez.
  set (k := Z.max (e - SpecFloat.fexp prec emax (Zpos (digits2_pos M) + e)) 0) in *.
  assert (Hk : 0 <= k) by (unfold k; lia).
  apply binary_round_aux_no_overflow; try lia.
  rewrite Hm, Zdigits2_shift by lia. simpl Zdigits2. lia.
Qed.

(** Rounding a mantissa that is not negative gives a zero, a finite float
    or an infinity of the sign asked for, never a NaN. *)
Lemma binary_round_aux_signed s M e l : 0 <= M ->
  SFsigned s (binary_round_aux prec emax s M e l) = true.
Proof.
  intros HM. destruct (binary_round_aux_spec s M e l HM) as [m2 [Hm2 Hr]].
  cbv zeta in Hr. rewrite Hr.
  set (n1 := Z.max (fexp64 (Zdigits2 M + e) - e) 0) in *.
  set (n2 := Z.max _ 0).
  assert (0 <= M / 2 ^ n1)
    by (apply Z.div_pos; [lia|apply Z.pow_pos_nonneg; unfold n1; lia]).
  assert (0 <= m2 / 2 ^ n2)
    by (apply Z.div_pos; [lia|apply Z.pow_pos_nonneg; unfold n2; lia]).
  destruct (m2 / 2 ^ n2); try lia; [|destruct (_ <=? 971)];
    cbn [SFsigned]; apply eqb_reflx.
Qed.

Lemma SFsigned_plus x : SFsigned false x = true -> SFplus x = true.
Proof. now destruct x as [[]|[]| |[] m e]. Qed.

Lemma binary_round_aux_plus M e l : 0 <= M ->
  SFplus (binary_round_aux prec emax false M e l) = true.
Proof. intros HM. now apply SFsigned_plus, binary_round_aux_signed. Qed.

(** The quotient computed by [SFdiv_core_binary] is not negative. *)
Lemma SFdiv_core_nonneg mx ex my ey :
  0 <= fst (fst (SFdiv_core_binary prec emax (Zpos mx) ex (Zpos my) ey)).
Proof.
  unfold SFdiv_core_binary.
  set (m' := match _ with Z.pos _ => Z.shiftl (Zpos mx) _ | 0 => Zpos mx | Z.neg _ => 0 end).
  assert (Hm' : 0 <= m').
  { unfold m'. destruct (_ - _ - _); try lia. apply Z.shiftl_nonneg. lia. }
  pose proof (Z.div_pos m' (Zpos my) Hm' (Pos2Z.is_pos my)) as Hq.
  unfold Z.div in Hq. now destruct (Z.div_eucl m' (Zpos my)) as [q r].
Qed.

Lemma binary_normalize_plus z : 0 <= z ->
  SFplus (binary_normalize prec emax z 0 false) = true.
Proof.
  destruct z as [|p|p]; try lia; intros _; [reflexivity|].
  unfold binary_normalize, binary_round.
  destruct (shl_align _ _ _) as [mz ez]. apply binary_round_aux_plus. lia.
Qed.

Lemma SFplus_nonneg x : SFplus x = true -> SFnonneg x = true.
Proof. destruct x; simpl; auto. Qed.

Lemma SFleb_zero x : SFleb (S754_zero false) x = SFnonneg x.
Proof. destruct x as [s|s| |s m e]; try destruct s; reflexivity. Qed.

(** [x <= x + y] for canonical [x >= 0] and [y >= 0]. *)
Lemma SFadd_nonneg_le x y :
  valid_binary x = true -> SFnonneg x = true -> SFnonneg y = true ->
  SFleb x (SF64add x y) = true /\ SFnonneg (SF64add x y) = true.
Proof.
  intros Hv Hx Hy.
  destruct x as [sx|sx| |sx mx ex]; try discriminate;
  destruct y as [sy|sy| |sy my ey]; try discriminate;
  simpl in Hx, Hy;
  try (destruct sx; try discriminate Hx); try (destruct sy; try discriminate Hy);
  try (split; reflexivity).
  - (* finite + zero *)
    unfold SF64add, SFadd, SFleb, SFcompare. rewrite Z.compare_refl, Pos.compare_cont_refl.
    split; reflexivity.
  - unfold SF64add, SFadd, SFleb, SFcompare. rewrite Z.compare_refl, Pos.compare_cont_refl.
    split; reflexivity.
  - (* finite + finite *)
    unfold SF64add, SFadd, cond_Zopp.
    destruct (shl_align_spec mx ex (Z.min ex ey)) as [Hax _].
    destruct (shl_align_spec my ey (Z.min ex ey)) as [Hay _].
    set (a := fst (shl_align mx ex (Z.min ex ey))) in *.
    set (b := fst (shl_align my ey (Z.min ex ey))) in *.
    change (Z.pos a + Z.pos b) with (Z.pos (a + b)).
    unfold binary_normalize.
    simpl in Hv. unfold bounded, canonical_mantissa in Hv.
    apply andb_true_iff in Hv. destruct Hv as [Hc _]. apply Z.eqb_eq in Hc.
    destruct (binary_round_lower (a + b) (Z.min ex ey) (Zpos mx) ex) as [Hr|[m3 [e3 [Hr Hord]]]].
    + lia.
    + exact Hc.
    + unfold scaled_le. rewrite (Z.max_r (Z.min ex ey - ex) 0), Z.mul_1_r by lia.
      rewrite Pos2Z.inj_add, Hax. lia.
    + rewrite Hr. split; reflexivity.
    + rewrite Hr. split; [|reflexivity].
      unfold SFleb, SFcompare.
      destruct Hord as [Hlt|[-> Hm]].
      * apply Z.compare_lt_iff in Hlt. now rewrite Hlt.
      * rewrite Z.compare_refl. fold (Pos.compare mx m3).
        destruct (Pos.compare mx m3) eqn:E; try reflexivity.
        apply Pos.compare_gt_iff in E. lia.
Qed.

Lemma SFmul_nonneg x y :
  SFfinite_pos x = true -> SFnonneg y = true -> SFnonneg (SF64mul x y) = true.
Proof.
  destruct x as [sx|sx| |[] mx ex]; try discriminate. intros _.
  destruct y as [sy|[]| |[] my ey]; try discriminate; intros _; try reflexivity.
  unfold SF64mul, SFmul. apply SFplus_nonneg, binary_round_aux_plus. lia.
Qed.

Lemma SFdiv_plus x y :
  SFplus x = true -> SFplus y = true ->
  SFfinite_pos x || SFfinite_pos y = true -> SFplus (SF64div x y) = true.
Proof.
  destruct x as [[]|[]| |[] mx ex]; try discriminate;
  destruct y as [[]|[]| |[] my ey]; try discriminate; intros _ _ H; try discriminate H;
  try reflexivity.
  unfold SF64div, SFdiv. pose proof (SFdiv_core_nonneg mx ex my ey) as Hq.
  destruct (SFdiv_core_binary prec emax (Zpos mx) ex (Zpos my) ey) as [[q e'] l].
  cbn [xorb]. apply binary_round_aux_plus. exact Hq.
Qed.

(** *** The same facts on primitive floats *)

Lemma Prim2SF_zero : Prim2SF 0 = S754_zero false.
Proof. reflexivity. Qed.

Lemma leb_zero x : (0 <=? x)%float = SFnonneg (Prim2SF x).
Proof. now rewrite leb_spec, Prim2SF_zero, SFleb_zero. Qed.

Lemma add_nonneg_le x y :
  (0 <=? x)%float = true -> (0 <=? y)%float = true ->
  (x <=? x + y)%float = true /\ (0 <=? x + y)%float = true.
Proof.
  rewrite !leb_zero, leb_spec, add_spec. intros Hx Hy.
  apply SFadd_nonneg_le; auto using Prim2SF_valid.
Qed.

Lemma to_Z_of_Z u : 0 <= u < 2 ^ 63 -> Uint63.to_Z (Uint63.of_Z u) = u.
Proof. intros H. rewrite Uint63.of_Z_spec. apply Z.mod_small. exact H. Qed.

Lemma double_of_uint_plus u : SFplus (Prim2SF (double_of_uint u)) = true.
Proof.
  unfold double_of_uint. rewrite of_uint63_spec.
  apply binary_normalize_plus. apply Uint63.to_Z_bounded.
Qed.

Lemma double_of_uint_finite u : 0 < u < 2 ^ 63 ->
  SFfinite_pos (Prim2SF (double_of_uint u)) = true.
Proof.
  intros Hu. unfold double_of_uint. rewrite of_uint63_spec, to_Z_of_Z by lia.
  destruct u as [|p|p]; try lia. unfold binary_normalize.
  assert (Hd : Zpos (digits2_pos p) <= 63).
  { apply (Zdigits2_upper (Zpos p) 63); lia. }
  pose proof (binary_round_no_overflow false p 0) as Hno.
  destruct (binary_round_lower p 0 1 (-1074)) as [Hr|[m3 [e3 [Hr _]]]].
  - lia.
  - reflexivity.
  - unfold scaled_le. simpl Z.max. rewrite Z.pow_0_r.
    assert (0 < 2 ^ 1074) by (apply Z.pow_pos_nonneg; lia). nia.
  - exfalso. apply Hno; [lia|lia|exact Hr].
  - now rewrite Hr.
Qed.

Lemma mul_nonneg x y :
  SFfinite_pos (Prim2SF x) = true -> (0 <=? y)%float = true ->
  (0 <=? x * y)%float = true.
Proof.
  rewrite !leb_zero, mul_spec. apply SFmul_nonneg.
Qed.

Lemma one_div_uint_nonneg u : (0 <=? 1 / double_of_uint u)%float = true.
Proof.
  rewrite leb_zero, div_spec. apply SFplus_nonneg, SFdiv_plus.
  - reflexivity.
  - apply double_of_uint_plus.
  - reflexivity.
Qed.

Lemma uint_div_nonneg u (c : float) :
  SFfinite_pos (Prim2SF c) = true -> (0 <=? double_of_uint u / c)%float = true.
Proof.
  intros Hc. rewrite leb_zero, div_spec. apply SFplus_nonneg, SFdiv_plus.
  - apply double_of_uint_plus.
  - destruct (Prim2SF c) as [| | |[] ? ?]; try discriminate; reflexivity.
  - rewrite Hc. apply orb_true_r.
Qed.

(** *** Machine integers: the loop of [Sys_InitTimers] and the shifted count *)

Lemma wrap32_range z : 0 <= wrap32 z < 2 ^ 32.
Proof. unfold wrap32. apply Z.mod_pos_bound. lia. Qed.

Lemma wrap32_small z : 0 <= z < 2 ^ 32 -> wrap32 z = z.
Proof. unfold wrap32. apply Z.mod_small. Qed.

Lemma land_low_high a h n : 0 <= n -> 0 <= a < 2 ^ n -> Z.land a (h * 2 ^ n) = 0.
Proof.
  intros Hn Ha. apply Z.bits_inj'. intros k Hk.
  rewrite Z.land_spec, Z.bits_0.
  destruct (Z.lt_ge_cases k n) as [Hlt|Hge].
  - rewrite Z.mul_pow2_bits_low by assumption. apply andb_false_r.
  - destruct (Z.eq_dec a 0) as [->|Hne]; [now rewrite Z.bits_0|].
    rewrite (Z.bits_above_log2 a k); [reflexivity|lia|].
    apply Z.log2_lt_pow2; [lia|].
    eapply Z.lt_le_trans; [apply Ha|]. apply Z.pow_le_mono_r; lia.
Qed.

Lemma lor_low_high a h n : 0 <= n -> 0 <= a < 2 ^ n ->
  Z.lor a (h * 2 ^ n) = a + h * 2 ^ n.
Proof.
  intros Hn Ha. pose proof (Z.add_lor_land a (h * 2 ^ n)) as H.
  rewrite land_low_high in H by assumption. lia.
Qed.

(** One turn of the loop halves the 64-bit value [highpart:lowpart]. *)
Lemma loop_body_halves low high :
  0 <= low < 2 ^ 32 -> 0 <= high ->
  let low' := wrap32 (Z.lor (Z.shiftr low 1)
                        (wrap32 (Z.shiftl (Z.land high 1) 31))) in
  let high' := Z.shiftr high 1 in
  0 <= low' < 2 ^ 32 /\ 0 <= high' /\
  high' * 2 ^ 32 + low' = (high * 2 ^ 32 + low) / 2.
Proof.
  intros Hl Hh low' high'.
  change (2 ^ 32) with 4294967296 in *.
  assert (E1 : Z.shiftr low 1 = low / 2).
  { rewrite Z.shiftr_div_pow2 by lia. reflexivity. }
  assert (E2 : Z.land high 1 = high mod 2).
  { change 1 with (Z.ones 1). rewrite Z.land_ones by lia. reflexivity. }
  assert (E3 : Z.shiftl (high mod 2) 31 = (high mod 2) * 2147483648).
  { rewrite Z.shiftl_mul_pow2 by lia. reflexivity. }
  assert (E4 : high' = high / 2).
  { unfold high'. rewrite Z.shiftr_div_pow2 by lia. reflexivity. }
  assert (E5 : low' = low / 2 + (high mod 2) * 2147483648).
  { unfold low'. rewrite E1, E2, E3.
    rewrite (wrap32_small ((high mod 2) * 2147483648))
      by (change (2 ^ 32) with 4294967296; Z.div_mod_to_equations; lia).
    change 2147483648 with (2 ^ 31).
    rewrite lor_low_high
      by (change (2 ^ 31) with 2147483648; Z.div_mod_to_equations; lia).
    apply wrap32_small. change (2 ^ 31) with 2147483648.
    change (2 ^ 32) with 4294967296. Z.div_mod_to_equations. lia. }
  rewrite E4, E5. repeat split; Z.div_mod_to_equations; lia.
Qed.

Lemma lowshift_loop_spec fuel : forall k low high,
  0 <= low < 2 ^ 32 -> 0 <= high ->
  high * 2 ^ 32 + low < 2 ^ Z.of_nat fuel ->
  exists j, 0 <= j <= Z.of_nat fuel /\
    lowshift_loop fuel k low high
      = Some (k + j, (high * 2 ^ 32 + low) / 2 ^ j, 0) /\
    (high * 2 ^ 32 + low) / 2 ^ j <= 2000000 /\
    forall i, 0 <= i < j -> 2000000 < (high * 2 ^ 32 + low) / 2 ^ i.
Proof.
  induction fuel as [|fuel IH]; intros k low high Hl Hh HV.
  - exists 0. change (2 ^ Z.of_nat 0) with 1 in HV.
    assert (low = 0 /\ high = 0) as [-> ->] by lia.
    change ((0 * 2 ^ 32 + 0) / 2 ^ 0) with 0. rewrite Z.add_0_r.
    repeat split; try lia.
  - cbn [lowshift_loop].
    destruct (negb (high =? 0) || (2000000 <? low)) eqn:C.
    + destruct (loop_body_halves low high Hl Hh) as [Hl' [Hh' HV']].
      cbv zeta in Hl', Hh', HV'.
      set (low' := wrap32 _) in *. set (high' := Z.shiftr high 1) in *.
      assert (Hb : high' * 2 ^ 32 + low' < 2 ^ Z.of_nat fuel).
      { rewrite HV'. apply Z.div_lt_upper_bound; [lia|].
        rewrite <- Z.pow_succ_r by lia. now rewrite <- Nat2Z.inj_succ. }
      destruct (IH (k + 1) low' high' Hl' Hh' Hb) as [j [Hj [Hr [Hle Hmin]]]].
      exists (j + 1). rewrite Hr, HV'.
      assert (Ediv : forall i, 0 <= i ->
                (high * 2 ^ 32 + low) / 2 / 2 ^ i = (high * 2 ^ 32 + low) / 2 ^ (i + 1)).
      { intros i Hi. rewrite Z.div_div by (try apply Z.pow_pos_nonneg; lia).
        f_equal. rewrite Z.pow_add_r by lia. lia. }
      rewrite Ediv by lia. rewrite HV', Ediv in Hle by lia.
      repeat split; try lia.
      * f_equal. f_equal. f_equal. lia.
      * intros i Hi. destruct (Z.eq_dec i 0) as [->|Hne].
        -- rewrite Z.div_1_r.
           apply orb_true_iff in C. destruct C as [C|C].
           ++ apply negb_true_iff, Z.eqb_neq in C. lia.
           ++ apply Z.ltb_lt in C. lia.
        -- specialize (Hmin (i - 1)). rewrite HV', Ediv in Hmin by lia.
           replace (i - 1 + 1) with i in Hmin by lia. apply Hmin. lia.
    + apply orb_false_iff in C. destruct C as [C1 C2].
      apply negb_false_iff, Z.eqb_eq in C1. apply Z.ltb_ge in C2. subst high.
      exists 0. change (2 ^ 0) with 1. rewrite Z.div_1_r.
      replace (k + 0) with k by lia. replace (0 * 2 ^ 32 + low) with low by lia.
      repeat split; try lia.
Qed.

Lemma shifted_count_range k pc : 0 <= shifted_count k pc < 2 ^ 32.
Proof. unfold shifted_count. apply wrap32_range. Qed.

(** For a shift count the C code defines, the normalised reading is the low
    32 bits of the 64-bit count shifted right. *)
Lemma shifted_count_value k pc : 0 < k < 32 ->
  shifted_count k pc
  = wrap32 ((wrap32 (HighPart pc) * 2 ^ 32 + wrap32 (LowPart pc)) / 2 ^ k).
Proof.
  intros Hk. unfold shifted_count.
  pose proof (wrap32_range (LowPart pc)) as HL.
  pose proof (wrap32_range (HighPart pc)) as HH.
  set (L := wrap32 (LowPart pc)) in *. set (H := wrap32 (HighPart pc)) in *.
  assert (Hp : 0 < 2 ^ k) by (apply Z.pow_pos_nonneg; lia).
  assert (Hq : 0 < 2 ^ (32 - k)) by (apply Z.pow_pos_nonneg; lia).
  assert (E32 : 2 ^ 32 = 2 ^ (32 - k) * 2 ^ k).
  { rewrite <- Z.pow_add_r by lia. f_equal. lia. }
  assert (EL : Z.shiftr L k = L / 2 ^ k) by (apply Z.shiftr_div_pow2; lia).
  assert (HLk : 0 <= L / 2 ^ k < 2 ^ (32 - k)).
  { split; [apply Z.div_pos; lia|]. apply Z.div_lt_upper_bound; [lia|].
    rewrite (Z.mul_comm (2 ^ k)), <- E32. lia. }
  assert (HLk' : L / 2 ^ k < 2 ^ 32).
  { eapply Z.lt_le_trans; [apply HLk|]. apply Z.pow_le_mono_r; lia. }
  rewrite EL, (wrap32_small (L / 2 ^ k)) by lia.
  rewrite Z.shiftl_mul_pow2 by lia.
  assert (EH : wrap32 (H * 2 ^ (32 - k)) = (H mod 2 ^ k) * 2 ^ (32 - k)).
  { unfold wrap32. rewrite E32. rewrite (Z.mul_comm (2 ^ (32 - k)) (2 ^ k)).
    rewrite Z.mul_mod_distr_r by lia. reflexivity. }
  rewrite EH, lor_low_high by lia.
  assert (ED : (H * 2 ^ 32 + L) / 2 ^ k = H * 2 ^ (32 - k) + L / 2 ^ k).
  { rewrite E32, Z.mul_assoc, Z.div_add_l by lia. reflexivity. }
  rewrite ED. unfold wrap32.
  rewrite <- (Z.add_mod_idemp_l (H * 2 ^ (32 - k))) by lia.
  change ((H * 2 ^ (32 - k)) mod 2 ^ 32) with (wrap32 (H * 2 ^ (32 - k))).
  rewrite EH. f_equal. lia.
Qed.

(** *** One call on the primary path *)

Lemma SFleb_finite m1 e1 m2 e2 :
  SFleb (S754_finite false m1 e1) (S754_finite false m2 e2) = true <->
  e1 < e2 \/ (e1 = e2 /\ (m1 <= m2)%positive).
Proof.
  unfold SFleb, SFcompare. fold (Pos.compare m1 m2).
  destruct (Z.compare_spec e1 e2) as [E|E|E].
  - destruct (Pos.compare_spec m1 m2) as [P|P|P]; split; intros H;
      try discriminate; try reflexivity; try lia.
  - split; [lia|reflexivity].
  - split; [discriminate|lia].
Qed.

Lemma SFleb_refl_nonneg x : SFnonneg x = true -> SFleb x x = true.
Proof.
  destruct x as [s|[]| |[] m e]; try discriminate; intros _; try reflexivity.
  apply SFleb_finite. right. split; [reflexivity|apply Pos.le_refl].
Qed.

Lemma SFleb_trans_nonneg x y z :
  SFnonneg x = true -> SFnonneg y = true -> SFnonneg z = true ->
  SFleb x y = true -> SFleb y z = true -> SFleb x z = true.
Proof.
  destruct x as [sx|[]| |[] mx ex]; try discriminate;
  destruct y as [sy|[]| |[] my ey]; try discriminate;
  destruct z as [sz|[]| |[] mz ez]; try discriminate;
  intros _ _ _ Hxy Hyz; try reflexivity; try discriminate.
  apply SFleb_finite in Hxy, Hyz. apply SFleb_finite. lia.
Qed.

Lemma leb_refl_nonneg x : (0 <=? x)%float = true -> (x <=? x)%float = true.
Proof. rewrite leb_zero, leb_spec. apply SFleb_refl_nonneg. Qed.

Lemma leb_trans_nonneg x y z :
  (0 <=? x)%float = true -> (0 <=? y)%float = true -> (0 <=? z)%float = true ->
  (x <=? y)%float = true -> (y <=? z)%float = true -> (x <=? z)%float = true.
Proof. rewrite !leb_zero, !leb_spec. apply SFleb_trans_nonneg. Qed.

Lemma wrap32_sub_pos temp old :
  0 <= temp < 2 ^ 32 -> 0 <= old < 2 ^ 32 ->
  backward_guard temp old = false ->
  0 < wrap32 (temp - old) < 2 ^ 32 /\
  (old < temp -> wrap32 (temp - old) = temp - old) /\
  (temp < old -> wrap32 (temp - old) = temp + 2 ^ 32 - old /\
                 wrap32 (temp - old) <= 2 ^ 32 - 2 ^ 28).
Proof.
  intros Ht Ho G. unfold backward_guard in G.
  apply andb_false_iff in G.
  assert (Hcase : old < temp \/ (temp <= old /\ 268435456 <= old - temp)).
  { destruct G as [G|G].
    - apply Z.leb_gt in G. lia.
    - apply Z.ltb_ge in G. destruct (Z.le_gt_cases temp old) as [Hle|Hgt]; [|lia].
      right. split; [assumption|]. rewrite wrap32_small in G by lia. exact G. }
  change (2 ^ 28) with 268435456. change (2 ^ 32) with 4294967296 in *.
  unfold wrap32. change (2 ^ 32) with 4294967296.
  destruct Hcase as [Hc|[Hc1 Hc2]].
  - rewrite Z.mod_small by lia. lia.
  - assert (E : (temp - old) mod 4294967296 = temp + 4294967296 - old).
    { symmetry. apply Z.mod_unique with (-1); lia. }
    rewrite E. lia.
Qed.

(** One call on the primary path keeps [timers_ok] and returns the new
    [curtime], which is at or above the old one. *)
Lemma Sys_DoubleTime_step s env :
  timers_ok s ->
  timers_ok (snd (Sys_DoubleTime s env)) /\
  fst (Sys_DoubleTime s env) = curtime (snd (Sys_DoubleTime s env)) /\
  (curtime s <=? fst (Sys_DoubleTime s env))%float = true.
Proof.
  intros (Hf & Hc & Hp & Ho). unfold Sys_DoubleTime. rewrite Hf.
  pose proof (shifted_count_range (timer_lowshift s) (QueryPerformanceCounter env)) as Ht.
  set (temp := shifted_count _ _) in *.
  destruct (backward_guard temp (timer_oldtime s)) eqn:G.
  - unfold timers_ok; simpl. repeat split; auto using leb_refl_nonneg; lia.
  - destruct (wrap32_sub_pos temp (timer_oldtime s) Ht Ho G) as [Ht2 _].
    set (t2 := wrap32 (temp - timer_oldtime s)) in *.
    assert (Htime : (0 <=? double_of_uint t2 * timer_pfreq s)%float = true).
    { apply mul_nonneg; [|exact Hp]. apply double_of_uint_finite.
      change (2 ^ 32) with 4294967296 in Ht2. change (2 ^ 63) with 9223372036854775808. lia. }
    destruct (add_nonneg_le (curtime s) _ Hc Htime) as [Hle Hnn].
    set (cur := (curtime s + double_of_uint t2 * timer_pfreq s)%float) in *.
    assert (H1 : (0 <=? 1)%float = true) by reflexivity.
    destruct (add_nonneg_le cur 1 Hnn H1) as [Hle1 Hnn1].
    destruct (cur =? lastcurtime s)%float; [destruct (100000 <? sametimecount s + 1)|];
      unfold timers_ok; simpl; repeat split; auto; try lia.
    apply (leb_trans_nonneg _ cur); assumption.
Qed.

Lemma run_nondecreasing envs : forall s, timers_ok s ->
  nondecreasing (curtime s :: fst (run s envs)) = true /\
  timers_ok (snd (run s envs)).
Proof.
  induction envs as [|env envs IH]; intros s Hs.
  - simpl. auto.
  - cbn [run].
    destruct (Sys_DoubleTime_step s env Hs) as (Hok & Hv & Hle).
    destruct (Sys_DoubleTime s env) as [v s']. simpl in Hok, Hv, Hle.
    destruct (IH s' Hok) as [Hnd Hok'].
    destruct (run s' envs) as [vs s'']. simpl in Hnd, Hok' |- *.
    split; [|exact Hok'].
    rewrite Hle. rewrite Hv. exact Hnd.
Qed.

(** *** [Sys_InitTimers] from program start *)

Lemma Sys_InitTimers_spec s f env :
  let V := wrap32 (HighPart f) * 2 ^ 32 + wrap32 (LowPart f) in
  exists k, 0 <= k <= 64 /\
    V / 2 ^ k <= 2000000 /\
    (forall i, 0 <= i < k -> 2000000 < V / 2 ^ i) /\
    Sys_InitTimers s (Some f) env =
      Some {| timer_pfreq := (1 / double_of_uint (V / 2 ^ k))%float;
              timer_lowshift := k;
              timer_oldtime := shifted_count k (QueryPerformanceCounter env);
              timer_fallback := timer_fallback s;
              timer_fallback_start := timer_fallback_start s;
              curtime := curtime s;
              lastcurtime := lastcurtime s;
              sametimecount := sametimecount s |}.
Proof.
  intros V.
  pose proof (wrap32_range (HighPart f)) as HH.
  pose proof (wrap32_range (LowPart f)) as HL.
  assert (HV : V < 2 ^ Z.of_nat 64).
  { unfold V. change (2 ^ Z.of_nat 64) with 18446744073709551616.
    change (2 ^ 32) with 4294967296 in *. lia. }
  destruct (lowshift_loop_spec 64 0 (wrap32 (LowPart f)) (wrap32 (HighPart f))
              HL (proj1 HH) HV) as [j [Hj [Hr [Hle Hmin]]]].
  exists j. fold V in Hr, Hle, Hmin. repeat split; try lia; try assumption.
  unfold Sys_InitTimers, Sys_InitTimers_fuel. rewrite Hr. reflexivity.
Qed.

Lemma Sys_InitTimers_total s freq env :
  exists s', Sys_InitTimers s freq env = Some s' /\
    sametimecount s' = sametimecount s /\
    curtime s' = curtime s /\
    timer_fallback s' = (match freq with None => true | Some _ => timer_fallback s end) /\
    (freq <> None -> (0 <=? timer_pfreq s')%float = true /\ 0 <= timer_oldtime s' < 2 ^ 32).
Proof.
  destruct freq as [f|].
  - destruct (Sys_InitTimers_spec s f env) as [k [_ [_ [_ E]]]].
    eexists. split; [exact E|]. simpl.
    split; [reflexivity|]. split; [reflexivity|]. split; [reflexivity|].
    intros _. split; [apply one_div_uint_nonneg|apply shifted_count_range].
  - eexists. split; [reflexivity|]. simpl.
    split; [reflexivity|]. split; [reflexivity|]. split; [reflexivity|].
    intros H. now contradiction H.
Qed.

Lemma Sys_DoubleTime_guarded s env :
  timer_fallback s = false ->
  backward_guard (shifted_count (timer_lowshift s) (QueryPerformanceCounter env))
                 (timer_oldtime s) = true ->
  Sys_DoubleTime s env
  = (curtime s,
     set_oldtime s (shifted_count (timer_lowshift s) (QueryPerformanceCounter env))).
Proof.
  intros Hf G. unfold Sys_DoubleTime, set_oldtime. rewrite Hf. cbv zeta.
  rewrite G. reflexivity.
Qed.

Lemma Sys_DoubleTime_fields s env :
  timer_fallback s = false ->
  let r := Sys_DoubleTime s env in
  timer_fallback (snd r) = false /\
  timer_lowshift (snd r) = timer_lowshift s /\
  timer_oldtime (snd r)
    = shifted_count (timer_lowshift s) (QueryPerformanceCounter env) /\
  curtime (snd r) = fst r.
Proof.
  intros Hf. unfold Sys_DoubleTime. rewrite Hf.
  destruct (backward_guard _ _); [simpl; auto|].
  destruct (_ =? _)%float; [destruct (100000 <? _)|]; simpl; auto.
Qed.

Lemma sametimecount_step s env :
  0 <= sametimecount s <= 100000 ->
  0 <= sametimecount (snd (Sys_DoubleTime s env)) <= 100000.
Proof.
  intros H. unfold Sys_DoubleTime.
  destruct (timer_fallback s).
  - destruct (_ <? _); exact H.
  - destruct (backward_guard _ _); [exact H|].
    destruct (_ =? _)%float; [|simpl; lia].
    destruct (100000 <? sametimecount s + 1) eqn:E; simpl; [lia|].
    apply Z.ltb_ge in E. lia.
Qed.

Lemma sametimecount_run envs : forall s,
  0 <= sametimecount s <= 100000 ->
  0 <= sametimecount (snd (run s envs)) <= 100000.
Proof.
  induction envs as [|env envs IH]; intros s H; [exact H|].
  cbn [run]. pose proof (sametimecount_step s env H) as H1.
  destruct (Sys_DoubleTime s env) as [v s']. simpl in H1.
  specialize (IH s' H1). destruct (run s' envs) as [vs s'']. exact IH.
Qed.


(** *** Fallback mode and runs of calls *)

Lemma Sys_DoubleTime_fallback s env :
  timer_fallback s = true ->
  snd (Sys_DoubleTime s env) = s /\
  (0 <=? fst (Sys_DoubleTime s env))%float = true.
Proof.
  intros Hf. unfold Sys_DoubleTime. rewrite Hf. cbv zeta.
  destruct (_ <? _); cbn [fst snd]; (split; [reflexivity|]);
    apply uint_div_nonneg; reflexivity.
Qed.

Lemma run_fallback envs : forall s, timer_fallback s = true ->
  snd (run s envs) = s /\ all_nonneg (fst (run s envs)) = true.
Proof.
  induction envs as [|env envs IH]; intros s Hf; [simpl; auto|].
  cbn [run]. destruct (Sys_DoubleTime_fallback s env Hf) as [Es Hv].
  destruct (Sys_DoubleTime s env) as [v s']. simpl in Es, Hv. subst s'.
  destruct (IH s Hf) as [Es Hvs]. destruct (run s envs) as [vs s''].
  simpl in Es, Hvs |- *. rewrite Hv, Hvs. auto.
Qed.

Lemma run_primary_nonneg envs : forall s, timers_ok s ->
  all_nonneg (fst (run s envs)) = true.
Proof.
  induction envs as [|env envs IH]; intros s Hok; [reflexivity|].
  cbn [run]. destruct (Sys_DoubleTime_step s env Hok) as (Hok' & Hv & _).
  destruct (Sys_DoubleTime s env) as [v s']. simpl in Hok', Hv.
  specialize (IH s' Hok'). destruct (run s' envs) as [vs s''].
  simpl in IH |- *. rewrite IH, Hv. destruct Hok' as (_ & Hc & _). now rewrite Hc.
Qed.

(** *** Binary64: results that are not a NaN *)

Lemma SFsigned_number s x : SFsigned s x = true -> SFnumber x = true.
Proof. now destruct x. Qed.

Lemma binary_round_aux_number s M e l : 0 <= M ->
  SFnumber (binary_round_aux prec emax s M e l) = true.
Proof. intros HM. now apply (SFsigned_number s), binary_round_aux_signed. Qed.

Lemma binary_normalize_number m e :
  SFnumber (binary_normalize prec emax m e false) = true.
Proof.
  destruct m as [|p|p]; [reflexivity| |]; unfold binary_normalize, binary_round;
    destruct (shl_align _ _ _) as [mz ez]; apply binary_round_aux_number; lia.
Qed.

Lemma of_uint63_real n : SFreal (Prim2SF (of_uint63 n)) = true.
Proof.
  rewrite of_uint63_spec.
  pose proof (Uint63.to_Z_bounded n) as Hn.
  pose proof (binary_normalize_plus (Uint63.to_Z n) (proj1 Hn)) as Hp.
  destruct (Uint63.to_Z n) as [|p|p] eqn:E; try lia; [reflexivity|].
  unfold binary_normalize in *.
  pose proof (binary_round_no_overflow false p 0) as Hno.
  destruct (binary_round prec emax false p 0) as [[]|[]| |[] m e];
    try discriminate Hp; try reflexivity.
  exfalso. apply Hno; [|lia|reflexivity].
  assert (Zpos (digits2_pos p) <= 63); [|lia].
  apply (Zdigits2_upper (Zpos p) 63); [lia|]. change wB with (2 ^ 63) in Hn. lia.
Qed.

Lemma double_of_long_real n : SFreal (Prim2SF (double_of_long n)) = true.
Proof.
  unfold double_of_long. destruct (n =? - 2 ^ 63); [reflexivity|].
  destruct (n <? 0); [|apply of_uint63_real].
  rewrite opp_spec. pose proof (of_uint63_real (of_Z (- n))) as H.
  now destruct (Prim2SF (of_uint63 (of_Z (- n)))).
Qed.

Lemma SFdiv_number x y :
  SFreal x = true -> SFfinite y = true -> SFnumber (SF64div x y) = true.
Proof.
  destruct x as [sx|sx| |sx mx ex]; try discriminate;
  destruct y as [sy|sy| |sy my ey]; try discriminate; intros _ _; [reflexivity|].
  unfold SF64div, SFdiv. pose proof (SFdiv_core_nonneg mx ex my ey) as Hq.
  destruct (SFdiv_core_binary prec emax (Zpos mx) ex (Zpos my) ey) as [[q e'] l].
  apply binary_round_aux_number. exact Hq.
Qed.

Lemma SFadd_number x y :
  SFreal x = true -> SFnumber y = true -> SFnumber (SF64add x y) = true.
Proof.
  destruct x as [sx|sx| |sx mx ex]; try discriminate;
  destruct y as [sy|sy| |sy my ey]; try discriminate; intros _ _;
    try reflexivity.
  - now destruct sx, sy.
  - unfold SF64add, SFadd. apply binary_normalize_number.
Qed.

Lemma SFeqb_number x : SFnumber x = true -> SFeqb x x = true.
Proof.
  destruct x as [s|[]| |[] m e]; try discriminate; intros _; try reflexivity;
    unfold SFeqb, SFcompare; now rewrite Z.compare_refl, Pos.compare_cont_refl.
Qed.

Lemma libretro_value_number secbase tp :
  SFnumber (Prim2SF (fst (SysLibretro.Sys_DoubleTime secbase tp))) = true.
Proof.
  unfold SysLibretro.Sys_DoubleTime.
  assert (Hd : forall n, SFnumber (Prim2SF (double_of_long n / 1000000)) = true).
  { intros n. rewrite div_spec. apply SFdiv_number;
      [apply double_of_long_real|reflexivity]. }
  destruct (secbase =? 0); cbn [fst]; [apply Hd|].
  rewrite add_spec. apply SFadd_number; [apply double_of_long_real|apply Hd].
Qed.

(** *** Binary64: exact conversions and the error of one rounding *)

(** A canonical mantissa with an exact location goes through
    [binary_round_aux] unchanged. *)
Lemma binary_round_aux_exact s m e :
  fexp64 (Zpos (digits2_pos m) + e) = e -> e <= 971 ->
  binary_round_aux prec emax s (Zpos m) e loc_Exact = S754_finite s m e.
Proof.
  intros Hc He. unfold binary_round_aux, shr_fexp.
  change (SpecFloat.fexp prec emax) with fexp64.
  cbn [Zdigits2 shr_record_of_loc]. rewrite Hc, Z.sub_diag.
  cbn [shr shr_m loc_of_shr_record round_nearest_even Zdigits2].
  rewrite Hc, Z.sub_diag. cbn [shr shr_m].
  apply Z.leb_le in He. change (emax - prec) with 971. now rewrite He.
Qed.

(** Conversion of an integer below 2^53 is exact. *)
Lemma binary_round_exact p :
  Zpos (digits2_pos p) <= 53 ->
  exists m, binary_round prec emax false p 0
            = S754_finite false m (Zpos (digits2_pos p) - 53) /\
    Zpos m = Zpos p * 2 ^ (53 - Zpos (digits2_pos p)) /\
    Zdigits2 (Zpos m) = 53.
Proof.
  intros Hd. unfold binary_round.
  destruct (shl_align_spec p 0 (SpecFloat.fexp prec emax (Zpos (digits2_pos p) + 0)))
    as [Hm He].
  destruct (shl_align p 0 (SpecFloat.fexp prec emax (Zpos (digits2_pos p) + 0)))
    as [mz ez].
  cbn [fst snd] in Hm, He. change (SpecFloat.fexp prec emax) with fexp64 in *.
  assert (Ek : Z.max (0 - fexp64 (Zpos (digits2_pos p) + 0)) 0
               = 53 - Zpos (digits2_pos p)) by (unfold fexp64; lia).
  rewrite Ek in Hm, He.
  assert (Hdz : Zdigits2 (Zpos mz) = 53).
  { rewrite Hm, Zdigits2_shift by lia. cbn [Zdigits2]. lia. }
  exists mz. split; [|split; assumption].
  replace (Zpos (digits2_pos p) - 53) with ez by lia.
  apply binary_round_aux_exact; [|lia].
  cbn [Zdigits2] in Hdz. rewrite Hdz. unfold fexp64. lia.
Qed.

Lemma double_of_uint_exact u : 0 < u < 2 ^ 53 ->
  exists m, Prim2SF (double_of_uint u) = S754_finite false m (Zdigits2 u - 53) /\
    Zpos m = u * 2 ^ (53 - Zdigits2 u) /\ Zdigits2 (Zpos m) = 53.
Proof.
  intros Hu. unfold double_of_uint. rewrite of_uint63_spec, to_Z_of_Z.
  2:{ split; [lia|]. eapply Z.lt_le_trans; [apply Hu|]. apply Z.pow_le_mono_r; lia. }
  destruct u as [|p|p]; try lia. cbn [binary_normalize Zdigits2].
  apply binary_round_exact. apply (Zdigits2_upper (Zpos p) 53); lia.
Qed.

(** In the normal range rounding keeps 53 digits: the result lies, with the
    rounded value, between two neighbouring multiples of [2^n]. *)
Lemma binary_round_aux_bracket M e l :
  0 < M -> 53 <= Zdigits2 M ->
  -1074 <= Zdigits2 M + e - 53 -> Zdigits2 M + e <= 1023 ->
  let n := Zdigits2 M - 53 in
  exists m3 e3 m1,
    binary_round_aux prec emax false M e l = S754_finite false m3 e3 /\
    e + n <= e3 <= e + n + 1 /\
    2 ^ 52 <= Zpos m3 < 2 ^ 53 /\
    2 ^ 52 <= m1 /\
    m1 * 2 ^ n <= M < (m1 + 1) * 2 ^ n /\
    m1 * 2 ^ n <= Zpos m3 * 2 ^ (e3 - e) <= (m1 + 1) * 2 ^ n.
Proof.
  intros HM Hd Hlo Hhi n.
  destruct (binary_round_aux_spec false M e l (Z.lt_le_incl _ _ HM)) as [m2 [Hm2 Hr]].
  cbv zeta in Hr.
  assert (En1 : Z.max (fexp64 (Zdigits2 M + e) - e) 0 = n) by (unfold fexp64, n; lia).
  rewrite En1 in Hr, Hm2.
  assert (Hn : 0 <= n) by (unfold n; lia).
  assert (Hp : 0 < 2 ^ n) by (apply Z.pow_pos_nonneg; lia).
  set (m1 := M / 2 ^ n) in *.
  assert (Hm1lo : 2 ^ 52 <= m1) by (apply div_pow2_digits_lower; auto).
  assert (Hm1hi : m1 < 2 ^ 53) by (apply div_pow2_upper; auto; unfold n; lia).
  assert (HbrL : m1 * 2 ^ n <= M).
  { rewrite Z.mul_comm. apply Z.mul_div_le. exact Hp. }
  assert (HbrU : M < (m1 + 1) * 2 ^ n).
  { rewrite Z.mul_comm. apply Z.mul_succ_div_gt. exact Hp. }
  assert (Hm2p : 0 < m2) by lia.
  assert (He1 : -1074 <= e + n) by (unfold n; lia).
  destruct (second_shift m2 (e + n) Hm2p He1) as [Hm3 Hn2].
  cbv zeta in Hm3, Hn2.
  set (n2 := Z.max (fexp64 (Zdigits2 m2 + (e + n)) - (e + n)) 0) in *.
  destruct (Zdigits2_bounds m2 Hm2p) as [Hd2a [Hd2b Hd2c]].
  assert (Hd2 : Zdigits2 m2 <= 54).
  { apply Zdigits2_upper; [lia|]. change (2 ^ 54) with (2 * 2 ^ 53). lia. }
  assert (Hle : e + n + n2 <= 971) by (unfold n2, fexp64, n in *; lia).
  destruct Hn2 as [E0|[E1 Hpos]].
  - (* no second shift *)
    rewrite E0, Z.div_1_r in Hr, Hm3.
    assert (Hd53 : Zdigits2 m2 <= 53) by (unfold n2, fexp64 in E0; lia).
    assert (Hm2hi : m2 < 2 ^ 53).
    { eapply Z.lt_le_trans; [exact Hd2c|]. apply Z.pow_le_mono_r; lia. }
    destruct m2 as [|m3|m3]; try lia.
    rewrite E0, Z.add_0_r in Hle. apply Z.leb_le in Hle.
    rewrite Z.add_0_r in Hr. rewrite Hle in Hr.
    exists m3, (e + n), m1. split; [exact Hr|].
    replace (e + n - e) with n by lia.
    repeat split; try lia; apply Z.mul_le_mono_nonneg_r; lia.
  - (* the mantissa reached 2^53 *)
    assert (E54 : Zdigits2 m2 = 54) by lia.
    assert (En2 : n2 = 1) by lia.
    assert (Em2 : m2 = 2 ^ 53).
    { rewrite E54 in Hd2b. change (54 - 1) with 53 in Hd2b. lia. }
    rewrite En2, Em2 in Hr. change (2 ^ 53 / 2 ^ 1) with (2 ^ 52) in Hr.
    change (2 ^ 52) with (Zpos (2 ^ 52)%positive) in Hr. cbv iota in Hr.
    rewrite En2 in Hle. apply Z.leb_le in Hle. rewrite Hle in Hr.
    exists (2 ^ 52)%positive, (e + n + 1), m1. split; [exact Hr|].
    replace (e + n + 1 - e) with (n + 1) by lia.
    rewrite Z.pow_add_r by lia.
    change (Zpos (2 ^ 52)%positive) with (2 ^ 52). change (2 ^ 1) with 2.
    assert (Em1 : m1 + 1 = 2 ^ 53) by lia.
    rewrite Em1.
    change (2 ^ 53) with 9007199254740992 in *. change (2 ^ 52) with 4503599627370496 in *.
    repeat split; try lia; nia.
Qed.

(** *** Binary64: the reciprocal and the product *)

Lemma Prim2SF_one : Prim2SF 1 = S754_finite false 4503599627370496 (-52).
Proof. reflexivity. Qed.

Lemma digits53_bounds m : Zdigits2 (Zpos m) = 53 -> 2 ^ 52 <= Zpos m < 2 ^ 53.
Proof.
  intros H. destruct (Zdigits2_bounds (Zpos m)) as [_ B]; [lia|].
  rewrite H in B. exact B.
Qed.

Lemma SFdiv_core_one mf ef :
  Zdigits2 (Zpos mf) = 53 -> -52 <= ef <= 0 ->
  SFdiv_core_binary prec emax 4503599627370496 (-52) (Zpos mf) ef
  = (2 ^ 105 / Zpos mf, -105 - ef, new_location (Zpos mf) (2 ^ 105 mod Zpos mf)).
Proof.
  intros Hd He. unfold SFdiv_core_binary. cbv zeta.
  change (SpecFloat.fexp prec emax) with fexp64.
  rewrite Hd. change (Zdigits2 4503599627370496) with 53.
  replace (Z.min (fexp64 (53 + -52 - (53 + ef))) (-52 - ef)) with (-105 - ef)
    by (unfold fexp64; lia).
  replace (-52 - ef - (-105 - ef)) with 53 by lia.
  cbv iota. change (Z.shiftl 4503599627370496 53) with (2 ^ 105).
  unfold Z.div, Z.modulo. destruct (Z.div_eucl (2 ^ 105) (Zpos mf)). reflexivity.
Qed.

(** [1.0 / x] for a normal [x = mf * 2^ef]: the quotient [mp * 2^ep]
    times [x] is within [2^-52] of one. *)
Lemma SFdiv_one mf ef :
  Zdigits2 (Zpos mf) = 53 -> -52 <= ef <= 0 ->
  exists mp ep,
    SF64div (Prim2SF 1) (S754_finite false mf ef) = S754_finite false mp ep /\
    2 ^ 52 <= Zpos mp < 2 ^ 53 /\
    -105 - ef <= ep <= -103 - ef /\
    Z.abs (Zpos mp * 2 ^ (ep + 105 + ef) * Zpos mf - 2 ^ 105) <= 2 ^ 53.
Proof.
  intros Hd He. rewrite Prim2SF_one. unfold SF64div, SFdiv.
  rewrite SFdiv_core_one by assumption. cbn [xorb].
  destruct (digits53_bounds mf Hd) as [Hflo Hfhi].
  set (q := 2 ^ 105 / Zpos mf).
  assert (Hq1 : q * Zpos mf <= 2 ^ 105).
  { unfold q. rewrite Z.mul_comm. apply Z.mul_div_le. lia. }
  assert (Hq2 : 2 ^ 105 < (q + 1) * Zpos mf).
  { unfold q. rewrite Z.mul_comm. apply Z.mul_succ_div_gt. lia. }
  assert (Hqlo : 2 ^ 52 <= q).
  { unfold q. apply Z.div_le_lower_bound; [lia|].
    change (2 ^ 105) with (2 ^ 53 * 2 ^ 52).
    apply Z.mul_le_mono_nonneg_r; lia. }
  assert (Hqhi : q < 2 ^ 54).
  { unfold q. apply Z.div_lt_upper_bound; [lia|].
    change (2 ^ 105) with (2 ^ 52 * 2 ^ 53).
    change (2 ^ 54) with (2 * 2 ^ 53).
    change (2 ^ 52) with 4503599627370496 in *.
    change (2 ^ 53) with 9007199254740992 in *. nia. }
  assert (Hq0 : 0 < q) by lia.
  assert (Hdq : 53 <= Zdigits2 q <= 54).
  { split; [apply (Zdigits2_lower q 52); assumption|apply Zdigits2_upper; assumption]. }
  destruct (binary_round_aux_bracket q (-105 - ef)
              (new_location (Zpos mf) (2 ^ 105 mod Zpos mf)) Hq0)
    as (mp & ep & m1 & Hr & Hep & Hmp & Hm1 & Hbr & HR); try lia.
  cbv zeta in Hep, Hbr, HR.
  set (n := Zdigits2 q - 53) in *.
  exists mp, ep. split; [exact Hr|]. split; [exact Hmp|]. split; [lia|].
  replace (ep + 105 + ef) with (ep - (-105 - ef)) by lia.
  set (R := Zpos mp * 2 ^ (ep - (-105 - ef))) in *.
  assert (Hpn : 0 < 2 ^ n) by (apply Z.pow_pos_nonneg; unfold n; lia).
  set (T := 2 ^ n * Zpos mf).
  assert (HT1 : m1 * T <= 2 ^ 105).
  { unfold T. rewrite Z.mul_assoc. eapply Z.le_trans; [|exact Hq1].
    apply Z.mul_le_mono_nonneg_r; lia. }
  assert (HT2 : 2 ^ 105 < (m1 + 1) * T).
  { unfold T. rewrite Z.mul_assoc. eapply Z.lt_le_trans; [exact Hq2|].
    apply Z.mul_le_mono_nonneg_r; lia. }
  assert (HT3 : m1 * T <= R * Zpos mf <= (m1 + 1) * T).
  { unfold T. rewrite !Z.mul_assoc. split; apply Z.mul_le_mono_nonneg_r; lia. }
  assert (HT4 : 2 ^ 52 * T <= m1 * T).
  { apply Z.mul_le_mono_nonneg_r; [unfold T|]; lia. }
  change (2 ^ 105) with (2 ^ 52 * 2 ^ 53) in *.
  change (2 ^ 52) with 4503599627370496 in *.
  change (2 ^ 53) with 9007199254740992 in *.
  lia.
Qed.

(** The product of two normal floats: the rounded mantissa, rescaled to
    the exponent of the exact product, is within [2^-52] of it. *)
Lemma SFmul_normal md ed mp ep :
  Zdigits2 (Zpos md) = 53 -> Zdigits2 (Zpos mp) = 53 ->
  -1074 <= ed + ep + 52 -> ed + ep + 106 <= 1023 ->
  exists mv ev,
    SF64mul (S754_finite false md ed) (S754_finite false mp ep)
      = S754_finite false mv ev /\
    ed + ep + 52 <= ev <= ed + ep + 54 /\
    2 ^ 52 * Z.abs (Zpos mv * 2 ^ (ev - ed - ep) - Zpos md * Zpos mp)
      <= Zpos md * Zpos mp.
Proof.
  intros Hd Hp Hlo Hhi. unfold SF64mul, SFmul. cbn [xorb].
  destruct (digits53_bounds md Hd) as [Hdlo Hdhi].
  destruct (digits53_bounds mp Hp) as [Hplo Hphi].
  rewrite Pos2Z.inj_mul.
  set (M := Zpos md * Zpos mp).
  assert (HMlo : 2 ^ 104 <= M).
  { unfold M. change (2 ^ 104) with (2 ^ 52 * 2 ^ 52).
    apply Z.mul_le_mono_nonneg; lia. }
  assert (HMhi : M < 2 ^ 106).
  { unfold M. change (2 ^ 106) with (2 ^ 53 * 2 ^ 53).
    apply Z.mul_lt_mono_nonneg; lia. }
  assert (HM0 : 0 < M) by lia.
  assert (HdM : 105 <= Zdigits2 M <= 106).
  { split; [apply (Zdigits2_lower M 104); assumption|apply Zdigits2_upper; assumption]. }
  destruct (binary_round_aux_bracket M (ed + ep) loc_Exact HM0)
    as (mv & ev & m1 & Hr & Hev & Hmv & Hm1 & Hbr & HR); try lia.
  cbv zeta in Hev, Hbr, HR.
  set (n := Zdigits2 M - 53) in *.
  exists mv, ev. split; [exact Hr|]. split; [unfold n in Hev; lia|].
  replace (ev - ed - ep) with (ev - (ed + ep)) by lia.
  set (R := Zpos mv * 2 ^ (ev - (ed + ep))) in *.
  assert (Hpn : 0 < 2 ^ n) by (apply Z.pow_pos_nonneg; unfold n; lia).
  assert (H52 : 2 ^ 52 * 2 ^ n <= m1 * 2 ^ n).
  { apply Z.mul_le_mono_nonneg_r; lia. }
  assert (Habs : Z.abs (R - M) <= 2 ^ n) by lia.
  assert (2 ^ 52 * Z.abs (R - M) <= 2 ^ 52 * 2 ^ n).
  { apply Z.mul_le_mono_nonneg_l; lia. }
  lia.
Qed.

(** *** The accuracy of the seconds added *)

(** Two relative errors of [2^-52] compose to less than [2^-50]. *)
Lemma compose_errors M Rv G :
  0 <= M ->
  2 ^ 52 * Z.abs (Rv - M) <= M ->
  Z.abs (G - 2 ^ 105) <= 2 ^ 53 ->
  2 ^ 50 * Z.abs (Rv * G - M * 2 ^ 105) <= M * 2 ^ 105.
Proof.
  intros HM Hx Hy.
  set (x := Rv - M) in *. set (y := G - 2 ^ 105) in *.
  replace (Rv * G - M * 2 ^ 105) with (M * y + x * 2 ^ 105 + x * y)
    by (unfold x, y; ring).
  assert (P1 : Z.abs (M * y) <= M * 2 ^ 53).
  { rewrite Z.abs_mul, (Z.abs_eq M) by lia. apply Z.mul_le_mono_nonneg_l; lia. }
  assert (P2 : 2 ^ 52 * Z.abs (x * y) <= M * 2 ^ 53).
  { rewrite Z.abs_mul, Z.mul_assoc. apply Z.mul_le_mono_nonneg; lia. }
  assert (P3 : 2 ^ 52 * Z.abs (x * 2 ^ 105) <= M * 2 ^ 105).
  { rewrite Z.abs_mul, Z.mul_assoc, (Z.abs_eq (2 ^ 105)) by lia.
    apply Z.mul_le_mono_nonneg_r; lia. }
  pose proof (Z.abs_triangle (M * y + x * 2 ^ 105) (x * y)) as T1.
  pose proof (Z.abs_triangle (M * y) (x * 2 ^ 105)) as T2.
  change (2 ^ 105) with (2 ^ 52 * 2 ^ 53) in *.
  change (2 ^ 52) with (4 * 2 ^ 50) in *.
  change (2 ^ 53) with 9007199254740992 in *.
  change (2 ^ 50) with 1125899906842624 in *.
  lia.
Qed.

(** The seconds [Sys_DoubleTime] adds for a delta of [d] shifted ticks at
    [f] shifted ticks per second, [(double)d * (1.0 / (double)f)], are a
    finite double [mv * 2^ev] within a relative [2^-50] of [d / f]. *)
Lemma delta_seconds_accurate d f :
  0 < d < 2 ^ 32 -> 0 < f < 2 ^ 53 ->
  exists mv ev,
    Prim2SF (double_of_uint d * (1 / double_of_uint f))
      = S754_finite false mv ev /\
    ev <= 0 /\
    2 ^ 50 * Z.abs (Zpos mv * f - d * 2 ^ (- ev)) <= d * 2 ^ (- ev).
Proof.
  intros Hd Hf.
  assert (Hd53 : 0 < d < 2 ^ 53).
  { split; [lia|]. eapply Z.lt_le_trans; [apply Hd|]. apply Z.pow_le_mono_r; lia. }
  destruct (double_of_uint_exact d Hd53) as (md & HDd & Emd & Hmd).
  destruct (double_of_uint_exact f Hf) as (mf & HDf & Emf & Hmf).
  assert (Hdd : 1 <= Zdigits2 d <= 32).
  { split; [apply (Zdigits2_bounds d); lia|apply Zdigits2_upper; lia]. }
  assert (Hdf : 1 <= Zdigits2 f <= 53).
  { split; [apply (Zdigits2_bounds f); lia|apply Zdigits2_upper; lia]. }
  set (ed := Zdigits2 d - 53) in *. set (ef := Zdigits2 f - 53) in *.
  rewrite mul_spec, div_spec, HDd, HDf.
  destruct (SFdiv_one mf ef Hmf) as (mp & ep & Hdiv & Hmp & Hep & HG);
    [unfold ef; lia|].
  rewrite Hdiv.
  assert (Hmp53 : Zdigits2 (Zpos mp) = 53).
  { apply Z.le_antisymm; [apply Zdigits2_upper; lia|].
    apply (Zdigits2_lower (Zpos mp) 52); lia. }
  destruct (SFmul_normal md ed mp ep Hmd Hmp53) as (mv & ev & Hmul & Hev & HR);
    [unfold ed, ef in *; lia|unfold ed, ef in *; lia|].
  exists mv, ev. split; [exact Hmul|].
  assert (Hev0 : ev <= 0) by (unfold ed, ef in *; lia).
  split; [exact Hev0|].
  (* the powers of two in play *)
  set (a := ev - ed - ep) in *. set (b := ep + 105 + ef) in *.
  assert (Ha : 0 <= a) by (unfold a; lia).
  assert (Hb : 0 <= b) by (unfold b; lia).
  replace (53 - Zdigits2 d) with (- ed) in Emd by (unfold ed; lia).
  replace (53 - Zdigits2 f) with (- ef) in Emf by (unfold ef; lia).
  assert (Hpow : 2 ^ a * 2 ^ b * 2 ^ (- ef) * 2 ^ (- ev) = 2 ^ (- ed) * 2 ^ 105).
  { rewrite <- !Z.pow_add_r by (unfold ed, ef in *; lia). f_equal. unfold a, b. lia. }
  assert (Pa : 0 < 2 ^ a) by (apply Z.pow_pos_nonneg; lia).
  assert (Pb : 0 < 2 ^ b) by (apply Z.pow_pos_nonneg; lia).
  assert (Pc : 0 < 2 ^ (- ef)) by (apply Z.pow_pos_nonneg; unfold ef; lia).
  assert (Ph : 0 < 2 ^ (- ev)) by (apply Z.pow_pos_nonneg; lia).
  set (K := Zpos mp * (2 ^ a * 2 ^ b * 2 ^ (- ef))).
  assert (HK : 0 < K) by (unfold K; repeat apply Z.mul_pos_pos; lia).
  pose proof (compose_errors (Zpos md * Zpos mp) (Zpos mv * 2 ^ a)
                (Zpos mp * 2 ^ b * Zpos mf)) as I1.
  specialize (I1 ltac:(lia) HR HG).
  assert (E1 : Zpos mv * 2 ^ a * (Zpos mp * 2 ^ b * Zpos mf) = (Zpos mv * f) * K).
  { rewrite Emf. unfold K. ring. }
  assert (E2 : Zpos md * Zpos mp * 2 ^ 105 = (d * 2 ^ (- ev)) * K).
  { rewrite Emd. unfold K.
    transitivity (d * Zpos mp * (2 ^ (- ed) * 2 ^ 105)); [ring|].
    rewrite <- Hpow. ring. }
  rewrite E1, E2, <- Z.mul_sub_distr_r, Z.abs_mul, (Z.abs_eq K), Z.mul_assoc in I1 by lia.
  apply Z.mul_le_mono_pos_r in I1; assumption.
Qed.

(** *** The scale is kept by every call *)

Lemma Sys_DoubleTime_keeps_scale s env :
  timer_fallback s = false ->
  timer_pfreq (snd (Sys_DoubleTime s env)) = timer_pfreq s.
Proof.
  intros Hf. unfold Sys_DoubleTime. rewrite Hf. cbv zeta.
  destruct (backward_guard _ _); [reflexivity|].
  destruct (_ =? _)%float; [destruct (100000 <? _)|]; reflexivity.
Qed.

Lemma run_keeps_scale envs : forall s,
  timer_fallback s = false ->
  timer_fallback (snd (run s envs)) = false /\
  timer_lowshift (snd (run s envs)) = timer_lowshift s /\
  timer_pfreq (snd (run s envs)) = timer_pfreq s.
Proof.
  induction envs as [|env envs IH]; intros s Hf; [auto|].
  cbn [run].
  destruct (Sys_DoubleTime_fields s env Hf) as (Hf1 & Hl1 & _ & _).
  pose proof (Sys_DoubleTime_keeps_scale s env Hf) as Hp1.
  cbv zeta in Hf1, Hl1.
  destruct (Sys_DoubleTime s env) as [v s']. cbn [snd] in Hf1, Hl1, Hp1.
  destruct (IH s' Hf1) as (Hf2 & Hl2 & Hp2).
  destruct (run s' envs) as [vs s'']. cbn [snd] in *.
  rewrite Hl2, Hp2. auto.
Qed.

(** *** Binary64: quotients of integers by one divisor *)

Lemma SFdiv_core_normal mx ex my ey :
  Zdigits2 (Zpos mx) = 53 -> Zdigits2 (Zpos my) = 53 ->
  -1074 <= ex - ey - 53 ->
  SFdiv_core_binary prec emax (Zpos mx) ex (Zpos my) ey
  = (Zpos mx * 2 ^ 53 / Zpos my, ex - ey - 53,
     new_location (Zpos my) ((Zpos mx * 2 ^ 53) mod Zpos my)).
Proof.
  intros Hx Hy He. unfold SFdiv_core_binary. cbv zeta.
  change (SpecFloat.fexp prec emax) with fexp64.
  rewrite Hx, Hy.
  replace (Z.min (fexp64 (53 + ex - (53 + ey))) (ex - ey)) with (ex - ey - 53)
    by (unfold fexp64; lia).
  replace (ex - ey - (ex - ey - 53)) with 53 by lia.
  cbv iota. rewrite Z.shiftl_mul_pow2 by lia.
  unfold Z.div, Z.modulo. destruct (Z.div_eucl (Zpos mx * 2 ^ 53) (Zpos my)).
  reflexivity.
Qed.

(** The quotient of two normal floats, before it is rounded, has 53 or 54
    digits. *)
Lemma quotient_digits mx my :
  2 ^ 52 <= mx < 2 ^ 53 -> 2 ^ 52 <= my < 2 ^ 53 ->
  let q := mx * 2 ^ 53 / my in
  2 ^ 52 <= q < 2 ^ 54 /\ q * my <= mx * 2 ^ 53 < (q + 1) * my.
Proof.
  intros Hx Hy q.
  assert (Hq1 : q * my <= mx * 2 ^ 53).
  { pose proof (Z.mul_div_le (mx * 2 ^ 53) my ltac:(lia)) as H.
    fold q in H. lia. }
  assert (Hq2 : mx * 2 ^ 53 < (q + 1) * my).
  { pose proof (Z.mul_succ_div_gt (mx * 2 ^ 53) my ltac:(lia)) as H.
    fold q in H. unfold Z.succ in H. lia. }
  split; [|split; assumption]. split.
  - unfold q. apply Z.div_le_lower_bound; [lia|].
    change (2 ^ 52) with 4503599627370496 in *.
    change (2 ^ 53) with 9007199254740992 in *. nia.
  - unfold q. apply Z.div_lt_upper_bound; [lia|].
    change (2 ^ 54) with 18014398509481984.
    change (2 ^ 52) with 4503599627370496 in *.
    change (2 ^ 53) with 9007199254740992 in *. nia.
Qed.

(** Integers that differ by one or more stay apart through a division by
    the same normal float: the rounded quotient of the smaller one is at
    most that of the larger one. *)
Lemma SFdiv_uint_monotone t1 t2 m1 m2 my ey :
  0 < t1 -> t1 < t2 -> t2 < 2 ^ 32 ->
  Zpos m1 = t1 * 2 ^ (53 - Zdigits2 t1) -> Zdigits2 (Zpos m1) = 53 ->
  Zpos m2 = t2 * 2 ^ (53 - Zdigits2 t2) -> Zdigits2 (Zpos m2) = 53 ->
  Zdigits2 (Zpos my) = 53 -> -900 <= ey <= 900 ->
  SFleb (SF64div (S754_finite false m1 (Zdigits2 t1 - 53)) (S754_finite false my ey))
        (SF64div (S754_finite false m2 (Zdigits2 t2 - 53)) (S754_finite false my ey))
  = true.
Proof.
  intros Ht1 Hlt Ht2 Em1 Hm1 Em2 Hm2 Hmy Hey.
  assert (Hd1 : 1 <= Zdigits2 t1 <= 32).
  { split; [apply (Zdigits2_bounds t1); lia|apply Zdigits2_upper; lia]. }
  assert (Hd2 : 1 <= Zdigits2 t2 <= 32).
  { split; [apply (Zdigits2_bounds t2); lia|apply Zdigits2_upper; lia]. }
  set (d1 := Zdigits2 t1) in *. set (d2 := Zdigits2 t2) in *.
  pose proof (digits53_bounds m1 Hm1) as Bm1.
  pose proof (digits53_bounds m2 Hm2) as Bm2.
  pose proof (digits53_bounds my Hmy) as Bmy.
  unfold SF64div, SFdiv.
  rewrite !SFdiv_core_normal by (assumption || lia). cbn [xorb].
  destruct (quotient_digits (Zpos m1) (Zpos my) Bm1 Bmy) as [Bq1 Dq1].
  destruct (quotient_digits (Zpos m2) (Zpos my) Bm2 Bmy) as [Bq2 Dq2].
  cbv zeta in Bq1, Dq1, Bq2, Dq2.
  set (q1 := Zpos m1 * 2 ^ 53 / Zpos my) in *.
  set (q2 := Zpos m2 * 2 ^ 53 / Zpos my) in *.
  set (l1 := new_location _ (_ mod _)). set (l2 := new_location _ (_ mod _)).
  set (E1 := d1 - 53 - ey - 53). set (E2 := d2 - 53 - ey - 53).
  assert (Hdq1 : 53 <= Zdigits2 q1 <= 54).
  { split; [apply (Zdigits2_lower q1 52); lia|apply Zdigits2_upper; lia]. }
  destruct (binary_round_aux_bracket q1 E1 l1)
    as (mr & er & m & Hr & Her & Hmr & Hm & Hbr & HR); try (unfold E1; lia).
  cbv zeta in Her, Hbr, HR. set (n := Zdigits2 q1 - 53) in *.
  rewrite Hr.
  assert (Hmr53 : Zdigits2 (Zpos mr) = 53).
  { apply Z.le_antisymm; [apply Zdigits2_upper; lia|].
    apply (Zdigits2_lower (Zpos mr) 52); lia. }
  destruct (binary_round_aux_lower q2 E2 l2 (Zpos mr) er)
    as [Hinf|(m3 & e3 & Hr2 & Hord)].
  - lia.
  - lia.
  - rewrite Hmr53. unfold fexp64, E1 in *. lia.
  - (* the rounded first quotient lies below the second quotient *)
    apply (scaled_le_base (Zpos mr) er q2 E2 (-106 - ey));
      [unfold E1 in Her; lia|unfold E2; lia|].
    replace (E2 - (-106 - ey)) with d2 by (unfold E2; lia).
    replace (er - (-106 - ey)) with ((er - E1) + d1) by (unfold E1; lia).
    rewrite Z.pow_add_r, Z.mul_assoc by lia.
    set (R := Zpos mr * 2 ^ (er - E1)) in *.
    assert (PN : 0 < 2 ^ n) by (apply Z.pow_pos_nonneg; unfold n; lia).
    assert (P1 : 0 < 2 ^ d1) by (apply Z.pow_pos_nonneg; lia).
    assert (P2 : 0 < 2 ^ d2 <= 2 ^ 32).
    { split; [apply Z.pow_pos_nonneg; lia|apply Z.pow_le_mono_r; lia]. }
    assert (HRq : R <= q1 + 2 ^ n) by lia.
    assert (HNq : 2 ^ 52 * 2 ^ n <= q1).
    { eapply Z.le_trans; [|apply Hbr]. apply Z.mul_le_mono_nonneg_r; lia. }
    (* scale by the divisor and the powers of the digits *)
    assert (A1 : q1 * Zpos my * 2 ^ d1 <= t1 * 2 ^ 106).
    { assert (H1 : q1 * Zpos my * 2 ^ d1 <= Zpos m1 * 2 ^ 53 * 2 ^ d1).
      { apply Z.mul_le_mono_nonneg_r; lia. }
      replace (t1 * 2 ^ 106) with (Zpos m1 * 2 ^ 53 * 2 ^ d1); [exact H1|].
      rewrite Em1. replace 106 with ((53 - d1) + 53 + d1) by lia.
      rewrite !Z.pow_add_r by lia. ring. }
    assert (A2 : t2 * 2 ^ 106 < (q2 + 1) * Zpos my * 2 ^ d2).
    { assert (H2 : Zpos m2 * 2 ^ 53 * 2 ^ d2 < (q2 + 1) * Zpos my * 2 ^ d2).
      { apply Z.mul_lt_mono_pos_r; lia. }
      replace (t2 * 2 ^ 106) with (Zpos m2 * 2 ^ 53 * 2 ^ d2); [exact H2|].
      rewrite Em2. replace 106 with ((53 - d2) + 53 + d2) by lia.
      rewrite !Z.pow_add_r by lia. ring. }
    assert (A3 : 2 ^ 52 * (2 ^ n * Zpos my * 2 ^ d1) <= q1 * Zpos my * 2 ^ d1).
    { replace (2 ^ 52 * (2 ^ n * Zpos my * 2 ^ d1))
        with (2 ^ 52 * 2 ^ n * (Zpos my * 2 ^ d1)) by ring.
      replace (q1 * Zpos my * 2 ^ d1) with (q1 * (Zpos my * 2 ^ d1)) by ring.
      apply Z.mul_le_mono_nonneg_r; [|exact HNq].
      apply Z.mul_nonneg_nonneg; lia. }
    assert (A4 : Zpos my * 2 ^ d2 <= 2 ^ 53 * 2 ^ 32).
    { apply Z.mul_le_mono_nonneg; lia. }
    assert (A5 : R * 2 ^ d1 * Zpos my <= (q1 + 2 ^ n) * 2 ^ d1 * Zpos my).
    { apply Z.mul_le_mono_nonneg_r; [lia|].
      apply Z.mul_le_mono_nonneg_r; lia. }
    assert (Goal' : R * 2 ^ d1 * Zpos my < q2 * 2 ^ d2 * Zpos my).
    { set (X := q1 * Zpos my * 2 ^ d1) in *.
      set (Y := 2 ^ n * Zpos my * 2 ^ d1) in *.
      set (Z2 := Zpos my * 2 ^ d2) in *.
      replace ((q1 + 2 ^ n) * 2 ^ d1 * Zpos my) with (X + Y) in A5
        by (unfold X, Y; ring).
      replace ((q2 + 1) * Zpos my * 2 ^ d2) with (q2 * 2 ^ d2 * Zpos my + Z2) in A2
        by (unfold Z2; ring).
      change (2 ^ 106) with 81129638414606681695789005144064 in *.
      change (2 ^ 52) with 4503599627370496 in *.
      change (2 ^ 53) with 9007199254740992 in *.
      change (2 ^ 32) with 4294967296 in *.
      lia. }
    apply Z.mul_lt_mono_pos_r in Goal'; lia.
  - rewrite Hinf. reflexivity.
  - rewrite Hr2. apply SFleb_finite.
    destruct Hord as [Hlt'|[-> Hle]]; [left; exact Hlt'|right].
    split; [reflexivity|lia].
Qed.

(** *** Fallback mode before the counter wraps *)

(** Division of 32-bit integers by one normal float is monotone. *)
Lemma uint_div_monotone (c : float) my ey d1 d2 :
  Prim2SF c = S754_finite false my ey ->
  Zdigits2 (Zpos my) = 53 -> -900 <= ey <= 900 ->
  0 <= d1 -> d1 <= d2 -> d2 < 2 ^ 32 ->
  (double_of_uint d1 / c <=? double_of_uint d2 / c)%float = true.
Proof.
  intros Hc Hmy Hey H0 Hle Hhi.
  assert (Hfin : SFfinite_pos (Prim2SF c) = true) by now rewrite Hc.
  destruct (Z.eq_dec d1 d2) as [->|Hne].
  { now apply leb_refl_nonneg, uint_div_nonneg. }
  destruct (Z.eq_dec d1 0) as [->|Hpos].
  { pose proof (uint_div_nonneg d2 c Hfin) as Hnn.
    rewrite leb_zero in Hnn. rewrite leb_spec, (div_spec (double_of_uint 0)), Hc.
    change (Prim2SF (double_of_uint 0)) with (S754_zero false).
    cbn [SF64div SFdiv xorb]. now rewrite SFleb_zero. }
  assert (B53 : 2 ^ 32 < 2 ^ 53) by (apply Z.pow_lt_mono_r; lia).
  destruct (double_of_uint_exact d1) as (m1 & E1 & Em1 & Hm1); [lia|].
  destruct (double_of_uint_exact d2) as (m2 & E2 & Em2 & Hm2); [lia|].
  rewrite leb_spec, !div_spec, E1, E2, Hc.
  apply (SFdiv_uint_monotone d1 d2); try assumption; lia.
Qed.

(** Milliseconds to seconds is monotone. *)
Lemma milliseconds_monotone d1 d2 :
  0 <= d1 -> d1 <= d2 -> d2 < 2 ^ 32 ->
  (double_of_uint d1 / 1000 <=? double_of_uint d2 / 1000)%float = true.
Proof.
  apply (uint_div_monotone 1000 8796093022208000 (-43));
    [reflexivity|reflexivity|lia].
Qed.

Lemma Sys_DoubleTime_fallback_value s env :
  timer_fallback s = true ->
  timer_fallback_start s <= timeGetTime env < 2 ^ 32 ->
  0 <= timer_fallback_start s ->
  Sys_DoubleTime s env
  = ((double_of_uint (timeGetTime env - timer_fallback_start s) / 1000)%float, s).
Proof.
  intros Hf Ht H0. unfold Sys_DoubleTime. rewrite Hf. cbv zeta.
  rewrite (wrap32_small (timeGetTime env)) by lia.
  assert (L : (timeGetTime env <? timer_fallback_start s) = false)
    by (apply Z.ltb_ge; lia).
  rewrite L, wrap32_small by lia. reflexivity.
Qed.

Lemma run_fallback_nondecreasing envs : forall s lo,
  timer_fallback s = true ->
  0 <= timer_fallback_start s -> timer_fallback_start s <= lo ->
  rising lo (map timeGetTime envs) = true ->
  nondecreasing
    ((double_of_uint (lo - timer_fallback_start s) / 1000)%float
       :: fst (run s envs)) = true.
Proof.
  induction envs as [|env envs IH]; intros s lo Hf H0 Hlo Hr; [reflexivity|].
  cbn [map rising] in Hr.
  apply andb_true_iff in Hr. destruct Hr as [Hr Hrest].
  apply andb_true_iff in Hr. destruct Hr as [Hle Hlt].
  apply Z.leb_le in Hle. apply Z.ltb_lt in Hlt.
  cbn [run]. rewrite Sys_DoubleTime_fallback_value by (assumption || lia).
  specialize (IH s (timeGetTime env) Hf H0 ltac:(lia) Hrest).
  destruct (run s envs) as [vs s']. cbn [fst] in IH |- *.
  cbn [nondecreasing]. rewrite milliseconds_monotone by lia. exact IH.
Qed.

(** *** Runs of stalled calls *)





(** *** Fractions of a second *)

Lemma SFltb_finite m1 e1 m2 e2 :
  SFltb (S754_finite false m1 e1) (S754_finite false m2 e2) = true <->
  e1 < e2 \/ (e1 = e2 /\ (m1 < m2)%positive).
Proof.
  unfold SFltb, SFcompare. fold (Pos.compare m1 m2).
  destruct (Z.compare_spec e1 e2) as [E|E|E].
  - destruct (Pos.compare_spec m1 m2) as [P|P|P]; split; intros H;
      try discriminate; try reflexivity; try lia.
  - split; [lia|reflexivity].
  - split; [discriminate|lia].
Qed.

Lemma SFleb_ltb_trans x y z :
  SFnonneg x = true -> SFnonneg y = true -> SFnonneg z = true ->
  SFleb x y = true -> SFltb y z = true -> SFltb x z = true.
Proof.
  destruct x as [sx|[]| |[] mx ex]; try discriminate;
  destruct y as [sy|[]| |[] my ey]; try discriminate;
  destruct z as [sz|[]| |[] mz ez]; try discriminate;
  intros _ _ _ Hxy Hyz; try reflexivity; try discriminate.
  apply SFleb_finite in Hxy. apply SFltb_finite in Hyz. apply SFltb_finite. lia.
Qed.

Lemma double_of_long_uint n : 0 <= n -> double_of_long n = double_of_uint n.
Proof.
  intros Hn. unfold double_of_long, double_of_uint.
  assert (E1 : (n =? - 2 ^ 63) = false).
  { apply Z.eqb_neq. change (- 2 ^ 63) with (-9223372036854775808). lia. }
  assert (E2 : (n <? 0) = false) by (apply Z.ltb_ge; lia).
  now rewrite E1, E2.
Qed.

(** Microseconds below one million, as a fraction of a second, lie
    in [0, 1). *)
Lemma usec_fraction usec :
  0 <= usec < 1000000 ->
  (0 <=? double_of_long usec / 1000000)%float = true /\
  (double_of_long usec / 1000000 <? 1)%float = true.
Proof.
  intros Hu. rewrite double_of_long_uint by lia.
  assert (Hnn : forall u, (0 <=? double_of_uint u / 1000000)%float = true).
  { intros u. apply uint_div_nonneg. reflexivity. }
  split; [apply Hnn|].
  assert (Hle : (double_of_uint usec / 1000000
                 <=? double_of_uint 999999 / 1000000)%float = true).
  { apply (uint_div_monotone 1000000 8589934592000000 (-33));
      [reflexivity|reflexivity|lia|lia|lia|].
    change (2 ^ 32) with 4294967296. lia. }
  assert (Hlt : (double_of_uint 999999 / 1000000 <? 1)%float = true)
    by reflexivity.
  pose proof (Hnn usec) as N1. pose proof (Hnn 999999) as N2.
  rewrite leb_zero in N1, N2. rewrite leb_spec in Hle. rewrite ltb_spec in Hlt |- *.
  apply (SFleb_ltb_trans _ _ _ N1 N2); [reflexivity|exact Hle|exact Hlt].
Qed.

(** *** Binary64: rounding to nearest *)

Lemma shr_1_r mrs : 0 <= shr_m mrs -> shr_r (shr_1 mrs) = Z.odd (shr_m mrs).
Proof.
  destruct mrs as [m r s]. cbn [shr_m].
  destruct m as [|[p|p|]|p]; intros H; try lia; reflexivity.
Qed.

Lemma shr_r_iter p : forall mrs, 0 <= shr_m mrs ->
  shr_r (iter_pos shr_1 p mrs) = Z.odd (shr_m mrs / 2 ^ (Zpos p - 1)).
Proof.
  intros mrs H. rewrite iter_pos_iter.
  induction p as [|p IH] using Pos.peano_ind.
  - cbn [Pos.iter]. change (2 ^ (1 - 1)) with 1. rewrite Z.div_1_r.
    now apply shr_1_r.
  - rewrite Pos.iter_succ, shr_1_r.
    + rewrite <- iter_pos_iter, shr_m_iter by exact H.
      rewrite Pos2Z.inj_succ.
      replace (Z.succ (Z.pos p) - 1) with (Z.pos p) by lia. reflexivity.
    + rewrite <- iter_pos_iter, shr_m_iter by exact H.
      apply Z.div_pos; lia.
Qed.

Lemma shr_1_s mrs : shr_s (shr_1 mrs) = shr_r mrs || shr_s mrs.
Proof. destruct mrs as [m r s]. destruct m as [|[p|p|]|[p|p|]]; reflexivity. Qed.

(** The sticky bit after [p] shifts: some bit below the last one shifted
    out was set. *)
Lemma shr_s_iter p : forall mrs, 0 <= shr_m mrs ->
  shr_r mrs = false -> shr_s mrs = false ->
  shr_s (iter_pos shr_1 p mrs) = negb (shr_m mrs mod 2 ^ (Zpos p - 1) =? 0).
Proof.
  intros mrs H Hr Hs. rewrite iter_pos_iter.
  induction p as [|p IH] using Pos.peano_ind.
  - cbn [Pos.iter]. change (2 ^ (1 - 1)) with 1. rewrite Z.mod_1_r.
    rewrite shr_1_s, Hr, Hs. reflexivity.
  - rewrite Pos.iter_succ, shr_1_s, IH.
    rewrite <- iter_pos_iter, shr_r_iter by exact H.
    rewrite Pos2Z.inj_succ.
    replace (Z.succ (Z.pos p) - 1) with (Z.pos p) by lia.
    set (M := shr_m mrs) in *.
    assert (Hh : 0 < 2 ^ (Z.pos p - 1)) by (apply Z.pow_pos_nonneg; lia).
    assert (E2 : 2 ^ Z.pos p = 2 ^ (Z.pos p - 1) * 2).
    { replace (Z.pos p) with (Z.succ (Z.pos p - 1)) at 1 by lia.
      rewrite Z.pow_succ_r by lia. lia. }
    set (h := 2 ^ (Z.pos p - 1)) in *.
    pose proof (Z.div_mod M h ltac:(lia)) as D1.
    pose proof (Z.mod_pos_bound M h Hh) as B1.
    set (a := M / h) in *. set (b := M mod h) in *.
    assert (Em : M mod 2 ^ Z.pos p = (a mod 2) * h + b).
    { rewrite E2. symmetry. apply Z.mod_unique with (a / 2).
      - left. pose proof (Z.mod_pos_bound a 2 ltac:(lia)). nia.
      - pose proof (Z.div_mod a 2 ltac:(lia)). nia. }
    rewrite Em. rewrite Zodd_mod.
    pose proof (Z.mod_pos_bound a 2 ltac:(lia)) as B2.
    destruct (Z.eqb_spec (a mod 2) 1) as [Ea|Ea];
      destruct (Z.eqb_spec b 0) as [Eb|Eb];
      destruct (Z.eqb_spec (a mod 2 * h + b) 0) as [Ec|Ec];
      cbn [negb orb]; try reflexivity; exfalso; nia.
Qed.

(** What [round_nearest_even] makes of [M] shifted by [n] places. *)
Lemma round_shifted M p : 0 <= M ->
  let mrs := iter_pos shr_1 p {| shr_m := M; shr_r := false; shr_s := false |} in
  round_nearest_even (shr_m mrs) (loc_of_shr_record mrs) = rne_quot M (Zpos p).
Proof.
  intros HM mrs.
  assert (Hm : shr_m mrs = M / 2 ^ Zpos p)
    by (unfold mrs; now rewrite shr_m_iter).
  assert (Hr : shr_r mrs = Z.odd (M / 2 ^ (Zpos p - 1)))
    by (unfold mrs; now rewrite shr_r_iter).
  assert (Hs : shr_s mrs = negb (M mod 2 ^ (Zpos p - 1) =? 0))
    by (unfold mrs; now rewrite shr_s_iter).
  unfold rne_quot. cbv zeta.
  assert (Hh : 0 < 2 ^ (Z.pos p - 1)) by (apply Z.pow_pos_nonneg; lia).
  assert (E2 : 2 ^ Z.pos p = 2 ^ (Z.pos p - 1) * 2).
  { replace (Z.pos p) with (Z.succ (Z.pos p - 1)) at 1 by lia.
    rewrite Z.pow_succ_r by lia. lia. }
  set (h := 2 ^ (Z.pos p - 1)) in *.
  pose proof (Z.div_mod M h ltac:(lia)) as D1.
  pose proof (Z.mod_pos_bound M h Hh) as B1.
  set (a := M / h) in *. set (b := M mod h) in *.
  pose proof (Z.mod_pos_bound a 2 ltac:(lia)) as B2.
  pose proof (Z.div_mod a 2 ltac:(lia)) as D2.
  assert (Em : M mod 2 ^ Z.pos p = (a mod 2) * h + b).
  { rewrite E2. symmetry. apply Z.mod_unique with (a / 2); [left|]; nia. }
  assert (Ed : M / 2 ^ Z.pos p = a / 2).
  { rewrite E2. symmetry. apply Z.div_unique with ((a mod 2) * h + b); [left|]; nia. }
  rewrite Em, Ed. rewrite Ed in Hm. rewrite Zodd_mod in Hr.
  destruct mrs as [m r s]. cbn [shr_m shr_r shr_s] in Hm, Hr, Hs. subst m r s.
  rewrite E2.
  destruct (Z.eqb_spec (a mod 2) 1) as [Ea|Ea];
    destruct (Z.eqb_spec b 0) as [Eb|Eb]; cbn [negb loc_of_shr_record round_nearest_even].
  - assert (L1 : (2 * (a mod 2 * h + b) <? h * 2) = false) by (apply Z.ltb_ge; nia).
    assert (L2 : (h * 2 <? 2 * (a mod 2 * h + b)) = false) by (apply Z.ltb_ge; nia).
    now rewrite L1, L2.
  - assert (L1 : (2 * (a mod 2 * h + b) <? h * 2) = false) by (apply Z.ltb_ge; nia).
    assert (L2 : (h * 2 <? 2 * (a mod 2 * h + b)) = true) by (apply Z.ltb_lt; nia).
    now rewrite L1, L2.
  - assert (L1 : (2 * (a mod 2 * h + b) <? h * 2) = true) by (apply Z.ltb_lt; nia).
    now rewrite L1.
  - assert (L1 : (2 * (a mod 2 * h + b) <? h * 2) = true) by (apply Z.ltb_lt; nia).
    now rewrite L1.
Qed.

Lemma rne_quot_0 X : rne_quot X 0 = X.
Proof.
  unfold rne_quot. change (2 ^ 0) with 1. rewrite Z.mod_1_r, Z.div_1_r.
  reflexivity.
Qed.

Lemma rne_quot_bounds X N : 0 <= N ->
  X / 2 ^ N <= rne_quot X N <= X / 2 ^ N + 1 /\
  (X mod 2 ^ N = 0 -> rne_quot X N = X / 2 ^ N) /\
  (2 * (X mod 2 ^ N) < 2 ^ N -> rne_quot X N = X / 2 ^ N).
Proof.
  intros HN. assert (Hp : 0 < 2 ^ N) by (apply Z.pow_pos_nonneg; lia).
  unfold rne_quot. cbv zeta. split; [|split].
  - destruct (_ <? _); [lia|]. destruct (_ <? _); [lia|].
    destruct (Z.even _); lia.
  - intros E. rewrite E. assert (L : (2 * 0 <? 2 ^ N) = true) by (apply Z.ltb_lt; lia).
    now rewrite L.
  - intros L. apply Z.ltb_lt in L. now rewrite L.
Qed.

(** The same quotient is found at every scale. *)
Lemma rne_quot_scale M n j : 0 <= n -> 0 <= j ->
  rne_quot (M * 2 ^ j) (n + j) = rne_quot M n.
Proof.
  intros Hn Hj. unfold rne_quot. cbv zeta.
  assert (Hpj : 0 < 2 ^ j) by (apply Z.pow_pos_nonneg; lia).
  assert (Hpn : 0 < 2 ^ n) by (apply Z.pow_pos_nonneg; lia).
  rewrite Z.pow_add_r by lia.
  rewrite Z.div_mul_cancel_r by lia.
  rewrite Z.mul_mod_distr_r by lia.
  set (q := M / 2 ^ n). set (r := M mod 2 ^ n).
  assert (L1 : (2 * (r * 2 ^ j) <? 2 ^ n * 2 ^ j) = (2 * r <? 2 ^ n)).
  { destruct (Z.ltb_spec (2 * r) (2 ^ n)); [apply Z.ltb_lt|apply Z.ltb_ge]; nia. }
  assert (L2 : (2 ^ n * 2 ^ j <? 2 * (r * 2 ^ j)) = (2 ^ n <? 2 * r)).
  { destruct (Z.ltb_spec (2 ^ n) (2 * r)); [apply Z.ltb_lt|apply Z.ltb_ge]; nia. }
  now rewrite L1, L2.
Qed.

(** The quotient that [round_units] takes has 53 digits, or 54 when the
    rounding carries. *)
Lemma rne_quot_digits X : 0 < X ->
  let N := Z.max (Zdigits2 X - 53) 0 in
  0 < rne_quot X N <= 2 ^ 53 /\
  (0 < N -> 2 ^ 52 <= rne_quot X N) /\
  (N = 0 -> rne_quot X N = X).
Proof.
  intros HX N. destruct (Zdigits2_bounds X HX) as (Hd1 & Hd2 & Hd3).
  assert (HN : 0 <= N) by (unfold N; lia).
  destruct (rne_quot_bounds X N HN) as (Hb & _).
  assert (Hp : 0 < 2 ^ N) by (apply Z.pow_pos_nonneg; lia).
  destruct (Z.eq_dec N 0) as [E0|E0].
  - rewrite E0 in *. rewrite rne_quot_0.
    assert (Zdigits2 X <= 53) by (unfold N in E0; lia).
    assert (2 ^ Zdigits2 X <= 2 ^ 53) by (apply Z.pow_le_mono_r; lia).
    repeat split; try lia.
  - assert (EN : Zdigits2 X = N + 53) by (unfold N in *; lia).
    assert (Hq : 2 ^ 52 <= X / 2 ^ N < 2 ^ 53).
    { split.
      - apply Z.div_le_lower_bound; [lia|].
        rewrite <- Z.pow_add_r by lia. replace (N + 52) with (Zdigits2 X - 1) by lia.
        exact Hd2.
      - apply Z.div_lt_upper_bound; [lia|].
        rewrite <- Z.pow_add_r by lia. replace (N + 53) with (Zdigits2 X) by lia.
        exact Hd3. }
    change (2 ^ 52) with 4503599627370496 in *.
    change (2 ^ 53) with 9007199254740992 in *.
    repeat split; try lia.
Qed.

(** [binary_round] depends on the value only: on the number of units of
    [2^-1074]. *)
Lemma binary_round_units M e : -1074 <= e ->
  binary_round prec emax false M e = round_units (Zpos M * 2 ^ (e + 1074)).
Proof.
  intros He. unfold binary_round.
  change (SpecFloat.fexp prec emax) with fexp64.
  change (Zpos (digits2_pos M)) with (Zdigits2 (Zpos M)).
  set (E := fexp64 (Zdigits2 (Zpos M) + e)).
  destruct (shl_align_spec M e E) as [Hm Hz].
  destruct (shl_align M e E) as [mz ez]. cbn [fst snd] in Hm, Hz.
  set (k := Z.max (e - E) 0) in *.
  assert (Hk : 0 <= k) by (unfold k; lia).
  assert (HE : -1074 <= E) by (unfold E, fexp64; lia).
  assert (Hdz : Zdigits2 (Zpos mz) + ez = Zdigits2 (Zpos M) + e).
  { rewrite Hm, Zdigits2_shift by lia. lia. }
  set (X := Zpos M * 2 ^ (e + 1074)).
  assert (HX : 0 < X) by (unfold X; apply Z.mul_pos_pos; [lia|apply Z.pow_pos_nonneg; lia]).
  assert (HdX : Zdigits2 X = Zdigits2 (Zpos M) + e + 1074).
  { unfold X. rewrite Zdigits2_shift by lia. lia. }
  set (n := E - ez).
  assert (Hn : 0 <= n) by (unfold n, k in *; lia).
  assert (HzX : X = Zpos mz * 2 ^ (ez + 1074)).
  { unfold X. rewrite Hm, <- Z.mul_assoc, <- Z.pow_add_r by lia.
    do 2 f_equal. lia. }
  unfold round_units. cbv zeta.
  set (N := Z.max (Zdigits2 X - 53) 0).
  assert (EN : N = n + (ez + 1074)).
  { unfold N, n. rewrite HdX. unfold E, fexp64. lia. }
  assert (Eq : rne_quot X N = rne_quot (Zpos mz) n).
  { rewrite HzX, EN. apply rne_quot_scale; lia. }
  destruct (rne_quot_digits X HX) as (Hq1 & Hq2 & _). fold N in Hq1, Hq2.
  set (m2 := rne_quot X N) in *.
  (* the first shift and the rounding *)
  unfold binary_round_aux, shr_fexp.
  change (SpecFloat.fexp prec emax) with fexp64.
  rewrite Hdz. fold E. fold n.
  assert (S1 : let '(mrs', e') := shr (shr_record_of_loc (Zpos mz) loc_Exact) ez n in
               round_nearest_even (shr_m mrs') (loc_of_shr_record mrs') = m2 /\
               e' = E).
  { destruct n as [|p|p] eqn:En; try lia.
    - cbn [shr shr_record_of_loc shr_m loc_of_shr_record round_nearest_even].
      rewrite Eq, rne_quot_0. split; [reflexivity|lia].
    - cbn [shr shr_record_of_loc]. split; [|lia].
      rewrite Eq. apply round_shifted. lia. }
  destruct (shr (shr_record_of_loc (Zpos mz) loc_Exact) ez n) as [mrs' e'].
  destruct S1 as [S1 ->]. rewrite S1.
  (* the second shift *)
  destruct (shr_spec (shr_record_of_loc m2 loc_Exact) E
              (fexp64 (Zdigits2 m2 + E) - E)) as [Hm' He'].
  { cbn [shr_record_of_loc shr_m]. lia. }
  cbn [shr_record_of_loc] in *.
  destruct (shr {| shr_m := m2; shr_r := false; shr_s := false |} E
              (fexp64 (Zdigits2 m2 + E) - E)) as [mrs'' e''].
  cbn [fst snd shr_m] in Hm', He'. rewrite Hm', He'.
  change (emax - prec) with 971.
  assert (EE : N - 1074 = E) by (rewrite EN; unfold n; lia).
  assert (EE1 : N + 1 - 1074 = E + 1) by lia.
  destruct (Z.eqb_spec m2 (2 ^ 53)) as [E53|E53].
  - rewrite E53, EE1. change (Zdigits2 (2 ^ 53)) with 54.
    replace (Z.max (fexp64 (54 + E) - E) 0) with 1 by (unfold fexp64; lia).
    reflexivity.
  - assert (Hd : Zdigits2 m2 <= 53).
    { apply Zdigits2_upper; lia. }
    rewrite EE.
    replace (Z.max (fexp64 (Zdigits2 m2 + E) - E) 0) with 0 by (unfold fexp64; lia).
    change (2 ^ 0) with 1. rewrite Z.div_1_r, Z.add_0_r.
    destruct m2; try lia. reflexivity.
Qed.

Lemma valid_finite s m e :
  valid_binary (S754_finite s m e) = true ->
  Zdigits2 (Zpos m) <= 53 /\ (-1074 < e -> Zdigits2 (Zpos m) = 53) /\
  -1074 <= e <= 971.
Proof.
  cbn [valid_binary]. unfold bounded, canonical_mantissa. intros H.
  apply andb_true_iff in H. destruct H as [H H'].
  apply Z.eqb_eq in H. apply Z.leb_le in H'.
  change (SpecFloat.fexp prec emax) with fexp64 in H. unfold fexp64 in H.
  change (Z.pos (SpecFloat.digits2_pos m)) with (Zdigits2 (Zpos m)) in H.
  change (emax - prec) with 971 in H'. lia.
Qed.

(** *** Binary64: rounding is monotone *)

Lemma Zdigits2_mono a b : 0 < a -> a <= b -> Zdigits2 a <= Zdigits2 b.
Proof.
  intros Ha Hab.
  destruct (Zdigits2_bounds a Ha) as (_ & La & _).
  destruct (Zdigits2_bounds b ltac:(lia)) as (Db & _ & Ub).
  assert (L : 2 ^ (Zdigits2 a - 1) < 2 ^ Zdigits2 b) by lia.
  apply Z.pow_lt_mono_r_iff in L; lia.
Qed.

(** On one grid, rounding to nearest keeps the order. *)
Lemma rne_quot_mono X1 X2 N : 0 <= N -> X1 <= X2 ->
  rne_quot X1 N <= rne_quot X2 N.
Proof.
  intros HN H12.
  assert (Hp : 0 < 2 ^ N) by (apply Z.pow_pos_nonneg; lia).
  pose proof (Z.div_le_mono X1 X2 (2 ^ N) Hp H12) as Hq.
  destruct (rne_quot_bounds X1 N HN) as (B1 & _).
  destruct (rne_quot_bounds X2 N HN) as (B2 & _).
  destruct (Z.eq_dec (X1 / 2 ^ N) (X2 / 2 ^ N)) as [E|E]; [|lia].
  pose proof (Z.div_mod X1 (2 ^ N) ltac:(lia)) as D1.
  pose proof (Z.div_mod X2 (2 ^ N) ltac:(lia)) as D2.
  unfold rne_quot. cbv zeta. rewrite <- E in *.
  set (q := X1 / 2 ^ N) in *.
  set (r1 := X1 mod 2 ^ N) in *. set (r2 := X2 mod 2 ^ N) in *.
  assert (Hr : r1 <= r2) by lia.
  destruct (Z.ltb_spec (2 * r1) (2 ^ N)); destruct (Z.ltb_spec (2 * r2) (2 ^ N));
    destruct (Z.ltb_spec (2 ^ N) (2 * r1)); destruct (Z.ltb_spec (2 ^ N) (2 * r2));
    destruct (Z.even q); lia.
Qed.

(** The value that [round_units] returns, in units. *)
Lemma round_units_value X : 0 < X < 2 ^ 2097 ->
  let N := Z.max (Zdigits2 X - 53) 0 in
  exists a e,
    round_units X = S754_finite false a e /\
    -1074 <= e <= 971 /\
    Zdigits2 (Zpos a) <= 53 /\
    (-1074 < e -> Zdigits2 (Zpos a) = 53) /\
    Zpos a * 2 ^ (e + 1074) = rne_quot X N * 2 ^ N.
Proof.
  intros [HX HU] N.
  destruct (rne_quot_digits X HX) as (Hq1 & Hq2 & _). fold N in Hq1, Hq2.
  assert (HN : 0 <= N <= 2044).
  { assert (Zdigits2 X <= 2097) by (apply Zdigits2_upper; lia).
    unfold N. lia. }
  unfold round_units. cbv zeta. fold N.
  set (m := rne_quot X N) in *.
  destruct (Z.eqb_spec m (2 ^ 53)) as [E53|E53].
  - assert (L : (N + 1 - 1074 <=? 971) = true) by (apply Z.leb_le; lia).
    change (2 ^ 52) with (Zpos 4503599627370496). cbv iota. rewrite L.
    eexists _, _. split; [reflexivity|].
    split; [lia|]. split; [vm_compute; discriminate|].
    split; [reflexivity|].
    rewrite E53. replace (N + 1 - 1074 + 1074) with (N + 1) by lia.
    rewrite Z.pow_add_r by lia.
    change (2 ^ 53) with 9007199254740992. change (2 ^ 1) with 2. lia.
  - assert (L : (N - 1074 <=? 971) = true) by (apply Z.leb_le; lia).
    destruct m as [|a|a] eqn:Em; try lia. rewrite L.
    eexists _, _. split; [reflexivity|].
    split; [lia|].
    assert (Hd : Zdigits2 (Zpos a) <= 53) by (apply Zdigits2_upper; lia).
    split; [exact Hd|]. split.
    + intros He. assert (0 < N) by lia.
      assert (53 <= Zdigits2 (Zpos a)) by (apply (Zdigits2_lower _ 52); lia).
      lia.
    + replace (N - 1074 + 1074) with N by lia. reflexivity.
Qed.

(** Rounding keeps the order, from one binade to the next as well. *)
Lemma rne_grid_mono X1 X2 : 0 < X1 -> X1 <= X2 ->
  let N1 := Z.max (Zdigits2 X1 - 53) 0 in
  let N2 := Z.max (Zdigits2 X2 - 53) 0 in
  rne_quot X1 N1 * 2 ^ N1 <= rne_quot X2 N2 * 2 ^ N2.
Proof.
  intros H1 H12 N1 N2.
  pose proof (Zdigits2_mono X1 X2 H1 H12) as Hd.
  destruct (Zdigits2_bounds X1 H1) as (D1 & L1 & U1).
  destruct (Zdigits2_bounds X2 ltac:(lia)) as (D2 & L2 & U2).
  destruct (rne_quot_digits X1 H1) as (A1 & B1 & C1). fold N1 in A1, B1, C1.
  destruct (rne_quot_digits X2 ltac:(lia)) as (A2 & B2 & C2). fold N2 in A2, B2, C2.
  assert (HN1 : 0 <= N1) by (unfold N1; lia).
  assert (HN2 : 0 <= N2) by (unfold N2; lia).
  destruct (Z.eq_dec N1 N2) as [E|E].
  - rewrite <- E. apply Z.mul_le_mono_nonneg_r; [apply Z.pow_nonneg; lia|].
    now apply rne_quot_mono.
  - assert (HN : N1 < N2) by (unfold N1, N2 in *; lia).
    assert (EN2 : Zdigits2 X2 = N2 + 53) by (unfold N1, N2 in *; lia).
    assert (Hdd : Zdigits2 X1 <= Zdigits2 X2 - 1) by (unfold N1, N2 in *; lia).
    apply Z.le_trans with (2 ^ Zdigits2 X1).
    + destruct (Z.eq_dec N1 0) as [E0|E0].
      * rewrite C1 by exact E0. rewrite E0. change (2 ^ 0) with 1. lia.
      * assert (EN1 : Zdigits2 X1 = N1 + 53) by (unfold N1 in *; lia).
        rewrite EN1, Z.pow_add_r by lia.
        rewrite (Z.mul_comm (2 ^ N1)).
        apply Z.mul_le_mono_nonneg_r; [apply Z.pow_nonneg|]; lia.
    + apply Z.le_trans with (2 ^ (Zdigits2 X2 - 1)).
      * apply Z.pow_le_mono_r; lia.
      * replace (Zdigits2 X2 - 1) with (52 + N2) by lia.
        rewrite Z.pow_add_r by lia.
        apply Z.mul_le_mono_nonneg_r; [apply Z.pow_nonneg; lia|].
        apply B2. lia.
Qed.

(** Floats in canonical form are ordered as their values are. *)
Lemma SFleb_of_units a1 e1 a2 e2 :
  Zdigits2 (Zpos a2) <= 53 -> -1074 <= e2 ->
  (-1074 < e1 -> Zdigits2 (Zpos a1) = 53) ->
  Zpos a1 * 2 ^ (e1 + 1074) <= Zpos a2 * 2 ^ (e2 + 1074) ->
  SFleb (S754_finite false a1 e1) (S754_finite false a2 e2) = true.
Proof.
  intros D2 E2 D1 H. apply SFleb_finite.
  destruct (Z.lt_trichotomy e1 e2) as [L|[L|L]]; [now left| |].
  - right. split; [exact L|]. subst e2.
    assert (0 < 2 ^ (e1 + 1074)) by (apply Z.pow_pos_nonneg; lia).
    apply Pos2Z.pos_le_pos. nia.
  - exfalso. specialize (D1 ltac:(lia)).
    destruct (Zdigits2_bounds (Zpos a1) ltac:(lia)) as (_ & L1 & _).
    destruct (Zdigits2_bounds (Zpos a2) ltac:(lia)) as (_ & _ & U2).
    rewrite D1 in L1. change (2 ^ (53 - 1)) with 4503599627370496 in L1.
    assert (U2' : Zpos a2 < 2 ^ 53).
    { eapply Z.lt_le_trans; [exact U2|]. apply Z.pow_le_mono_r; lia. }
    change (2 ^ 53) with 9007199254740992 in U2'.
    replace (e1 + 1074) with ((e1 - e2) + (e2 + 1074)) in H by lia.
    rewrite Z.pow_add_r, Z.mul_assoc in H by lia.
    assert (0 < 2 ^ (e2 + 1074)) by (apply Z.pow_pos_nonneg; lia).
    assert (2 <= 2 ^ (e1 - e2)).
    { change 2 with (2 ^ 1) at 1. apply Z.pow_le_mono_r; lia. }
    apply Z.mul_le_mono_pos_r in H; [|assumption].
    nia.
Qed.

Lemma SFleb_units a1 e1 a2 e2 :
  Zdigits2 (Zpos a1) <= 53 -> -1074 <= e1 ->
  (-1074 < e2 -> Zdigits2 (Zpos a2) = 53) ->
  SFleb (S754_finite false a1 e1) (S754_finite false a2 e2) = true ->
  Zpos a1 * 2 ^ (e1 + 1074) <= Zpos a2 * 2 ^ (e2 + 1074).
Proof.
  intros D1 E1 D2 H. apply SFleb_finite in H. destruct H as [L|[L La]].
  - specialize (D2 ltac:(lia)).
    destruct (Zdigits2_bounds (Zpos a2) ltac:(lia)) as (_ & L2 & _).
    destruct (Zdigits2_bounds (Zpos a1) ltac:(lia)) as (_ & _ & U1).
    rewrite D2 in L2. change (2 ^ (53 - 1)) with 4503599627370496 in L2.
    assert (U1' : Zpos a1 < 2 ^ 53).
    { eapply Z.lt_le_trans; [exact U1|]. apply Z.pow_le_mono_r; lia. }
    change (2 ^ 53) with 9007199254740992 in U1'.
    replace (e2 + 1074) with ((e2 - e1) + (e1 + 1074)) by lia.
    rewrite (Z.pow_add_r 2 (e2 - e1) (e1 + 1074)), Z.mul_assoc by lia.
    assert (0 < 2 ^ (e1 + 1074)) by (apply Z.pow_pos_nonneg; lia).
    assert (2 <= 2 ^ (e2 - e1)).
    { change 2 with (2 ^ 1) at 1. apply Z.pow_le_mono_r; lia. }
    apply Z.mul_le_mono_nonneg_r; [lia|]. nia.
  - subst e2. apply Z.mul_le_mono_nonneg_r; [apply Z.pow_nonneg|]; lia.
Qed.

(** [round_units] keeps the order. *)
Lemma round_units_mono X1 X2 : 0 <= X1 -> X1 <= X2 -> X2 < 2 ^ 2097 ->
  SFleb (round_units X1) (round_units X2) = true.
Proof.
  intros H1 H12 H2.
  destruct (Z.eq_dec X2 0) as [E2|E2].
  { replace X1 with 0 by lia. subst X2. reflexivity. }
  destruct (round_units_value X2 ltac:(lia)) as (a2 & e2 & R2 & Ee2 & D2 & D2' & V2).
  rewrite R2.
  destruct (Z.eq_dec X1 0) as [E1|E1].
  { subst X1. reflexivity. }
  destruct (round_units_value X1 ltac:(lia)) as (a1 & e1 & R1 & Ee1 & D1 & D1' & V1).
  rewrite R1. apply SFleb_of_units; try assumption; try lia.
  rewrite V1, V2. apply rne_grid_mono; lia.
Qed.

(** A float is the rounding of its own value. *)
Lemma round_units_idem a e :
  valid_binary (S754_finite false a e) = true ->
  round_units (Zpos a * 2 ^ (e + 1074)) = S754_finite false a e.
Proof.
  intros V. destruct (valid_finite _ _ _ V) as (D & D53 & He).
  rewrite <- binary_round_units by lia.
  unfold binary_round.
  change (SpecFloat.fexp prec emax) with fexp64.
  change (Zpos (digits2_pos a)) with (Zdigits2 (Zpos a)).
  assert (Ef : fexp64 (Zdigits2 (Zpos a) + e) = e).
  { unfold fexp64. destruct (Z.eq_dec e (-1074)); [lia|].
    rewrite D53 by lia. lia. }
  rewrite Ef. unfold shl_align. rewrite Z.sub_diag.
  apply binary_round_aux_exact; [exact Ef|lia].
Qed.

(** The sum of two floats that are not negative is the rounding of the sum
    of their values. *)
Lemma SFadd_units x y :
  valid_binary x = true -> valid_binary y = true ->
  SFplus x = true -> SFplus y = true ->
  SFreal x = true -> SFreal y = true ->
  SF64add x y = round_units (SFunits x + SFunits y).
Proof.
  intros Vx Vy Px Py Bx By.
  destruct x as [sx|sx| |sx mx ex]; try discriminate;
    destruct y as [sy|sy| |sy my ey]; try discriminate.
  - destruct sx, sy; try discriminate; reflexivity.
  - destruct sy; [discriminate|]. cbn [SFunits]. rewrite Z.add_0_l.
    now rewrite round_units_idem.
  - destruct sx; [discriminate|]. cbn [SFunits]. rewrite Z.add_0_r.
    now rewrite round_units_idem.
  - destruct sx; [discriminate|]. destruct sy; [discriminate|].
    destruct (valid_finite _ _ _ Vx) as (_ & _ & Hex).
    destruct (valid_finite _ _ _ Vy) as (_ & _ & Hey).
    unfold SF64add, SFadd. cbv zeta. cbn [cond_Zopp SFunits].
    change (IntDef.Z.min ex ey) with (Z.min ex ey).
    set (ez := Z.min ex ey).
    destruct (shl_align_spec mx ex ez) as [Hx _].
    destruct (shl_align_spec my ey ez) as [Hy _].
    rewrite Hx, Hy.
    set (M := Zpos mx * 2 ^ Z.max (ex - ez) 0 + Zpos my * 2 ^ Z.max (ey - ez) 0).
    assert (HM : 0 < M).
    { unfold M.
      assert (0 < 2 ^ Z.max (ex - ez) 0) by (apply Z.pow_pos_nonneg; lia).
      assert (0 < 2 ^ Z.max (ey - ez) 0) by (apply Z.pow_pos_nonneg; lia).
      nia. }
    destruct M as [|p|p] eqn:EM; try lia.
    cbn [binary_normalize]. rewrite binary_round_units by (unfold ez; lia).
    f_equal. rewrite <- EM. unfold M.
    rewrite Z.mul_add_distr_r, <- !Z.mul_assoc, <- !Z.pow_add_r by (unfold ez; lia).
    do 2 f_equal; f_equal; unfold ez; lia.
Qed.

(** Floats that are not negative are ordered as their values are. *)
Lemma SFleb_units_valid x y :
  valid_binary x = true -> valid_binary y = true ->
  SFplus x = true -> SFplus y = true -> SFreal x = true -> SFreal y = true ->
  SFleb x y = true -> SFunits x <= SFunits y.
Proof.
  intros Vx Vy Px Py Rx Ry H.
  destruct x as [sx|sx| |sx mx ex]; try discriminate;
    destruct y as [sy|sy| |sy my ey]; try discriminate; cbn [SFunits].
  - destruct (valid_finite _ _ _ Vy) as (_ & _ & Hey).
    assert (0 < 2 ^ (ey + 1074)) by (apply Z.pow_pos_nonneg; lia). nia.
  - destruct sx; discriminate.
  - destruct sx; [discriminate|]. destruct sy; [discriminate|].
    destruct (valid_finite _ _ _ Vx) as (Dx & _ & Hex).
    destruct (valid_finite _ _ _ Vy) as (_ & Dy & _).
    apply SFleb_units; try assumption; lia.
Qed.

Lemma SFltb_units_valid x y :
  valid_binary x = true -> valid_binary y = true ->
  SFplus x = true -> SFplus y = true -> SFreal x = true -> SFreal y = true ->
  SFltb x y = true -> SFunits x < SFunits y.
Proof.
  intros Vx Vy Px Py Rx Ry H.
  destruct x as [sx|sx| |sx mx ex]; try discriminate;
    destruct y as [sy|sy| |sy my ey]; try discriminate; cbn [SFunits].
  - destruct (valid_finite _ _ _ Vy) as (_ & _ & Hey).
    assert (0 < 2 ^ (ey + 1074)) by (apply Z.pow_pos_nonneg; lia). nia.
  - destruct sx; discriminate.
  - destruct sx; [discriminate|]. destruct sy; [discriminate|].
    destruct (valid_finite _ _ _ Vx) as (Dx & Dx' & Hex).
    destruct (valid_finite _ _ _ Vy) as (Dy & Dy' & Hey).
    assert (Hle : SFleb (S754_finite false mx ex) (S754_finite false my ey) = true).
    { apply SFleb_finite. apply SFltb_finite in H. lia. }
    pose proof (SFleb_units _ _ _ _ Dx (proj1 Hex) Dy' Hle) as L.
    destruct (Z.eq_dec (Zpos mx * 2 ^ (ex + 1074)) (Zpos my * 2 ^ (ey + 1074)))
      as [E|E]; [exfalso|lia].
    assert (Hge : SFleb (S754_finite false my ey) (S754_finite false mx ex) = true).
    { apply SFleb_of_units; try assumption; lia. }
    apply SFleb_finite in Hge. apply SFltb_finite in H. lia.
Qed.

(** What is less than half a unit of the last place is rounded away. *)
Lemma round_units_absorb a e u :
  valid_binary (S754_finite false a e) = true ->
  1 <= e -> 0 <= u < 2 ^ 1074 ->
  round_units (Zpos a * 2 ^ (e + 1074) + u) = S754_finite false a e.
Proof.
  intros V He Hu. destruct (valid_finite _ _ _ V) as (_ & D53 & Hr).
  specialize (D53 ltac:(lia)).
  destruct (Zdigits2_bounds (Zpos a) ltac:(lia)) as (_ & La & Ua).
  rewrite D53 in La, Ua. change (2 ^ (53 - 1)) with (2 ^ 52) in La.
  set (K := e + 1074). set (X := Zpos a * 2 ^ K + u).
  assert (HK : 0 < 2 ^ K) by (apply Z.pow_pos_nonneg; unfold K; lia).
  assert (HuK : 2 * u < 2 ^ K).
  { replace K with (1 + 1074 + (e - 1)) by (unfold K; lia).
    rewrite !Z.pow_add_r by lia. change (2 ^ 1) with 2.
    assert (1 <= 2 ^ (e - 1)) by (apply (Z.pow_le_mono_r 2 0); lia).
    nia. }
  assert (HdX : Zdigits2 X = 53 + K).
  { apply Z.le_antisymm.
    - apply Zdigits2_upper; [unfold X; nia|].
      rewrite Z.pow_add_r by (unfold K; lia). unfold X. nia.
    - replace (53 + K) with (52 + K + 1) by lia.
      apply Zdigits2_lower; [unfold X; nia|].
      rewrite Z.pow_add_r by (unfold K; lia). unfold X. nia. }
  unfold round_units. cbv zeta. rewrite HdX.
  replace (Z.max (53 + K - 53) 0) with K by (unfold K; lia).
  assert (Hq : X / 2 ^ K = Zpos a).
  { symmetry. apply Z.div_unique with u; [left|unfold X]; lia. }
  assert (Hm : X mod 2 ^ K = u).
  { symmetry. apply Z.mod_unique with (Zpos a); [left|unfold X]; lia. }
  destruct (rne_quot_bounds X K ltac:(unfold K; lia)) as (_ & _ & Hd).
  rewrite Hd, Hq by (rewrite Hm; exact HuK).
  assert (N53 : (Zpos a =? 2 ^ 53) = false) by (apply Z.eqb_neq; lia).
  rewrite N53. replace (K - 1074) with e by (unfold K; lia).
  assert (L : (e <=? 971) = true) by (apply Z.leb_le; lia).
  now rewrite L.
Qed.

(** *** The libretro clock while the wall clock is not set back *)

Lemma double_of_uint_units n : 0 <= n < 2 ^ 63 ->
  Prim2SF (double_of_uint n) = round_units (n * 2 ^ 1074).
Proof.
  intros Hn. unfold double_of_uint. rewrite of_uint63_spec, to_Z_of_Z by exact Hn.
  destruct n as [|p|p]; try lia.
  - rewrite Z.mul_0_l. reflexivity.
  - cbn [binary_normalize]. now rewrite binary_round_units by lia.
Qed.

(** The integer part of the libretro value. *)
Lemma seconds_units d : 0 <= d < 2 ^ 63 ->
  let R := Prim2SF (double_of_uint d) in
  valid_binary R = true /\ SFplus R = true /\ SFreal R = true /\
  R = round_units (d * 2 ^ 1074) /\
  0 <= SFunits R <= 2 ^ 1137 /\
  round_units (SFunits R) = R /\
  (d < 2 ^ 53 -> SFunits R = d * 2 ^ 1074) /\
  (2 ^ 53 <= d -> forall u, 0 <= u < 2 ^ 1074 -> round_units (SFunits R + u) = R).
Proof.
  intros Hd R.
  assert (V : valid_binary R = true) by apply Prim2SF_valid.
  assert (P : SFplus R = true) by apply double_of_uint_plus.
  assert (Rr : SFreal R = true) by apply of_uint63_real.
  assert (E : R = round_units (d * 2 ^ 1074)) by now apply double_of_uint_units.
  assert (Idem : round_units (SFunits R) = R).
  { destruct R as [s|s| |s m e]; try discriminate.
    - destruct s; [discriminate|]. reflexivity.
    - destruct s; [discriminate|]. cbn [SFunits]. now apply round_units_idem. }
  assert (Top : valid_binary (S754_finite false 4503599627370496 11) = true)
    by reflexivity.
  assert (Etop : 2 ^ 63 * 2 ^ 1074 = Zpos 4503599627370496 * 2 ^ (11 + 1074)).
  { change (Zpos 4503599627370496) with (2 ^ 52).
    rewrite <- !Z.pow_add_r by lia. reflexivity. }
  assert (Hp : 0 < 2 ^ 1074) by (apply Z.pow_pos_nonneg; lia).
  assert (Hbig : 2 ^ 63 * 2 ^ 1074 < 2 ^ 2097).
  { rewrite <- Z.pow_add_r by lia. apply Z.pow_lt_mono_r; lia. }
  assert (Bound : 0 <= SFunits R <= 2 ^ 1137).
  { split.
    - destruct R as [s|s| |s m e]; cbn [SFunits]; lia.
    - assert (Et : SFunits (S754_finite false 4503599627370496 11) = 2 ^ 1137).
      { cbn [SFunits]. rewrite <- Etop, <- Z.pow_add_r by lia. reflexivity. }
      rewrite <- Et.
      apply SFleb_units_valid; try assumption; try reflexivity.
      rewrite E, <- (round_units_idem _ _ Top), <- Etop.
      apply round_units_mono; nia. }
  repeat split; try assumption; try apply Bound.
  - intros H53. destruct (Z.eq_dec d 0) as [->|Hne]; [reflexivity|].
    destruct (double_of_uint_exact d ltac:(lia)) as (m & Em & Hm & _).
    unfold R. rewrite Em. cbn [SFunits]. rewrite Hm.
    destruct (Zdigits2_bounds d ltac:(lia)) as (D1 & _ & D3).
    assert (Zdigits2 d <= 53).
    { apply Zdigits2_upper; lia. }
    rewrite <- Z.mul_assoc, <- Z.pow_add_r by lia. do 2 f_equal. lia.
  - intros H53 u Hu.
    assert (T53 : valid_binary (S754_finite false 4503599627370496 1) = true)
      by reflexivity.
    assert (E53 : 2 ^ 53 * 2 ^ 1074 = Zpos 4503599627370496 * 2 ^ (1 + 1074)).
    { change (Zpos 4503599627370496) with (2 ^ 52).
      rewrite <- !Z.pow_add_r by lia. reflexivity. }
    assert (L : SFleb (S754_finite false 4503599627370496 1) R = true).
    { rewrite E, <- (round_units_idem _ _ T53), <- E53.
      apply round_units_mono; nia. }
    destruct R as [s|s| |s m e]; try discriminate.
    destruct s; [discriminate|]. apply SFleb_finite in L.
    cbn [SFunits]. apply round_units_absorb; [exact V|lia|exact Hu].
Qed.

(** The fraction of a second of the libretro value. *)
Lemma fraction_units usec : 0 <= usec < 1000000 ->
  let F := Prim2SF (double_of_long usec / 1000000) in
  valid_binary F = true /\ SFplus F = true /\ SFreal F = true /\
  0 <= SFunits F < 2 ^ 1074.
Proof.
  intros Hu F.
  assert (V : valid_binary F = true) by apply Prim2SF_valid.
  assert (P : SFplus F = true).
  { unfold F. rewrite double_of_long_uint, div_spec by lia.
    apply SFdiv_plus; [apply double_of_uint_plus|reflexivity|].
    apply orb_true_iff. right. reflexivity. }
  destruct (usec_fraction usec Hu) as [_ Hlt]. rewrite ltb_spec in Hlt. fold F in Hlt.
  assert (Rr : SFreal F = true).
  { destruct F as [s|s| |s m e]; try reflexivity; try discriminate.
    destruct s; discriminate. }
  repeat split; try assumption.
  - destruct F as [s|s| |s m e]; cbn [SFunits]; lia.
  - assert (E1 : SFunits (Prim2SF 1) = 2 ^ 1074).
    { rewrite Prim2SF_one. cbn [SFunits].
      change (Zpos 4503599627370496) with (2 ^ 52).
      rewrite <- Z.pow_add_r by lia. reflexivity. }
    rewrite <- E1.
    apply SFltb_units_valid; try assumption; try reflexivity.
Qed.

Lemma fraction_mono u1 u2 : 0 <= u1 -> u1 <= u2 -> u2 < 1000000 ->
  SFunits (Prim2SF (double_of_long u1 / 1000000))
  <= SFunits (Prim2SF (double_of_long u2 / 1000000)).
Proof.
  intros H0 H12 H2.
  destruct (fraction_units u1 ltac:(lia)) as (V1 & P1 & R1 & _).
  destruct (fraction_units u2 ltac:(lia)) as (V2 & P2 & R2 & _).
  apply SFleb_units_valid; try assumption.
  rewrite <- leb_spec, !double_of_long_uint by lia.
  apply (uint_div_monotone 1000000 8589934592000000 (-33));
    [reflexivity|reflexivity|lia|lia|lia|].
  change (2 ^ 32) with 4294967296. lia.
Qed.

(** The rounded sum of seconds and fraction keeps the order of the times. *)
Lemma sum_units_mono d1 d2 u1 u2 :
  0 <= d1 -> d2 < 2 ^ 63 -> 0 <= u1 < 2 ^ 1074 -> 0 <= u2 < 2 ^ 1074 ->
  d1 < d2 \/ (d1 = d2 /\ u1 <= u2) ->
  SFleb (round_units (SFunits (Prim2SF (double_of_uint d1)) + u1))
        (round_units (SFunits (Prim2SF (double_of_uint d2)) + u2)) = true.
Proof.
  intros H1 H2 Hu1 Hu2 Hlex.
  assert (Hd1 : 0 <= d1 < 2 ^ 63) by lia.
  assert (Hd2 : 0 <= d2 < 2 ^ 63) by lia.
  destruct (seconds_units d1 Hd1) as (V1 & P1 & R1 & E1 & B1 & I1 & X1 & A1).
  destruct (seconds_units d2 Hd2) as (V2 & P2 & R2 & E2 & B2 & I2 & X2 & A2).
  cbv zeta in *.
  set (D1 := Prim2SF (double_of_uint d1)) in *.
  set (D2 := Prim2SF (double_of_uint d2)) in *.
  assert (Hp : 0 < 2 ^ 1074) by (apply Z.pow_pos_nonneg; lia).
  assert (Hbig2 : 2 ^ 63 * 2 ^ 1074 < 2 ^ 2097).
  { rewrite <- Z.pow_add_r by lia. apply Z.pow_lt_mono_r; lia. }
  assert (Hbig : 2 ^ 1137 + 2 ^ 1074 < 2 ^ 2097).
  { assert (2 ^ 1074 < 2 ^ 1137) by (apply Z.pow_lt_mono_r; lia).
    assert (2 ^ 1137 * 2 <= 2 ^ 2097).
    { change 2 with (2 ^ 1) at 2. rewrite <- Z.pow_add_r by lia.
      apply Z.pow_le_mono_r; lia. }
    lia. }
  destruct Hlex as [Hlt|[-> Hle]].
  2:{ unfold D1, D2 in *. apply round_units_mono; lia. }
  (* the second sum is at least its seconds *)
  assert (S2 : SFleb D2 (round_units (SFunits D2 + u2)) = true).
  { rewrite <- I2 at 1. apply round_units_mono; lia. }
  (* the first sum is at most the seconds that follow *)
  assert (S1 : SFleb (round_units (SFunits D1 + u1)) D2 = true).
  { destruct (Z.lt_ge_cases d1 (2 ^ 53)) as [Hs|Hs].
    - rewrite X1 by exact Hs. rewrite E2.
      apply round_units_mono; nia.
    - rewrite A1 by assumption. rewrite E1, E2.
      apply round_units_mono; nia. }
  assert (N : forall X, SFnonneg (round_units X) = true).
  { intros X. unfold round_units. cbv zeta.
    destruct (if _ =? _ then _ else _); try reflexivity.
    destruct (_ <=? _); reflexivity. }
  apply (SFleb_trans_nonneg _ D2); try apply N; try assumption.
  now apply SFplus_nonneg.
Qed.

Lemma wrap_int64_small z : - 2 ^ 63 <= z < 2 ^ 63 -> wrap_int64 z = z.
Proof.
  intros H. unfold wrap_int64.
  change (2 ^ 63) with 9223372036854775808 in *.
  change (2 ^ 64) with 18446744073709551616. rewrite Z.mod_small; lia.
Qed.

Lemma wrap_int32_below z : - 2 ^ 31 <= z ->
  - 2 ^ 31 <= wrap_int32 z < 2 ^ 31 /\ wrap_int32 z <= z.
Proof.
  intros H. unfold wrap_int32.
  change (2 ^ 31) with 2147483648 in *. change (2 ^ 32) with 4294967296.
  pose proof (Z.mod_pos_bound (z + 2147483648) 4294967296 ltac:(lia)).
  pose proof (Z.mod_le (z + 2147483648) 4294967296 ltac:(lia) ltac:(lia)).
  lia.
Qed.

Lemma timeval_ok_spec tp : timeval_ok tp = true ->
  0 <= SysLibretro.tv_usec tp < 1000000 /\
  - 2 ^ 31 <= SysLibretro.tv_sec tp < 2 ^ 63 - 2 ^ 31.
Proof.
  unfold timeval_ok. intros H.
  apply andb_true_iff in H. destruct H as [H H4].
  apply andb_true_iff in H. destruct H as [H H3].
  apply andb_true_iff in H. destruct H as [H1 H2].
  apply Z.leb_le in H1, H3. apply Z.ltb_lt in H2, H4. lia.
Qed.

(** A call after [secbase] has been set returns the rounded sum of the
    seconds since [secbase] and the fraction. *)
Lemma libretro_later_call secbase tp :
  secbase <> 0 -> - 2 ^ 31 <= secbase < 2 ^ 31 ->
  timeval_ok tp = true -> secbase <= SysLibretro.tv_sec tp ->
  let d := SysLibretro.tv_sec tp - secbase in
  snd (SysLibretro.Sys_DoubleTime secbase tp) = secbase /\
  0 <= d < 2 ^ 63 /\
  Prim2SF (fst (SysLibretro.Sys_DoubleTime secbase tp))
  = round_units
      (SFunits (Prim2SF (double_of_uint d))
       + SFunits (Prim2SF (double_of_long (SysLibretro.tv_usec tp) / 1000000))).
Proof.
  intros Hne Hsb Hok Hle d.
  destruct (timeval_ok_spec tp Hok) as [Hu Hs].
  change (2 ^ 31) with 2147483648 in *.
  change (2 ^ 63) with 9223372036854775808 in *.
  assert (Hd : 0 <= d < 2 ^ 63).
  { unfold d. change (2 ^ 63) with 9223372036854775808. lia. }
  unfold SysLibretro.Sys_DoubleTime.
  assert (E0 : (secbase =? 0) = false) by now apply Z.eqb_neq.
  rewrite E0. cbn [fst snd].
  rewrite (wrap_int64_small (SysLibretro.tv_sec tp))
    by (change (2 ^ 63) with 9223372036854775808; lia).
  rewrite (wrap_int64_small (SysLibretro.tv_usec tp))
    by (change (2 ^ 63) with 9223372036854775808; lia).
  fold d. rewrite (wrap_int64_small d)
    by (change (2 ^ 63) with 9223372036854775808 in *; lia).
  split; [reflexivity|]. split; [exact Hd|].
  rewrite (double_of_long_uint d) by lia.
  destruct (seconds_units d Hd) as (V1 & P1 & R1 & _).
  destruct (fraction_units _ Hu) as (V2 & P2 & R2 & _).
  rewrite add_spec. now apply SFadd_units.
Qed.

(** The first call returns the fraction, which is the same sum with no
    seconds. *)
Lemma libretro_first_value tp :
  timeval_ok tp = true ->
  fst (SysLibretro.Sys_DoubleTime 0 tp)
  = (double_of_long (SysLibretro.tv_usec tp) / 1000000)%float /\
  snd (SysLibretro.Sys_DoubleTime 0 tp) = wrap_int32 (SysLibretro.tv_sec tp) /\
  Prim2SF (fst (SysLibretro.Sys_DoubleTime 0 tp))
  = round_units
      (SFunits (Prim2SF (double_of_uint 0))
       + SFunits (Prim2SF (double_of_long (SysLibretro.tv_usec tp) / 1000000))).
Proof.
  intros Hok. destruct (timeval_ok_spec tp Hok) as [Hu Hs].
  unfold SysLibretro.Sys_DoubleTime. change (0 =? 0) with true. cbn [fst snd].
  rewrite (wrap_int64_small (SysLibretro.tv_usec tp))
    by (change (2 ^ 63) with 9223372036854775808; lia).
  split; [reflexivity|]. split; [reflexivity|].
  change (SFunits (Prim2SF (double_of_uint 0))) with 0. rewrite Z.add_0_l.
  destruct (fraction_units _ Hu) as (V & P & R & _).
  destruct (Prim2SF (double_of_long (SysLibretro.tv_usec tp) / 1000000))
    as [s|s| |s m e]; try discriminate.
  - destruct s; [discriminate|]. reflexivity.
  - destruct s; [discriminate|]. cbn [SFunits]. symmetry.
    now apply round_units_idem.
Qed.

(** From one call to the next, while the wall clock is not set back. *)
Lemma libretro_run_nondecreasing tps : forall secbase last prev dp up,
  secbase <> 0 -> - 2 ^ 31 <= secbase < 2 ^ 31 ->
  timeval_ok last = true -> secbase <= SysLibretro.tv_sec last ->
  0 <= dp -> 0 <= up < 2 ^ 1074 ->
  Prim2SF prev = round_units (SFunits (Prim2SF (double_of_uint dp)) + up) ->
  (dp < SysLibretro.tv_sec last - secbase \/
   (dp = SysLibretro.tv_sec last - secbase /\
    up <= SFunits (Prim2SF (double_of_long (SysLibretro.tv_usec last) / 1000000)))) ->
  wall_clock_rising last tps = true ->
  nondecreasing (prev :: fst (SysLibretro.run secbase tps)) = true.
Proof.
  induction tps as [|tp tps IH];
    intros secbase last prev dp up Hne Hsb Hlast Hle Hdp Hup Eprev Hlex Hr;
    [reflexivity|].
  cbn [wall_clock_rising] in Hr.
  apply andb_true_iff in Hr. destruct Hr as [Hr Hrest].
  apply andb_true_iff in Hr. destruct Hr as [Hstep Hok].
  destruct (timeval_ok_spec last Hlast) as [Hul Hsl].
  destruct (timeval_ok_spec tp Hok) as [Hu Hs].
  assert (Hord : SysLibretro.tv_sec last < SysLibretro.tv_sec tp \/
                 (SysLibretro.tv_sec last = SysLibretro.tv_sec tp /\
                  SysLibretro.tv_usec last <= SysLibretro.tv_usec tp)).
  { unfold timeval_le in Hstep. apply orb_true_iff in Hstep.
    destruct Hstep as [H|H]; [left; now apply Z.ltb_lt|right].
    apply andb_true_iff in H. destruct H as [H1 H2].
    apply Z.eqb_eq in H1. apply Z.leb_le in H2. now split. }
  assert (Hle' : secbase <= SysLibretro.tv_sec tp) by lia.
  destruct (libretro_later_call secbase tp Hne Hsb Hok Hle') as (Esb & Hd & Ev).
  cbv zeta in Hd, Ev.
  destruct (fraction_units _ Hu) as (_ & _ & _ & Hfu).
  cbn [SysLibretro.run].
  destruct (SysLibretro.Sys_DoubleTime secbase tp) as [v sb] eqn:Ecall.
  cbn [fst snd] in Esb, Ev. subst sb.
  specialize (IH secbase tp v (SysLibretro.tv_sec tp - secbase)
                (SFunits (Prim2SF (double_of_long (SysLibretro.tv_usec tp) / 1000000)))
                Hne Hsb Hok Hle' ltac:(lia) Hfu Ev
                ltac:(right; split; [reflexivity|apply Z.le_refl]) Hrest).
  destruct (SysLibretro.run secbase tps) as [vs sb']. cbn [fst] in IH |- *.
  change (nondecreasing (prev :: v :: vs))
    with ((prev <=? v)%float && nondecreasing (v :: vs)).
  rewrite IH, andb_true_r.
  rewrite leb_spec, Eprev, Ev.
  apply sum_units_mono; try lia.
  destruct Hord as [Hlt|[Heq Hule]].
  - left. lia.
  - destruct Hlex as [Hlt|[-> Hupl]]; [left; lia|right].
    split; [lia|]. eapply Z.le_trans; [exact Hupl|].
    apply fraction_mono; lia.
Qed.

(** From program start. *)
Lemma libretro_nondecreasing tps :
  wall_clock_ok tps = true ->
  nondecreasing (0%float :: fst (SysLibretro.run 0 tps)) = true.
Proof.
  destruct tps as [|tp tps]; [reflexivity|]. cbn [wall_clock_ok]. intros H.
  apply andb_true_iff in H. destruct H as [H Hr].
  apply andb_true_iff in H. destruct H as [Hok Hnz].
  apply negb_true_iff, Z.eqb_neq in Hnz.
  destruct (timeval_ok_spec tp Hok) as [Hu Hs].
  destruct (wrap_int32_below _ (proj1 Hs)) as [Hsb Hle].
  destruct (libretro_first_value tp Hok) as (Ev & Esb & Eu).
  destruct (fraction_units _ Hu) as (_ & _ & _ & Hfu).
  destruct (usec_fraction _ Hu) as [Hnn _].
  pose proof (libretro_run_nondecreasing tps
                (wrap_int32 (SysLibretro.tv_sec tp)) tp
                (fst (SysLibretro.Sys_DoubleTime 0 tp)) 0
                (SFunits (Prim2SF (double_of_long (SysLibretro.tv_usec tp) / 1000000)))
                Hnz Hsb Hok Hle (Z.le_refl 0) Hfu Eu) as IH.
  cbn [SysLibretro.run].
  destruct (SysLibretro.Sys_DoubleTime 0 tp) as [v sb].
  cbn [fst snd] in Ev, Esb, IH. subst sb.
  specialize (IH ltac:(destruct (Z.eq_dec 0 (SysLibretro.tv_sec tp
                                             - wrap_int32 (SysLibretro.tv_sec tp)));
                       [right; split; [assumption|apply Z.le_refl]|left; lia]) Hr).
  destruct (SysLibretro.run (wrap_int32 (SysLibretro.tv_sec tp)) tps) as [vs sb'].
  cbn [fst] in IH |- *.
  change (nondecreasing (0%float :: v :: vs))
    with ((0 <=? v)%float && nondecreasing (v :: vs)).
  rewrite IH, andb_true_r, Ev. exact Hnn.
Qed.

(** *** A raw count one lower *)

(** The normalised readings of a raw count and of the count one below it. *)
Lemma raw_step_back k V :
  0 < k < 32 -> 1 <= V ->
  (V mod 2 ^ (32 + k) <> 0 ->
   wrap32 ((V - 1) / 2 ^ k) = wrap32 (V / 2 ^ k) \/
   wrap32 ((V - 1) / 2 ^ k) + 1 = wrap32 (V / 2 ^ k)) /\
  (V mod 2 ^ (32 + k) = 0 ->
   wrap32 (V / 2 ^ k) = 0 /\ wrap32 ((V - 1) / 2 ^ k) = 2 ^ 32 - 1).
Proof.
  intros Hk HV.
  assert (Hp : 0 < 2 ^ k) by (apply Z.pow_pos_nonneg; lia).
  assert (E : 2 ^ (32 + k) = 2 ^ 32 * 2 ^ k) by (apply Z.pow_add_r; lia).
  pose proof (Z.div_mod V (2 ^ k) ltac:(lia)) as D.
  pose proof (Z.mod_pos_bound V (2 ^ k) Hp) as B.
  set (q := V / 2 ^ k) in *. set (r := V mod 2 ^ k) in *.
  unfold wrap32. change (2 ^ 32) with 4294967296 in *.
  pose proof (Z.div_mod q 4294967296 ltac:(lia)) as Dq.
  pose proof (Z.mod_pos_bound q 4294967296 ltac:(lia)) as Bq.
  assert (Hmod : V mod 2 ^ (32 + k) = (q mod 4294967296) * 2 ^ k + r).
  { rewrite E. symmetry. apply Z.mod_unique with (q / 4294967296); [left|]; nia. }
  destruct (Z.eq_dec r 0) as [Er|Er].
  - assert (Eq1 : (V - 1) / 2 ^ k = q - 1).
    { symmetry. apply Z.div_unique with (2 ^ k - 1); [left|]; nia. }
    rewrite Eq1, Hmod, Er, Z.add_0_r.
    assert (Hq1 : 1 <= q) by nia.
    split.
    + intros Hne. right.
      assert (Hm : 1 <= q mod 4294967296) by nia.
      assert (Em : (q - 1) mod 4294967296 = q mod 4294967296 - 1).
      { symmetry. apply Z.mod_unique with (q / 4294967296); [left|]; lia. }
      lia.
    + intros H0. assert (Em0 : q mod 4294967296 = 0) by nia.
      split; [exact Em0|].
      symmetry. apply Z.mod_unique with (q / 4294967296 - 1); [left|]; lia.
  - assert (Eq1 : (V - 1) / 2 ^ k = q).
    { symmetry. apply Z.div_unique with (r - 1); [left|]; lia. }
    rewrite Eq1, Hmod. split; [intros _; now left|]. intros H0. exfalso. nia.
Qed.

(** *** A call that adds time *)






(** *** The accuracy of the fraction of a second *)

(** [(double)usec / 1000000.0] is within a relative [2^-52] of
    [usec / 10^6]. *)
Lemma usec_fraction_accurate usec :
  0 < usec < 1000000 ->
  exists mv ev,
    Prim2SF (double_of_long usec / 1000000) = S754_finite false mv ev /\
    ev < 0 /\
    2 ^ 52 * Z.abs (Zpos mv * 1000000 - usec * 2 ^ (- ev)) <= usec * 2 ^ (- ev).
Proof.
  intros Hu. rewrite double_of_long_uint by lia.
  assert (B53 : 1000000 < 2 ^ 53) by (apply Z.ltb_lt; reflexivity).
  destruct (double_of_uint_exact usec ltac:(lia)) as (m1 & E1 & Em1 & Hm1).
  assert (Hd : 1 <= Zdigits2 usec <= 20).
  { split; [apply (Zdigits2_bounds usec); lia|].
    apply Zdigits2_upper; [lia|]. change (2 ^ 20) with 1048576. lia. }
  set (d := Zdigits2 usec) in *.
  rewrite div_spec, E1.
  change (Prim2SF 1000000) with (S754_finite false 8589934592000000 (-33)).
  set (my := 8589934592000000%positive).
  assert (Hmy : Zdigits2 (Zpos my) = 53) by reflexivity.
  pose proof (digits53_bounds m1 Hm1) as Bm1.
  pose proof (digits53_bounds my Hmy) as Bmy.
  unfold SF64div, SFdiv.
  rewrite SFdiv_core_normal by (assumption || lia). cbn [xorb].
  destruct (quotient_digits (Zpos m1) (Zpos my) Bm1 Bmy) as [Bq Dq].
  cbv zeta in Bq, Dq.
  set (q := Zpos m1 * 2 ^ 53 / Zpos my) in *.
  set (l := new_location _ (_ mod _)).
  set (E := d - 53 - -33 - 53).
  assert (Hdq : 53 <= Zdigits2 q <= 54).
  { split; [apply (Zdigits2_lower q 52); lia|apply Zdigits2_upper; lia]. }
  destruct (binary_round_aux_bracket q E l)
    as (mr & er & m & Hr & Her & Hmr & Hm & Hbr & HR); try (unfold E; lia).
  cbv zeta in Her, Hbr, HR. set (n := Zdigits2 q - 53) in *.
  exists mr, er. split; [exact Hr|]. split; [unfold E in Her; lia|].
  set (R := Zpos mr * 2 ^ (er - E)) in *.
  assert (PN : 0 < 2 ^ n) by (apply Z.pow_pos_nonneg; unfold n; lia).
  (* in units of the quotient *)
  assert (A1 : Z.abs (R * Zpos my - Zpos m1 * 2 ^ 53) <= 2 ^ n * Zpos my) by nia.
  assert (A2 : 2 ^ 52 * (2 ^ n * Zpos my) <= Zpos m1 * 2 ^ 53) by nia.
  assert (A3 : 2 ^ 52 * Z.abs (R * Zpos my - Zpos m1 * 2 ^ 53) <= Zpos m1 * 2 ^ 53).
  { eapply Z.le_trans; [|exact A2]. apply Z.mul_le_mono_nonneg_l; [lia|exact A1]. }
  (* both sides are those of the statement times one power of two *)
  set (K := 2 ^ (er - E + 33)).
  assert (HK : 0 < K) by (apply Z.pow_pos_nonneg; unfold E in *; lia).
  assert (EL : R * Zpos my = Zpos mr * 1000000 * K).
  { unfold R, K. change (Zpos my) with (1000000 * 2 ^ 33).
    rewrite (Z.pow_add_r 2 (er - E) 33) by lia. ring. }
  assert (ER : Zpos m1 * 2 ^ 53 = usec * 2 ^ (- er) * K).
  { rewrite Em1. unfold K. rewrite <- !Z.mul_assoc, <- !Z.pow_add_r by (unfold E in *; lia).
    do 2 f_equal. unfold E. lia. }
  rewrite EL, ER in A3.
  replace (Zpos mr * 1000000 * K - usec * 2 ^ (- er) * K)
    with ((Zpos mr * 1000000 - usec * 2 ^ (- er)) * K) in A3 by ring.
  rewrite Z.abs_mul, (Z.abs_eq K), Z.mul_assoc in A3 by lia.
  apply Z.mul_le_mono_pos_r in A3; assumption.
Qed.

(** ** The claims *)

(** C1, counterexample. In fallback mode the value is the distance of the
    millisecond counter from its origin, so it drops when the counter comes
    round to the origin; the libretro variant follows the wall clock, so it
    drops when the wall clock is set back. It also drops, with a wall clock
    that only goes forward, when the seconds of the first reading are zero
    as an [int], since [secbase] is then set by a later call, and when they
    are below [INT_MIN], since [secbase] is then above them. *)
Lemma Sys_DoubleTime_can_decrease :
  (exists s0, Sys_InitTimers timers_at_start None (at_ms 1000) = Some s0 /\
     nondecreasing (fst (run s0 [at_ms 999; at_ms 1000])) = false) /\
  nondecreasing
    (fst (SysLibretro.run 0
            [ {| SysLibretro.tv_sec := 100; SysLibretro.tv_usec := 900000 |};
              {| SysLibretro.tv_sec := 100; SysLibretro.tv_usec := 250000 |} ]))
  = false /\
  nondecreasing
    (fst (SysLibretro.run 0
            [ {| SysLibretro.tv_sec := 0; SysLibretro.tv_usec := 999999 |};
              {| SysLibretro.tv_sec := 1; SysLibretro.tv_usec := 0 |} ]))
  = false /\
  nondecreasing
    (fst (SysLibretro.run 0
            [ {| SysLibretro.tv_sec := -4294967291; SysLibretro.tv_usec := 500000 |};
              {| SysLibretro.tv_sec := -4294967291; SysLibretro.tv_usec := 500000 |} ]))
  = false.
Proof.
  split; [eexists; split; [reflexivity|]|repeat split]; vm_compute; reflexivity.
Qed.

(** C1, amended. On Win32, after a [Sys_InitTimers] that found the
    hardware counter, whatever the counter reads on each call, every value
    returned by [Sys_DoubleTime] is at or above the one returned before it,
    and the first is at or above zero. After a [Sys_InitTimers] that fell
    back to [timeGetTime] the same holds as long as the millisecond counter
    has not wrapped: its readings start at or above the origin, never go
    down and stay below 2^32. In the libretro variant the same holds from
    program start as long as the wall clock is not set back: no reading of
    [gettimeofday] is before the one that precedes it, the microseconds are
    below a million, and the seconds are not below [INT_MIN], not zero as
    an [int] at the first call, and below [2^63 - 2^31], so that
    [tv_sec - secbase] does not overflow. *)
Theorem Sys_DoubleTime_nondecreasing :
  (forall f env0 envs, exists s0,
     Sys_InitTimers timers_at_start (Some f) env0 = Some s0 /\
     nondecreasing (0%float :: fst (run s0 envs)) = true) /\
  (forall env0 envs, exists s0,
     Sys_InitTimers timers_at_start None env0 = Some s0 /\
     timer_fallback_start s0 = wrap32 (timeGetTime env0) /\
     (rising (timer_fallback_start s0) (map timeGetTime envs) = true ->
      nondecreasing (0%float :: fst (run s0 envs)) = true)) /\
  (forall tps,
     wall_clock_ok tps = true ->
     nondecreasing (0%float :: fst (SysLibretro.run 0 tps)) = true).
Proof.
  split; [|split].
  - intros f env0 envs.
    destruct (Sys_InitTimers_total timers_at_start (Some f) env0)
      as [s0 (E & _ & Hc & Hf & Hp)].
    exists s0. split; [exact E|].
    destruct Hp as [Hp Ho]; [discriminate|].
    assert (Hok : timers_ok s0).
    { unfold timers_ok. rewrite Hf, Hc. repeat split; auto; lia. }
    destruct (run_nondecreasing envs s0 Hok) as [H _].
    rewrite Hc in H. exact H.
  - intros env0 envs. eexists. split; [reflexivity|].
    split; [reflexivity|]. cbn [timer_fallback_start]. intros Hr.
    pose proof (wrap32_range (timeGetTime env0)) as Hw.
    match goal with |- context [run ?s envs] => set (s0 := s) end.
    pose proof (run_fallback_nondecreasing envs s0 (wrap32 (timeGetTime env0))
                  eq_refl (proj1 Hw) (Z.le_refl _) Hr) as H.
    cbn [timer_fallback_start s0] in H. rewrite Z.sub_diag in H. exact H.
  - exact libretro_nondecreasing.
Qed.

Lemma Sys_DoubleTime_nondecreasing_witness :
  nondecreasing
    (0%float
     :: fst (SysLibretro.run 0
               [ {| SysLibretro.tv_sec := 100; SysLibretro.tv_usec := 900000 |};
                 {| SysLibretro.tv_sec := 100; SysLibretro.tv_usec := 900000 |};
                 {| SysLibretro.tv_sec := 101; SysLibretro.tv_usec := 250000 |};
                 {| SysLibretro.tv_sec := 4294967396; SysLibretro.tv_usec := 0 |} ]))
  = true.
Proof.
  apply (proj2 (proj2 Sys_DoubleTime_nondecreasing)). reflexivity.
Defined.




(** C3, counterexample. A counter of 10 MHz is shifted by three bits. The
    raw count 8 * 2^32 gives the normalised reading 0, and the raw count one
    below it, 7 * 2^32 + 0xFFFFFFFF, the reading 0xFFFFFFFF: the backward
    guard does not fire and the second call adds 4294967295 ticks of
    1/1250000 s, more than 3435 s, to what the first call returned. *)
Lemma raw_sample_one_lower_adds_time :
  exists s0,
    Sys_InitTimers timers_at_start
      (Some {| LowPart := 10000000; HighPart := 0 |}) (at_pcount 0 8) = Some s0 /\
    timer_lowshift s0 = 3 /\
    raw_count {| LowPart := 4294967295; HighPart := 7 |} + 1
    = raw_count {| LowPart := 0; HighPart := 8 |} /\
    shifted_count 3 {| LowPart := 0; HighPart := 8 |} = 0 /\
    shifted_count 3 {| LowPart := 4294967295; HighPart := 7 |} = 4294967295 /\
    backward_guard 4294967295 0 = false /\
    fst (Sys_DoubleTime s0 (at_pcount 0 8)) = 0%float /\
    fst (Sys_DoubleTime (snd (Sys_DoubleTime s0 (at_pcount 0 8)))
           (at_pcount 4294967295 7))
    = (double_of_uint 4294967295 * (1 / 1250000))%float /\
    (3435 <? fst (Sys_DoubleTime (snd (Sys_DoubleTime s0 (at_pcount 0 8)))
                    (at_pcount 4294967295 7)))%float = true.
Proof.
  eexists. split; [reflexivity|]. vm_compute. repeat split; reflexivity.
Qed.

(** C3, amended. When the normalised reading is at or below
    [timer_oldtime] and less than 0x10000000 below it, [Sys_DoubleTime]
    stores the reading in [timer_oldtime], changes nothing else and returns
    [curtime]; so a call whose normalised reading is at or below that of the
    call before it, by less than 0x10000000, returns what that call
    returned. With [timer_lowshift] from 1 to 31, a raw count one below that
    of the call before gives a normalised reading equal to the one before or
    one below it, and so the same value, unless the raw count before is a
    multiple of [2^(32 + timer_lowshift)]: then the normalised reading goes
    from 0 to 0xFFFFFFFF and the guard does not fire. *)
Theorem backward_guard_keeps_time s env env' :
  timer_fallback s = false ->
  let k := timer_lowshift s in
  let temp := shifted_count k (QueryPerformanceCounter env) in
  let temp' := shifted_count k (QueryPerformanceCounter env') in
  let first := Sys_DoubleTime s env in
  let second := Sys_DoubleTime (snd first) env' in
  (temp <= timer_oldtime s -> timer_oldtime s - temp < 268435456 ->
     first = (curtime s, set_oldtime s temp)) /\
  (temp' <= temp -> temp - temp' < 268435456 ->
     second = (fst first, set_oldtime (snd first) temp')) /\
  (0 < k < 32 ->
   raw_count (QueryPerformanceCounter env') + 1
   = raw_count (QueryPerformanceCounter env) ->
   (raw_count (QueryPerformanceCounter env) mod 2 ^ (32 + k) <> 0 ->
    (temp' = temp \/ temp' + 1 = temp) /\
    second = (fst first, set_oldtime (snd first) temp')) /\
   (raw_count (QueryPerformanceCounter env) mod 2 ^ (32 + k) = 0 ->
    temp = 0 /\ temp' = 2 ^ 32 - 1 /\
    backward_guard temp' (timer_oldtime (snd first)) = false)).
Proof.
  intros Hf k temp temp' first second.
  assert (Hg : forall s0 e0, timer_fallback s0 = false ->
            let t := shifted_count (timer_lowshift s0) (QueryPerformanceCounter e0) in
            t <= timer_oldtime s0 -> timer_oldtime s0 - t < 268435456 ->
            Sys_DoubleTime s0 e0 = (curtime s0, set_oldtime s0 t)).
  { intros s0 e0 Hf0 t Hle Hgap. apply Sys_DoubleTime_guarded; [assumption|].
    fold t. unfold backward_guard.
    pose proof (shifted_count_range (timer_lowshift s0) (QueryPerformanceCounter e0)) as Ht.
    fold t in Ht. rewrite wrap32_small by (change (2 ^ 32) with 4294967296; lia).
    apply andb_true_iff. split; [apply Z.leb_le|apply Z.ltb_lt]; assumption. }
  destruct (Sys_DoubleTime_fields s env Hf) as (Hf1 & Hl1 & Ho1 & Hc1).
  cbv zeta in Hf1, Hl1, Ho1, Hc1. fold k temp first in Hf1, Hl1, Ho1, Hc1.
  assert (Hsecond : temp' <= temp -> temp - temp' < 268435456 ->
            second = (fst first, set_oldtime (snd first) temp')).
  { intros Hle Hgap. rewrite <- Hc1.
    pose proof (Hg (snd first) env' Hf1) as H. cbv zeta in H.
    rewrite Hl1, Ho1 in H. fold temp' in H. apply H; lia. }
  split; [apply Hg; exact Hf|]. split; [exact Hsecond|].
  intros Hk Hraw.
  pose proof (wrap32_range (LowPart (QueryPerformanceCounter env'))) as HL.
  pose proof (wrap32_range (HighPart (QueryPerformanceCounter env'))) as HH.
  assert (HV : 1 <= raw_count (QueryPerformanceCounter env)).
  { rewrite <- Hraw. unfold raw_count. change (2 ^ 32) with 4294967296 in *. lia. }
  destruct (raw_step_back k _ Hk HV) as [Hne H0].
  replace (raw_count (QueryPerformanceCounter env) - 1)
    with (raw_count (QueryPerformanceCounter env')) in Hne, H0 by lia.
  split.
  - intros Hm. specialize (Hne Hm). unfold raw_count in Hne.
    rewrite <- !shifted_count_value in Hne by exact Hk.
    fold temp temp' in Hne. split; [exact Hne|].
    apply Hsecond; lia.
  - intros Hm. destruct (H0 Hm) as [E0 E1]. unfold raw_count in E0, E1.
    rewrite <- !shifted_count_value in E0, E1 by exact Hk.
    fold temp temp' in E0, E1.
    split; [exact E0|]. split; [exact E1|].
    rewrite Ho1, E0, E1. reflexivity.
Qed.

Lemma backward_guard_keeps_time_witness :
  exists s0,
    Sys_InitTimers timers_at_start
      (Some {| LowPart := 10000000; HighPart := 0 |}) (at_pcount 0 0) = Some s0 /\
    Sys_DoubleTime (snd (Sys_DoubleTime s0 (at_pcount 16 0))) (at_pcount 15 0)
    = (fst (Sys_DoubleTime s0 (at_pcount 16 0)),
       set_oldtime (snd (Sys_DoubleTime s0 (at_pcount 16 0))) 1).
Proof.
  eexists. split; [reflexivity|].
  match goal with
  | |- Sys_DoubleTime (snd (Sys_DoubleTime ?s _)) _ = _ =>
      refine (proj2 (proj1 (proj2 (proj2
                (backward_guard_keeps_time s (at_pcount 16 0) (at_pcount 15 0)
                   eq_refl)) _ _) _))
  end.
  - cbn [timer_lowshift]. lia.
  - reflexivity.
  - vm_compute. discriminate.
Defined.



(** C5, the failing samples. With origin 2^32 - 100 a sample 250 ms later
    reads 150, the counter having wrapped: the code adds
    [LONG_MAX - timer_fallback_start] and returns 2147483.897, where the
    distance from the origin modulo the counter's range is 250 ms, 0.25 s.
    With origin 1000 and the counter wrapped to 0 it returns 2147482.647
    where that distance is 4294966296 ms, and falls below the value
    returned one millisecond before the wrap. *)
Lemma fallback_wrapped_sample :
  fst (Sys_DoubleTime (fallback_timers 4294967196) (at_ms 150))
    = (double_of_uint 2147483897 / 1000)%float /\
  wrap32 (150 - 4294967196) = 250 /\
  (double_of_uint 250 / 1000)%float = 0.25%float /\
  (0.25 <? fst (Sys_DoubleTime (fallback_timers 4294967196) (at_ms 150)))%float
    = true /\
  fst (Sys_DoubleTime (fallback_timers 1000) (at_ms 0))
    = (double_of_uint 2147482647 / 1000)%float /\
  wrap32 (0 - 1000) = 4294966296 /\
  (fst (Sys_DoubleTime (fallback_timers 1000) (at_ms 0))
     <? double_of_uint 4294966296 / 1000)%float = true /\
  (fst (Sys_DoubleTime (fallback_timers 1000) (at_ms 0))
     <? fst (Sys_DoubleTime (fallback_timers 1000) (at_ms 4294967295)))%float
    = true.
Proof. vm_compute. repeat split; reflexivity. Qed.

(** The part of C5 that holds: 250 ms past the origin is 0.25 s. *)
Lemma fallback_quarter_second s env :
  timer_fallback s = true ->
  0 <= timer_fallback_start s ->
  wrap32 (timeGetTime env) = timer_fallback_start s + 250 ->
  fst (Sys_DoubleTime s env) = 0.25%float.
Proof.
  intros Hf H0 Hn. unfold Sys_DoubleTime. rewrite Hf. cbv zeta. rewrite Hn.
  assert (L : (timer_fallback_start s + 250 <? timer_fallback_start s) = false)
    by (apply Z.ltb_ge; lia).
  rewrite L. cbn [fst].
  replace (timer_fallback_start s + 250 - timer_fallback_start s) with 250 by lia.
  vm_compute. reflexivity.
Qed.

(** C6, counterexample. A counter of 16000007 Hz takes three shifts and
    is scaled to 2000000. After 16 * 10^9 raw ticks, which are 2 * 10^9
    shifted ticks, [Sys_DoubleTime] returns 1000.0; the wall clock has
    advanced 16 * 10^9 / 16000007 s, which is 7000 / 16000007 s less: more
    than 2^-12 s, and more than 10^-9 s. *)
Lemma truncated_frequency_drifts :
  exists s0,
    Sys_InitTimers timers_at_start
      (Some {| LowPart := 16000007; HighPart := 0 |}) (at_pcount 0 0) = Some s0 /\
    timer_lowshift s0 = 3 /\
    3 * 2 ^ 32 + 3115098112 = 16000000000 /\
    shifted_count 3 {| LowPart := 3115098112; HighPart := 3 |} = 2000000000 /\
    fst (Sys_DoubleTime s0 (at_pcount 3115098112 3)) = 1000%float /\
    (0x1p-12 <? 1000 - 16000000000 / 16000007)%float = true /\
    1000 * 16000007 - 16000000000 = 7000 /\
    16000007 < 7000 * 10 ^ 9.
Proof.
  eexists. split; [reflexivity|]. vm_compute. repeat split; reflexivity.
Qed.

(** C6, amended. [Sys_InitTimers] shifts the 64-bit frequency [V] right one
    bit at a time and stops at the first count [k] with [V / 2^k <= 2000000];
    it stores [k] in [timer_lowshift], [1.0 / (double)(V / 2^k)] in
    [timer_pfreq] and the reading shifted by [k] in [timer_oldtime]; every
    later call shifts its reading by the same [k]. For a delta of [d]
    shifted ticks, [(double)d * timer_pfreq] is a finite double within a
    relative [2^-50] of [d / (V / 2^k)]; [V / 2^k] itself drops the [k] low
    bits of [V]. *)
Theorem Sys_InitTimers_normalizes f env0 :
  let V := wrap32 (HighPart f) * 2 ^ 32 + wrap32 (LowPart f) in
  exists k s0,
    0 <= k <= 64 /\
    V / 2 ^ k <= 2000000 /\
    (forall i, 0 <= i < k -> 2000000 < V / 2 ^ i) /\
    V / 2 ^ k * 2 ^ k <= V < (V / 2 ^ k + 1) * 2 ^ k /\
    Sys_InitTimers timers_at_start (Some f) env0 = Some s0 /\
    timer_lowshift s0 = k /\
    timer_pfreq s0 = (1 / double_of_uint (V / 2 ^ k))%float /\
    timer_oldtime s0 = shifted_count k (QueryPerformanceCounter env0) /\
    (forall envs env,
       timer_lowshift (snd (run s0 envs)) = k /\
       timer_pfreq (snd (run s0 envs)) = timer_pfreq s0 /\
       timer_oldtime (snd (Sys_DoubleTime (snd (run s0 envs)) env))
         = shifted_count k (QueryPerformanceCounter env)) /\
    (0 < k < 32 -> forall pc,
       shifted_count k pc
       = wrap32 ((wrap32 (HighPart pc) * 2 ^ 32 + wrap32 (LowPart pc)) / 2 ^ k)) /\
    (0 < V -> forall d, 0 < d < 2 ^ 32 ->
       exists mv ev,
         Prim2SF (double_of_uint d * timer_pfreq s0) = S754_finite false mv ev /\
         ev <= 0 /\
         2 ^ 50 * Z.abs (Zpos mv * (V / 2 ^ k) - d * 2 ^ (- ev))
           <= d * 2 ^ (- ev)).
Proof.
  intros V.
  destruct (Sys_InitTimers_spec timers_at_start f env0) as (k & Hk & Hle & Hmin & E).
  fold V in Hle, Hmin, E.
  eexists k, _. split; [exact Hk|]. split; [exact Hle|]. split; [exact Hmin|].
  assert (Hp : 0 < 2 ^ k) by (apply Z.pow_pos_nonneg; lia).
  split.
  { split; [rewrite Z.mul_comm; apply Z.mul_div_le; exact Hp|].
    rewrite Z.mul_comm. apply Z.mul_succ_div_gt. exact Hp. }
  split; [exact E|]. cbn [timer_lowshift timer_pfreq timer_oldtime].
  split; [reflexivity|]. split; [reflexivity|]. split; [reflexivity|].
  split; [|split].
  - intros envs env.
    match goal with |- context [run ?s envs] => set (s0 := s) end.
    destruct (run_keeps_scale envs s0 eq_refl) as (Hf & Hl & Hq).
    destruct (Sys_DoubleTime_fields (snd (run s0 envs)) env Hf) as (_ & _ & Ho & _).
    cbv zeta in Ho. rewrite Hl in Ho. auto.
  - intros Hk32 pc. now apply shifted_count_value.
  - intros HV d Hd. apply delta_seconds_accurate; [exact Hd|].
    assert (Hs : 0 < V / 2 ^ k).
    { destruct (Z.eq_dec k 0) as [->|Hne].
      - change (2 ^ 0) with 1. now rewrite Z.div_1_r.
      - specialize (Hmin (k - 1) ltac:(lia)).
        assert (Ediv : V / 2 ^ k = V / 2 ^ (k - 1) / 2).
        { rewrite Z.div_div by (try apply Z.pow_pos_nonneg; lia).
          f_equal. change 2 with (2 ^ 1) at 3. rewrite <- Z.pow_add_r by lia.
          f_equal. lia. }
        rewrite Ediv. apply Z.div_str_pos. lia. }
    split; [exact Hs|]. change (2 ^ 53) with 9007199254740992. lia.
Qed.

(** The case the specification tests: 10 MHz takes three shifts, and
    1250000 shifted ticks are one second. *)
Example ten_megahertz_three_shifts :
  exists s0,
    Sys_InitTimers timers_at_start
      (Some {| LowPart := 10000000; HighPart := 0 |}) (at_pcount 0 0) = Some s0 /\
    timer_lowshift s0 = 3 /\
    (double_of_uint 1250000 * timer_pfreq s0)%float = 1%float.
Proof. eexists. split; [reflexivity|]. vm_compute. split; reflexivity. Qed.

(** C7. In fallback mode a call returns the statics as it found them;
    in particular [timer_oldtime], [curtime], [lastcurtime] and
    [sametimecount] keep their values. *)
Theorem fallback_touches_no_statics s env :
  timer_fallback s = true ->
  snd (Sys_DoubleTime s env) = s /\
  timer_oldtime (snd (Sys_DoubleTime s env)) = timer_oldtime s /\
  curtime (snd (Sys_DoubleTime s env)) = curtime s /\
  lastcurtime (snd (Sys_DoubleTime s env)) = lastcurtime s /\
  sametimecount (snd (Sys_DoubleTime s env)) = sametimecount s.
Proof.
  intros Hf. destruct (Sys_DoubleTime_fallback s env Hf) as [E _].
  rewrite E. auto.
Qed.

Lemma fallback_touches_no_statics_witness :
  snd (Sys_DoubleTime (fallback_timers 1000) (at_ms 1250)) = fallback_timers 1000.
Proof.
  exact (proj1 (fallback_touches_no_statics (fallback_timers 1000) (at_ms 1250)
                  eq_refl)).
Defined.

(** C8. [Sys_DoubleTime] has no failing path: in both files every call
    returns a value together with the next statics, whatever the statics and
    the readings are; [Sys_InitTimers] always completes, with or without a
    hardware counter, and every value then returned on Win32 compares at or
    above zero; the libretro value always equals itself, so none of them is
    a NaN. *)
Theorem Sys_DoubleTime_always_returns :
  (forall s env, exists v s', Sys_DoubleTime s env = (v, s')) /\
  (forall secbase tp, exists v sb,
     SysLibretro.Sys_DoubleTime secbase tp = (v, sb) /\ (v =? v)%float = true) /\
  (forall freq env0 envs, exists s0,
     Sys_InitTimers timers_at_start freq env0 = Some s0 /\
     all_nonneg (fst (run s0 envs)) = true).
Proof.
  split; [|split].
  - intros s env. destruct (Sys_DoubleTime s env) as [v s']. now exists v, s'.
  - intros secbase tp. pose proof (libretro_value_number secbase tp) as H.
    destruct (SysLibretro.Sys_DoubleTime secbase tp) as [v sb]. simpl in H.
    exists v, sb. split; [reflexivity|].
    rewrite eqb_spec. now apply SFeqb_number.
  - intros freq env0 envs.
    destruct (Sys_InitTimers_total timers_at_start freq env0)
      as [s0 (E & _ & Hc & Hf & Hp)].
    exists s0. split; [exact E|].
    destruct freq as [f|].
    + destruct Hp as [Hp Ho]; [discriminate|]. apply run_primary_nonneg.
      unfold timers_ok. rewrite Hf, Hc. repeat split; auto; lia.
    + now apply run_fallback.
Qed.

(** C9. From program start, with or without a call of [Sys_InitTimers]
    (which may or may not find a hardware counter) and through any number
    of calls of [Sys_DoubleTime], [sametimecount] stays between 0 and
    100000. *)
Theorem sametimecount_bounded :
  (forall envs,
     0 <= sametimecount (snd (run timers_at_start envs)) <= 100000) /\
  (forall freq env0 envs, exists s0,
     Sys_InitTimers timers_at_start freq env0 = Some s0 /\
     0 <= sametimecount (snd (run s0 envs)) <= 100000).
Proof.
  split.
  - intros envs. apply sametimecount_run. cbn [sametimecount timers_at_start]. lia.
  - intros freq env0 envs.
    destruct (Sys_InitTimers_total timers_at_start freq env0) as [s0 (E & Hc & _)].
    exists s0. split; [exact E|]. apply sametimecount_run. rewrite Hc.
    cbn [sametimecount timers_at_start]. lia.
Qed.

(** C10, counterexample. [secbase] is an [int]: of seconds that an [int]
    does not hold it keeps the low 32 bits. 2147483653 seconds are stored
    as -2147483643, and a second call in the same second returns 2^32, not
    the time since the first; 2^32 seconds are stored as 0, which leaves
    [secbase] unset for the next call. *)
Lemma libretro_secbase_truncated :
  snd (SysLibretro.Sys_DoubleTime 0
         {| SysLibretro.tv_sec := 2147483653; SysLibretro.tv_usec := 0 |})
  = -2147483643 /\
  fst (SysLibretro.Sys_DoubleTime (-2147483643)
         {| SysLibretro.tv_sec := 2147483653; SysLibretro.tv_usec := 0 |})
  = 4294967296%float /\
  snd (SysLibretro.Sys_DoubleTime 0
         {| SysLibretro.tv_sec := 4294967296; SysLibretro.tv_usec := 5 |})
  = 0.
Proof. vm_compute. repeat split; reflexivity. Qed.

(** C10, amended. The first call of the libretro [Sys_DoubleTime] (with
    [secbase] still zero) stores in [secbase] the seconds converted to
    [int]: the [int] that differs from them by a multiple of 2^32, which is
    the seconds themselves when they are in the range of an [int]; a nonzero
    [secbase] then stays. It returns the microseconds divided by 1000000:
    zero for no microseconds, else a double within a relative [2^-52] of
    [tv_usec / 10^6]; the value is in [0, 1) and does not depend on the
    seconds. *)
Theorem libretro_first_call tp :
  0 <= SysLibretro.tv_usec tp < 1000000 ->
  let r := SysLibretro.Sys_DoubleTime 0 tp in
  (- 2 ^ 31 <= snd r < 2 ^ 31 /\ (snd r - SysLibretro.tv_sec tp) mod 2 ^ 32 = 0) /\
  (- 2 ^ 31 <= SysLibretro.tv_sec tp < 2 ^ 31 -> snd r = SysLibretro.tv_sec tp) /\
  (snd r <> 0 -> forall tp', snd (SysLibretro.Sys_DoubleTime (snd r) tp') = snd r) /\
  (0 <=? fst r)%float = true /\ (fst r <? 1)%float = true /\
  (SysLibretro.tv_usec tp = 0 -> fst r = 0%float) /\
  (0 < SysLibretro.tv_usec tp ->
   exists mv ev,
     Prim2SF (fst r) = S754_finite false mv ev /\ ev < 0 /\
     2 ^ 52 * Z.abs (Zpos mv * 1000000 - SysLibretro.tv_usec tp * 2 ^ (- ev))
     <= SysLibretro.tv_usec tp * 2 ^ (- ev)) /\
  (forall tp', SysLibretro.tv_usec tp' = SysLibretro.tv_usec tp ->
     fst (SysLibretro.Sys_DoubleTime 0 tp') = fst r).
Proof.
  intros Hu r. unfold r, SysLibretro.Sys_DoubleTime.
  change (0 =? 0) with true. cbn [fst snd].
  assert (Ew : wrap_int64 (SysLibretro.tv_usec tp) = SysLibretro.tv_usec tp).
  { unfold wrap_int64. change (2 ^ 63) with 9223372036854775808.
    change (2 ^ 64) with 18446744073709551616. rewrite Z.mod_small; lia. }
  rewrite Ew.
  split.
  { unfold wrap_int32. change (2 ^ 31) with 2147483648.
    change (2 ^ 32) with 4294967296.
    pose proof (Z.mod_pos_bound (SysLibretro.tv_sec tp + 2147483648) 4294967296
                  ltac:(lia)) as B.
    split; [lia|].
    pose proof (Z.div_mod (SysLibretro.tv_sec tp + 2147483648) 4294967296
                  ltac:(lia)) as D.
    replace ((SysLibretro.tv_sec tp + 2147483648) mod 4294967296 - 2147483648
             - SysLibretro.tv_sec tp)
      with (- ((SysLibretro.tv_sec tp + 2147483648) / 4294967296) * 4294967296)
      by lia.
    apply Z.mod_mul. lia. }
  split.
  { intros Hs. unfold wrap_int32. change (2 ^ 31) with 2147483648 in *.
    change (2 ^ 32) with 4294967296. rewrite Z.mod_small; lia. }
  split.
  { intros Hne tp'. destruct (wrap_int32 (SysLibretro.tv_sec tp) =? 0) eqn:E.
    - apply Z.eqb_eq in E. contradiction.
    - reflexivity. }
  destruct (usec_fraction _ Hu) as [H0 H1].
  split; [exact H0|]. split; [exact H1|]. split; [|split].
  - intros ->. reflexivity.
  - intros Hpos. apply usec_fraction_accurate. lia.
  - intros tp' ->. now rewrite Ew.
Qed.

Lemma libretro_first_call_witness :
  (fst (SysLibretro.Sys_DoubleTime 0
          {| SysLibretro.tv_sec := 100; SysLibretro.tv_usec := 900000 |}) <? 1)%float
  = true /\
  snd (SysLibretro.Sys_DoubleTime 0
         {| SysLibretro.tv_sec := 100; SysLibretro.tv_usec := 900000 |}) = 100.
Proof.
  assert (Hu : 0 <= 900000 < 1000000) by lia.
  pose proof (libretro_first_call
                {| SysLibretro.tv_sec := 100; SysLibretro.tv_usec := 900000 |} Hu)
    as (_ & Hs & _ & _ & H1 & _).
  split; [exact H1|]. apply Hs. cbn [SysLibretro.tv_sec].
  change (2 ^ 31) with 2147483648. lia.
Defined.

(** ** Beyond the claims *)

Import WinConsole WinStartup LibretroFront WinLoop.

Lemma wrap_int8_range z : -128 <= wrap_int8 z <= 127.
Proof.
  unfold wrap_int8. pose proof (Z.mod_pos_bound (z + 128) 256 ltac:(lia)). lia.
Qed.

Lemma wrap_int8_small z : -128 <= z <= 127 -> wrap_int8 z = z.
Proof.
  intros H. unfold wrap_int8. rewrite Z.mod_small; lia.
Qed.

Lemma stored_char_range c : stored_char c = true <-> 32 <= c <= 127.
Proof.
  unfold stored_char. rewrite andb_true_iff, Z.leb_le, Z.leb_le. tauto.
Qed.

Lemma store_length buf : forall i c, length (store buf i c) = length buf.
Proof.
  induction buf as [|b buf IH]; intros [|i] c; cbn [store length]; auto.
Qed.

Lemma store_firstn buf : forall i c, firstn i (store buf i c) = firstn i buf.
Proof.
  induction buf as [|b buf IH]; intros [|i] c; cbn [store firstn]; auto.
  now rewrite IH.
Qed.

Lemma store_split buf : forall i c, (i < length buf)%nat ->
  store buf i c = firstn i buf ++ c :: skipn (S i) buf.
Proof.
  induction buf as [|b buf IH]; intros [|i] c H; cbn [length] in H;
    cbn [store firstn skipn app]; try lia; auto.
  rewrite (IH i c) by lia. reflexivity.
Qed.

Lemma firstn_succ_store buf i c : (i < length buf)%nat ->
  firstn (S i) (store buf i c) = firstn i buf ++ [c].
Proof.
  intros H. rewrite (store_split buf i c H).
  assert (L : length (firstn i buf) = i) by (rewrite length_firstn; lia).
  replace (S i) with (length (firstn i buf) + 1)%nat by lia.
  rewrite firstn_app_2. reflexivity.
Qed.

Lemma cstring_app l r :
  forallb stored_char l = true -> cstring (l ++ 0 :: r) = l.
Proof.
  induction l as [|c l IH]; intros H; cbn [app cstring].
  - reflexivity.
  - cbn [forallb] in H. apply andb_true_iff in H. destruct H as [Hc Hl].
    apply stored_char_range in Hc.
    destruct (c =? 0) eqn:E; [apply Z.eqb_eq in E; lia|].
    now rewrite IH.
Qed.

Lemma cstring_store buf i :
  (i < length buf)%nat -> forallb stored_char (firstn i buf) = true ->
  cstring (store buf i 0) = firstn i buf.
Proof.
  intros H F. rewrite (store_split buf i 0 H). now apply cstring_app.
Qed.

Lemma forallb_firstn {A} (f : A -> bool) l : forall n,
  forallb f l = true -> forallb f (firstn n l) = true.
Proof.
  induction l as [|x l IH]; intros [|n] H; cbn [firstn forallb] in *; auto.
  apply andb_true_iff in H. destruct H as [H1 H2].
  rewrite H1. cbn [andb]. now apply IH.
Qed.

Lemma firstn_firstn_le {A} (l : list A) n m :
  (n <= m)%nat -> firstn n (firstn m l) = firstn n l.
Proof.
  intros H. rewrite firstn_firstn. f_equal. lia.
Qed.

Lemma land_255 n : Z.land n 255 = n mod 256.
Proof.
  change 255 with (Z.ones 8). rewrite Z.land_ones by lia. reflexivity.
Qed.

(** *** One answer of the console *)

(** The characters typed so far. *)
Local Abbreviation line s := (firstn (Z.to_nat (len s)) (text s)).

Lemma console_loop_event s r polls :
  console_loop s (event r :: polls)
  = match r with
    | KEY_EVENT false AsciiChar =>
        let ch := wrap_int8 AsciiChar in
        if ch =? 13 then
          let s := WriteFile s [13; 10] in
          if negb (len s =? 0) then
            let t := store (text s) (Z.to_nat (len s)) 0 in
            (Returned (Some (cstring t)), set_line s t 0, polls)
          else if sc_return_on_enter s then
            let t := store (text s) 0 13 in
            (Returned (Some (cstring t)), set_line s t 0, polls)
          else console_loop s polls
        else if ch =? 8 then
          let s := WriteFile s [8; 32; 8] in
          if negb (len s =? 0) then
            console_loop (set_line s (text s) (len s - 1)) polls
          else console_loop s polls
        else if 32 <=? ch then
          let s := WriteFile s [ch mod 256] in
          console_loop
            (set_line s (store (text s) (Z.to_nat (len s)) ch)
               (Z.land (len s + 1) 255))
            polls
        else console_loop s polls
    | _ => console_loop s polls
    end.
Proof. reflexivity. Qed.

(** A character from the space up is echoed and stored at [len], which
    moves on modulo 256. *)
Lemma console_loop_char s c polls :
  stored_char c = true ->
  console_loop s (key_up c :: polls)
  = console_loop
      (set_line (WriteFile s [c]) (store (text s) (Z.to_nat (len s)) c)
         ((len s + 1) mod 256))
      polls.
Proof.
  intros H. apply stored_char_range in H.
  unfold key_up. rewrite console_loop_event. cbv zeta.
  rewrite wrap_int8_small by lia.
  destruct (c =? 13) eqn:E1; [apply Z.eqb_eq in E1; lia|].
  destruct (c =? 8) eqn:E2; [apply Z.eqb_eq in E2; lia|].
  destruct (32 <=? c) eqn:E3; [|apply Z.leb_gt in E3; lia].
  rewrite Z.mod_small by lia. cbn [WriteFile len text]. now rewrite land_255.
Qed.

(** A backspace is echoed as backspace, space, backspace, and takes one off
    [len] unless it is zero. *)
Lemma console_loop_backspace s polls :
  0 <= len s ->
  console_loop s (key_up 8 :: polls)
  = console_loop
      (set_line (WriteFile s [8; 32; 8]) (text s) (Z.max 0 (len s - 1))) polls.
Proof.
  intros H. unfold key_up. rewrite console_loop_event. cbv zeta.
  change (wrap_int8 8) with 8. change (8 =? 13) with false.
  change (8 =? 8) with true. cbv iota. cbn [WriteFile len text].
  destruct (len s =? 0) eqn:E; cbn [negb].
  - apply Z.eqb_eq in E. replace (Z.max 0 (len s - 1)) with (len s) by lia.
    destruct s; reflexivity.
  - apply Z.eqb_neq in E. replace (Z.max 0 (len s - 1)) with (len s - 1) by lia.
    reflexivity.
Qed.

(** Enter is echoed as carriage return, line feed. With characters typed,
    the line is terminated and returned, and [len] starts again at zero. *)
Lemma console_loop_enter s polls :
  console_ok s -> len s <> 0 ->
  console_loop s (key_up 13 :: polls)
  = (Returned (Some (line s)),
     set_line (WriteFile s [13; 10]) (store (text s) (Z.to_nat (len s)) 0) 0,
     polls).
Proof.
  intros (HL & Hn & HF) H0. unfold key_up. rewrite console_loop_event. cbv zeta.
  change (wrap_int8 13) with 13. change (13 =? 13) with true. cbv iota.
  cbn [WriteFile len text]. apply Z.eqb_neq in H0. rewrite H0. cbn [negb].
  rewrite cstring_store; [reflexivity|lia|exact HF].
Qed.

(** With nothing typed, Enter returns only if [sc_return_on_enter] is set:
    a carriage return is then stored at [text[0]], and what follows it in
    the buffer is left as it was. *)
Lemma console_loop_enter_empty s polls :
  console_ok s -> len s = 0 ->
  console_loop s (key_up 13 :: polls)
  = if sc_return_on_enter s then
      (Returned (Some (13 :: cstring (tl (text s)))),
       set_line (WriteFile s [13; 10]) (store (text s) 0 13) 0, polls)
    else console_loop (WriteFile s [13; 10]) polls.
Proof.
  intros (HL & Hn & HF) H0. unfold key_up. rewrite console_loop_event. cbv zeta.
  change (wrap_int8 13) with 13. change (13 =? 13) with true. cbv iota.
  cbn [WriteFile len text sc_return_on_enter]. rewrite H0.
  change (0 =? 0) with true. cbn [negb].
  destruct (sc_return_on_enter s); [|reflexivity].
  destruct (text s) as [|b t]; [discriminate HL|]. reflexivity.
Qed.

Lemma console_loop_passed_over s p polls :
  passed_over p = true -> console_loop s (p :: polls) = console_loop s polls.
Proof.
  unfold passed_over. intros H.
  apply andb_true_iff in H. destruct H as [H H5].
  apply andb_true_iff in H. destruct H as [H H4].
  apply andb_true_iff in H. destruct H as [H H3].
  apply andb_true_iff in H. destruct H as [H1 H2].
  apply negb_true_iff in H2.
  cbn [console_loop]. rewrite H1, H2, H3, H4. cbn [negb].
  destruct (recs0 p) as [[|] c|]; try reflexivity.
  cbv zeta in *.
  apply andb_true_iff in H5. destruct H5 as [H5 H8].
  apply andb_true_iff in H5. destruct H5 as [H6 H7].
  apply negb_true_iff in H6, H7, H8. rewrite H6, H7, H8. reflexivity.
Qed.

(** *** The statics stay in order *)

Lemma console_ok_WriteFile s bytes : console_ok s -> console_ok (WriteFile s bytes).
Proof. intros H. exact H. Qed.

Lemma console_ok_restart s t :
  length t = 256%nat -> console_ok (set_line s t 0).
Proof.
  intros H. unfold console_ok. cbn [set_line text len]. repeat split; auto; lia.
Qed.

Lemma console_ok_back s :
  console_ok s -> console_ok (set_line s (text s) (Z.max 0 (len s - 1))).
Proof.
  intros (HL & Hn & HF). unfold console_ok. cbn [set_line text len].
  repeat split; auto; try lia.
  rewrite <- (firstn_firstn_le (text s) _ (Z.to_nat (len s))) by lia.
  now apply forallb_firstn.
Qed.

Lemma console_ok_char s c :
  console_ok s -> stored_char c = true ->
  console_ok (set_line s (store (text s) (Z.to_nat (len s)) c)
                ((len s + 1) mod 256)).
Proof.
  intros (HL & Hn & HF) Hc. unfold console_ok. cbn [set_line text len].
  pose proof (Z.mod_pos_bound (len s + 1) 256 ltac:(lia)) as Hm.
  split; [now rewrite store_length|]. split; [lia|].
  destruct (Z.eq_dec (len s) 255) as [E|E].
  - rewrite E. reflexivity.
  - rewrite Z.mod_small by lia.
    replace (Z.to_nat (len s + 1)) with (S (Z.to_nat (len s))) by lia.
    rewrite firstn_succ_store by lia.
    rewrite forallb_app, HF. cbn [forallb]. now rewrite Hc.
Qed.

Lemma stored_char_wrap c : (32 <=? wrap_int8 c) = true -> stored_char (wrap_int8 c) = true.
Proof.
  intros H. apply Z.leb_le in H. apply stored_char_range.
  pose proof (wrap_int8_range c). lia.
Qed.

Lemma console_grows_refl s : console_grows s s.
Proof. repeat split. exists []. now rewrite app_nil_r. Qed.

Lemma console_grows_trans s1 s2 s3 :
  console_grows s1 s2 -> console_grows s2 s3 -> console_grows s1 s3.
Proof.
  intros (A1 & B1 & x & C1) (A2 & B2 & y & C2). repeat split; try congruence.
  exists (x ++ y). now rewrite C2, C1, app_assoc.
Qed.

Lemma console_grows_write s bytes t n :
  console_grows s (set_line (WriteFile s bytes) t n).
Proof. repeat split. now exists bytes. Qed.

Lemma console_loop_ok polls : forall s,
  console_ok s ->
  console_ok (snd (fst (console_loop s polls))) /\
  console_grows s (snd (fst (console_loop s polls))).
Proof.
  induction polls as [|p polls IH]; intros s Hok.
  - cbn [console_loop fst snd]. split; [exact Hok|apply console_grows_refl].
  - cbn [console_loop].
    destruct (negb (events_ok p));
      [cbn [fst snd]; split; [exact Hok|apply console_grows_refl]|].
    destruct (numevents p <=? 0);
      [cbn [fst snd]; split; [exact Hok|apply console_grows_refl]|].
    destruct (negb (read_ok p));
      [cbn [fst snd]; split; [exact Hok|apply console_grows_refl]|].
    destruct (negb (numread p =? 1));
      [cbn [fst snd]; split; [exact Hok|apply console_grows_refl]|].
    destruct (recs0 p) as [[|] c|]; try (now apply IH).
    cbv zeta. pose proof Hok as (HL & Hn & HF).
    destruct (wrap_int8 c =? 13) eqn:E13.
    + cbn [WriteFile len text sc_return_on_enter].
      destruct (negb (len s =? 0)).
      * cbn [fst snd]. split.
        -- apply console_ok_restart. now rewrite store_length.
        -- apply console_grows_write.
      * destruct (sc_return_on_enter s).
        -- cbn [fst snd]. split.
           ++ apply console_ok_restart. now rewrite store_length.
           ++ apply console_grows_write.
        -- destruct (IH (WriteFile s [13; 10]) Hok) as [I1 I2]. split; [exact I1|].
           eapply console_grows_trans; [|exact I2].
           repeat split. now exists [13; 10].
    + destruct (wrap_int8 c =? 8) eqn:E8.
      * cbn [WriteFile len text].
        destruct (len s =? 0) eqn:E0; cbn [negb].
        -- destruct (IH (WriteFile s [8; 32; 8]) Hok) as [I1 I2]. split; [exact I1|].
           eapply console_grows_trans; [|exact I2].
           repeat split. now exists [8; 32; 8].
        -- apply Z.eqb_neq in E0.
           pose proof (console_ok_back s Hok) as Hb.
           replace (Z.max 0 (len s - 1)) with (len s - 1) in Hb by lia.
           destruct (IH (set_line (WriteFile s [8; 32; 8]) (text s) (len s - 1)) Hb)
             as [I1 I2].
           split; [exact I1|].
           eapply console_grows_trans; [|exact I2]. apply console_grows_write.
      * destruct (32 <=? wrap_int8 c) eqn:E32; [|now apply IH].
        cbn [WriteFile len text]. rewrite land_255.
        pose proof (console_ok_char s (wrap_int8 c) Hok (stored_char_wrap c E32)) as Hc.
        match goal with |- context [console_loop ?s1 polls] =>
          destruct (IH s1 Hc) as [I1 I2] end.
        split; [exact I1|].
        eapply console_grows_trans; [|exact I2]. apply console_grows_write.
Qed.

(** *** Typing *)

Lemma typing_chars w : forall s polls,
  console_ok s -> forallb stored_char w = true ->
  exists s',
    console_loop s (map key_up w ++ polls) = console_loop s' polls /\
    console_ok s' /\
    isDedicated s' = isDedicated s /\
    sc_return_on_enter s' = sc_return_on_enter s /\
    houtput s' = houtput s ++ w /\
    len s' = (len s + Z.of_nat (length w)) mod 256 /\
    line s'
    = skipn (Z.to_nat (len s + Z.of_nat (length w)
                       - (len s + Z.of_nat (length w)) mod 256))
        (line s ++ w).
Proof.
  induction w as [|c w IH]; intros s polls Hok Hw.
  - exists s. pose proof Hok as (HL & Hn & HF).
    cbn [map app length Z.of_nat]. rewrite Z.add_0_r, Z.mod_small by lia.
    rewrite Z.sub_diag, !app_nil_r. cbn [Z.to_nat skipn]. repeat split; auto; lia.
  - cbn [forallb] in Hw. apply andb_true_iff in Hw. destruct Hw as [Hc Hw].
    cbn [map app]. rewrite console_loop_char by exact Hc.
    pose proof (console_ok_char s c Hok Hc) as Hok1.
    pose proof Hok as (HL & Hn & HF).
    match goal with |- context [console_loop ?s0 (_ ++ polls)] => set (s1 := s0) in * end.
    destruct (IH s1 polls Hok1 Hw) as (s' & E & Hok' & Hd & Hsc & Ho & Hlen & Hline).
    exists s'. split; [exact E|]. split; [exact Hok'|].
    split; [exact Hd|]. split; [exact Hsc|].
    split; [rewrite Ho; unfold s1; cbn [set_line WriteFile houtput];
            now rewrite <- app_assoc|].
    assert (L1 : len s1 = (len s + 1) mod 256) by reflexivity.
    assert (T1 : text s1 = store (text s) (Z.to_nat (len s)) c) by reflexivity.
    cbn [length]. rewrite Nat2Z.inj_succ.
    set (n := Z.of_nat (length w)) in *.
    assert (Hn0 : 0 <= n) by (unfold n; lia).
    assert (Em : (len s1 + n) mod 256 = (len s + Z.succ n) mod 256).
    { rewrite L1, Z.add_mod_idemp_l by lia. f_equal. lia. }
    split; [now rewrite Hlen, Em|].
    rewrite Hline, Em, L1, T1.
    destruct (Z.eq_dec (len s) 255) as [E255|E255].
    + rewrite E255. change ((255 + 1) mod 256) with 0.
      change (Z.to_nat 0) with 0%nat. cbn [firstn app].
      pose proof (Z.mod_pos_bound (255 + Z.succ n) 256 ltac:(lia)) as Hm.
      assert (Ek : (255 + Z.succ n) mod 256 = n mod 256).
      { replace (255 + Z.succ n) with (n + 1 * 256) by lia.
        now rewrite Z.mod_add by lia. }
      rewrite Ek in *.
      pose proof (Z.mod_le n 256 Hn0 ltac:(lia)) as Hle.
      replace (Z.to_nat (255 + Z.succ n - n mod 256))
        with (256 + Z.to_nat (0 + n - n mod 256))%nat by lia.
      assert (LL : length (firstn (Z.to_nat 255) (text s) ++ [c]) = 256%nat).
      { rewrite length_app, length_firstn. cbn [length]. lia. }
      change (c :: w) with ([c] ++ w). rewrite app_assoc.
      rewrite skipn_app, LL.
      rewrite (skipn_all2 (firstn (Z.to_nat 255) (text s) ++ [c])) by (rewrite LL; lia).
      cbn [app]. f_equal. lia.
    + rewrite (Z.mod_small (len s + 1)) by lia.
      replace (Z.to_nat (len s + 1)) with (S (Z.to_nat (len s))) by lia.
      rewrite firstn_succ_store by lia.
      rewrite <- app_assoc. cbn [app].
      replace (len s + 1 + n) with (len s + Z.succ n) by lia. reflexivity.
Qed.

Lemma backspaces k : forall s polls,
  console_ok s ->
  exists s',
    console_loop s (repeat (key_up 8) k ++ polls) = console_loop s' polls /\
    console_ok s' /\
    isDedicated s' = isDedicated s /\
    sc_return_on_enter s' = sc_return_on_enter s /\
    houtput s' = houtput s ++ concat (repeat [8; 32; 8] k) /\
    text s' = text s /\
    len s' = Z.max 0 (len s - Z.of_nat k).
Proof.
  induction k as [|k IH]; intros s polls Hok.
  - exists s. pose proof Hok as (HL & Hn & HF). cbn [repeat app concat].
    rewrite app_nil_r. cbn [Z.of_nat]. repeat split; auto; lia.
  - pose proof Hok as (HL & Hn & HF).
    cbn [repeat app]. rewrite console_loop_backspace by lia.
    pose proof (console_ok_back s Hok) as Hok1.
    destruct (IH (set_line (WriteFile s [8; 32; 8]) (text s) (Z.max 0 (len s - 1)))
                polls Hok1)
      as (s' & E & Hok' & Hd & Hsc & Ho & Ht & Hlen).
    exists s'. split; [exact E|]. split; [exact Hok'|].
    split; [exact Hd|]. split; [exact Hsc|].
    cbn [set_line WriteFile houtput text len] in Ho, Ht, Hlen.
    split; [rewrite Ho; cbn [concat]; now rewrite <- app_assoc|].
    split; [exact Ht|]. rewrite Hlen, Nat2Z.inj_succ. lia.
Qed.

(** *** Lines *)

Lemma Sys_ConsoleInput_dedicated s polls :
  isDedicated s = true -> Sys_ConsoleInput s polls = console_loop s polls.
Proof. intros H. unfold Sys_ConsoleInput. now rewrite H. Qed.

(** Characters typed on an empty line, then Enter: what was stored since
    [len] last came round to zero is returned. *)
Lemma line_returned s w rest :
  console_ok s -> len s = 0 -> forallb stored_char w = true ->
  Z.of_nat (length w) mod 256 <> 0 ->
  exists s',
    console_loop s (map key_up w ++ key_up 13 :: rest)
    = (Returned
         (Some (skipn (Z.to_nat (Z.of_nat (length w)
                                 - Z.of_nat (length w) mod 256)) w)),
       s', rest) /\
    console_ok s' /\ len s' = 0 /\
    isDedicated s' = isDedicated s /\
    sc_return_on_enter s' = sc_return_on_enter s /\
    houtput s' = houtput s ++ w ++ [13; 10].
Proof.
  intros Hok H0 Hw Hm.
  destruct (typing_chars w s (key_up 13 :: rest) Hok Hw)
    as (s1 & E & Hok1 & Hd & Hsc & Ho & Hlen & Hline).
  rewrite H0, Z.add_0_l in Hlen, Hline. cbn [Z.to_nat firstn app] in Hline.
  rewrite E, console_loop_enter by (try exact Hok1; rewrite Hlen; exact Hm).
  rewrite Hline. eexists. split; [reflexivity|].
  pose proof Hok1 as (HL & Hn & HF).
  split; [apply console_ok_restart; now rewrite store_length|].
  cbn [set_line WriteFile len isDedicated sc_return_on_enter houtput].
  repeat split; auto. now rewrite Ho, <- app_assoc.
Qed.

(** With fewer than 256 characters that is the line as typed. *)
Lemma skipn_short (w : list Z) :
  Z.of_nat (length w) < 256 ->
  skipn (Z.to_nat (Z.of_nat (length w) - Z.of_nat (length w) mod 256)) w = w.
Proof.
  intros H. rewrite Z.mod_small by lia. rewrite Z.sub_diag. reflexivity.
Qed.

Lemma typed_line_spec w :
  typed_line w = true <->
  0 < Z.of_nat (length w) < 256 /\ forallb stored_char w = true.
Proof.
  unfold typed_line. rewrite !andb_true_iff, !Z.ltb_lt. tauto.
Qed.

Lemma typed_line_returned s w rest :
  console_ok s -> len s = 0 -> typed_line w = true ->
  exists s',
    console_loop s (map key_up w ++ key_up 13 :: rest)
    = (Returned (Some w), s', rest) /\
    console_ok s' /\ len s' = 0 /\
    isDedicated s' = isDedicated s /\
    sc_return_on_enter s' = sc_return_on_enter s /\
    houtput s' = houtput s ++ w ++ [13; 10].
Proof.
  intros Hok H0 Hw. apply typed_line_spec in Hw. destruct Hw as [Hl Hw].
  destruct (line_returned s w rest Hok H0 Hw) as (s' & E & H).
  { rewrite Z.mod_small; lia. }
  rewrite skipn_short in E by lia. now exists s'.
Qed.

Lemma console_loop_no_events s rest :
  console_loop s (no_events :: rest) = (Returned None, s, rest).
Proof. reflexivity. Qed.

Lemma console_at_start_ok dedicated : console_ok (console_at_start dedicated).
Proof.
  unfold console_ok. cbn [console_at_start text len].
  split; [apply repeat_length|]. split; [lia|reflexivity].
Qed.

(** X1. The statics of [Sys_ConsoleInput] are in order at program start
    and every call keeps them so, whatever the console answers: [text] has
    its 256 bytes, [len] stays between 0 and 255, so that [text[len]] is
    inside the array, and the characters below [len] are from the space up.
    A call changes neither [isDedicated] nor [sc_return_on_enter] and only
    appends to the output. *)
Theorem Sys_ConsoleInput_keeps_buffer :
  (forall dedicated, console_ok (console_at_start dedicated)) /\
  (forall s polls,
     console_ok s ->
     console_ok (snd (fst (Sys_ConsoleInput s polls))) /\
     console_grows s (snd (fst (Sys_ConsoleInput s polls)))).
Proof.
  split.
  - exact console_at_start_ok.
  - intros s polls Hok. unfold Sys_ConsoleInput.
    destruct (isDedicated s); cbn [negb].
    + now apply console_loop_ok.
    + cbn [fst snd]. split; [exact Hok|apply console_grows_refl].
Qed.

(** X2. On the dedicated server, characters from the space up typed on an
    empty line and followed by Enter are echoed and returned as the line,
    the events after Enter staying in the queue, as long as there are fewer
    than 256 of them. [len] is counted modulo 256: of a longer line only the
    characters after the last multiple of 256 are returned, and of a line of
    exactly a multiple of 256 characters nothing is: Enter then finds the
    line empty. *)
Theorem Sys_ConsoleInput_line s w rest :
  console_ok s -> isDedicated s = true -> len s = 0 ->
  forallb stored_char w = true ->
  let n := Z.of_nat (length w) in
  (n mod 256 <> 0 ->
   exists s',
     Sys_ConsoleInput s (map key_up w ++ key_up 13 :: rest)
     = (Returned (Some (skipn (Z.to_nat (n - n mod 256)) w)), s', rest) /\
     len s' = 0 /\ houtput s' = houtput s ++ w ++ [13; 10]) /\
  (0 < n < 256 -> skipn (Z.to_nat (n - n mod 256)) w = w) /\
  (n mod 256 = 0 ->
   exists s',
     Sys_ConsoleInput s (map key_up w ++ key_up 13 :: rest)
     = Sys_ConsoleInput s' (key_up 13 :: rest) /\
     len s' = 0 /\ houtput s' = houtput s ++ w /\
     (sc_return_on_enter s = false ->
      Sys_ConsoleInput s' (key_up 13 :: rest)
      = Sys_ConsoleInput (WriteFile s' [13; 10]) rest)).
Proof.
  intros Hok Hd H0 Hw n. split; [|split].
  - intros Hm. rewrite Sys_ConsoleInput_dedicated by exact Hd.
    destruct (line_returned s w rest Hok H0 Hw Hm) as (s' & E & _ & Hl & _ & _ & Ho).
    exists s'. auto.
  - intros Hn. apply skipn_short. lia.
  - intros Hm.
    destruct (typing_chars w s (key_up 13 :: rest) Hok Hw)
      as (s1 & E & Hok1 & Hd1 & Hsc & Ho & Hlen & _).
    rewrite H0, Z.add_0_l in Hlen. fold n in Hlen. rewrite Hm in Hlen.
    exists s1. rewrite !Sys_ConsoleInput_dedicated by congruence.
    split; [exact E|]. split; [exact Hlen|]. split; [exact Ho|].
    intros Hoff. rewrite console_loop_enter_empty by assumption.
    rewrite Hsc, Hoff. now rewrite Sys_ConsoleInput_dedicated by (cbn; congruence).
Qed.

Lemma Sys_ConsoleInput_line_witness :
  exists s',
    Sys_ConsoleInput (console_at_start true)
      (map key_up (chars "status"%string) ++ key_up 13 :: [no_events])
    = (Returned (Some (chars "status"%string)), s', [no_events]) /\
    len s' = 0 /\ houtput s' = [] ++ chars "status"%string ++ [13; 10].
Proof.
  pose proof (Sys_ConsoleInput_line (console_at_start true) (chars "status"%string)
                [no_events]
                (console_at_start_ok true) eq_refl eq_refl eq_refl)
    as (H & _ & _).
  apply H. vm_compute. discriminate.
Defined.

(** X3. Backspace takes back the last character typed, and does nothing
    to an empty line but is echoed all the same. On a line that starts
    empty, after fewer than 256 characters [u], [k] backspaces, then [w]
    and Enter, with fewer than 256 characters left, [u] and [w] being of
    characters from the space to 127, the echo holds [u],
    then backspace, space, backspace for each of the [k], then [w] and the
    end of line. What is left is [u] without its last [k] characters (or
    without all of them) followed by [w]: if that is not empty it is the
    line returned; if it is empty, and [sc_return_on_enter] is off, no line
    is returned and the call goes on with the events that follow. *)
Theorem Sys_ConsoleInput_backspace s u k w rest :
  console_ok s -> isDedicated s = true -> len s = 0 ->
  forallb stored_char u = true -> forallb stored_char w = true ->
  (length u < 256)%nat ->
  (length (firstn (length u - k) u ++ w) < 256)%nat ->
  exists s',
    len s' = 0 /\
    houtput s'
    = houtput s ++ u ++ concat (repeat [8; 32; 8] k) ++ w ++ [13; 10] /\
    (firstn (length u - k) u ++ w <> [] ->
     Sys_ConsoleInput s
       (map key_up u ++ repeat (key_up 8) k ++ map key_up w ++ key_up 13 :: rest)
     = (Returned (Some (firstn (length u - k) u ++ w)), s', rest)) /\
    (firstn (length u - k) u ++ w = [] -> sc_return_on_enter s = false ->
     Sys_ConsoleInput s
       (map key_up u ++ repeat (key_up 8) k ++ map key_up w ++ key_up 13 :: rest)
     = Sys_ConsoleInput s' rest).
Proof.
  intros Hok Hd H0 Hu Hw Lu Lw.
  rewrite Sys_ConsoleInput_dedicated by exact Hd.
  destruct (typing_chars u s (repeat (key_up 8) k ++ map key_up w ++ key_up 13 :: rest)
              Hok Hu)
    as (s1 & E1 & Hok1 & Hd1 & Hsc1 & Ho1 & Hlen1 & Hline1).
  rewrite H0, Z.add_0_l in Hlen1, Hline1.
  rewrite Z.mod_small in Hlen1, Hline1 by lia.
  rewrite Z.sub_diag in Hline1. cbn [Z.to_nat firstn app skipn] in Hline1.
  rewrite Hlen1, Nat2Z.id in Hline1.
  destruct (backspaces k s1 (map key_up w ++ key_up 13 :: rest) Hok1)
    as (s2 & E2 & Hok2 & Hd2 & Hsc2 & Ho2 & Ht2 & Hlen2).
  assert (N2 : Z.to_nat (len s2) = (length u - k)%nat) by lia.
  assert (Hline2 : line s2 = firstn (length u - k) u).
  { rewrite N2, Ht2. rewrite <- (firstn_firstn_le (text s1) _ (length u)) by lia.
    now rewrite Hline1. }
  rewrite length_app, length_firstn in Lw.
  destruct (typing_chars w s2 (key_up 13 :: rest) Hok2 Hw)
    as (s3 & E3 & Hok3 & Hd3 & Hsc3 & Ho3 & Hlen3 & Hline3).
  rewrite Z.mod_small in Hlen3, Hline3 by lia.
  rewrite Z.sub_diag in Hline3. cbn [Z.to_nat skipn] in Hline3.
  rewrite E1, E2, E3.
  assert (Ho : houtput s3 ++ [13; 10]
               = houtput s ++ u ++ concat (repeat [8; 32; 8] k) ++ w ++ [13; 10]).
  { rewrite Ho3, Ho2, Ho1. now rewrite <- !app_assoc. }
  assert (El : line s3 = firstn (length u - k) u ++ w)
    by now rewrite Hline3, Hline2.
  destruct (Z.eq_dec (len s3) 0) as [Z0|Z0].
  - (* nothing is left on the line *)
    exists (WriteFile s3 [13; 10]).
    split; [exact Z0|]. split; [exact Ho|].
    assert (Enil : firstn (length u - k) u ++ w = []).
    { apply length_zero_iff_nil. rewrite length_app, length_firstn. lia. }
    split; [intros Hne; now rewrite Enil in Hne|].
    intros _ Hoff. rewrite console_loop_enter_empty by assumption.
    rewrite Hsc3, Hsc2, Hsc1, Hoff.
    rewrite Sys_ConsoleInput_dedicated; [reflexivity|].
    cbn [WriteFile isDedicated]. congruence.
  - eexists. split; [|split; [|split]].
    3:{ intros _. rewrite console_loop_enter by assumption. rewrite El.
        reflexivity. }
    + reflexivity.
    + exact Ho.
    + intros Enil. exfalso. apply Z0. rewrite Hlen3, Hlen2.
      apply (f_equal (@length Z)) in Enil.
      rewrite length_app, length_firstn in Enil. cbn [length] in Enil. lia.
Qed.

Lemma Sys_ConsoleInput_backspace_witness :
  exists s',
    len s' = 0 /\
    houtput s'
    = [] ++ chars "mapp e1"%string ++ concat (repeat [8; 32; 8] 4)
      ++ chars " e1m1"%string ++ [13; 10] /\
    Sys_ConsoleInput (console_at_start true)
      (map key_up (chars "mapp e1"%string) ++ repeat (key_up 8) 4
       ++ map key_up (chars " e1m1"%string) ++ key_up 13 :: [no_events])
    = (Returned (Some (firstn (7 - 4) (chars "mapp e1"%string)
                       ++ chars " e1m1"%string)), s', [no_events]).
Proof.
  destruct (Sys_ConsoleInput_backspace (console_at_start true)
              (chars "mapp e1"%string) 4 (chars " e1m1"%string) [no_events]
              (console_at_start_ok true) eq_refl eq_refl eq_refl eq_refl)
    as (s' & Hl & Ho & Hr & _).
  - vm_compute. lia.
  - vm_compute. lia.
  - exists s'. split; [exact Hl|]. split; [exact Ho|]. apply Hr.
    vm_compute. discriminate.
Defined.

(** X4. The loop passes over every key going down, every event that is no
    key event, and every released key whose character is neither Enter nor
    backspace and is below the space (the tab and escape among them, and, the
    character being a signed [CHAR], every code from 128 to 255): with such
    events taken out of the queue a call ends the same way, with the same
    statics and the same output. *)
Theorem Sys_ConsoleInput_passes_over :
  (forall s polls,
     fst (Sys_ConsoleInput s polls)
     = fst (Sys_ConsoleInput s (filter (fun p => negb (passed_over p)) polls))) /\
  (forall c, passed_over (event (KEY_EVENT true c)) = true) /\
  passed_over (event OTHER_EVENT) = true /\
  (forall c, 128 <= c <= 255 \/ 0 <= c < 8 \/ 8 < c < 13 \/ 13 < c < 32 ->
             passed_over (key_up c) = true).
Proof.
  split; [|split; [|split]].
  - intros s polls. unfold Sys_ConsoleInput.
    destruct (isDedicated s); cbn [negb]; [|reflexivity].
    revert s. induction polls as [|p polls IH]; intros s; [reflexivity|].
    cbn [filter]. destruct (passed_over p) eqn:P; cbn [negb].
    + rewrite console_loop_passed_over by exact P. apply IH.
    + cbn [console_loop].
      destruct (negb (events_ok p)); [reflexivity|].
      destruct (numevents p <=? 0); [reflexivity|].
      destruct (negb (read_ok p)); [reflexivity|].
      destruct (negb (numread p =? 1)); [reflexivity|].
      destruct (recs0 p) as [[|] c|]; try apply IH.
      cbv zeta.
      destruct (wrap_int8 c =? 13).
      * destruct (negb (len (WriteFile s [13; 10]) =? 0)); [reflexivity|].
        destruct (sc_return_on_enter (WriteFile s [13; 10])); [reflexivity|].
        apply IH.
      * destruct (wrap_int8 c =? 8).
        -- destruct (negb (len (WriteFile s [8; 32; 8]) =? 0)); apply IH.
        -- destruct (32 <=? wrap_int8 c); apply IH.
  - intros c. reflexivity.
  - reflexivity.
  - intros c Hc. unfold passed_over, key_up, event.
    cbn [events_ok numevents read_ok numread recs0].
    change (1 <=? 0) with false. change (1 =? 1) with true. cbn [negb andb].
    cbv zeta.
    assert (R : -128 <= wrap_int8 c < 32 /\ wrap_int8 c <> 13 /\ wrap_int8 c <> 8).
    { unfold wrap_int8.
      destruct (Z_lt_le_dec c 128) as [L|L].
      - rewrite Z.mod_small by lia. lia.
      - replace (c + 128) with (c - 128 + 1 * 256) by lia.
        rewrite Z.mod_add, Z.mod_small by lia. lia. }
    destruct R as (R1 & R2 & R3).
    apply Z.eqb_neq in R2, R3. rewrite R2, R3.
    destruct (32 <=? wrap_int8 c) eqn:E; [apply Z.leb_le in E; lia|reflexivity].
Qed.

(** X5. With [sc_return_on_enter] set, as [Sys_Error] sets it, a released
    Enter always ends the call with a line that is not empty, so that the
    caller sees no [NULL]. With characters typed that line is what was
    typed; on an empty line it is a carriage return followed by whatever the
    buffer held from [text[1]] on, which is not cleared. *)
Theorem Sys_ConsoleInput_enter_exits s rest :
  console_ok s -> isDedicated s = true -> sc_return_on_enter s = true ->
  exists l s',
    Sys_ConsoleInput s (key_up 13 :: rest) = (Returned (Some l), s', rest) /\
    l <> [] /\ len s' = 0 /\
    (len s <> 0 -> l = firstn (Z.to_nat (len s)) (text s)) /\
    (len s = 0 -> l = 13 :: cstring (tl (text s))).
Proof.
  intros Hok Hd Hsc. rewrite Sys_ConsoleInput_dedicated by exact Hd.
  pose proof Hok as (HL & Hn & HF).
  destruct (Z.eq_dec (len s) 0) as [E|E].
  - rewrite console_loop_enter_empty, Hsc by assumption.
    eexists _, _. split; [reflexivity|]. split; [discriminate|].
    split; [reflexivity|]. split; [contradiction|reflexivity].
  - rewrite console_loop_enter by assumption.
    eexists _, _. split; [reflexivity|]. split.
    + intros Hnil. apply (f_equal (@length Z)) in Hnil.
      rewrite length_firstn in Hnil. cbn [length] in Hnil. lia.
    + split; [reflexivity|]. split; [reflexivity|contradiction].
Qed.

Lemma Sys_ConsoleInput_enter_exits_witness :
  exists l s',
    Sys_ConsoleInput
      {| isDedicated := true; sc_return_on_enter := true;
         text := chars "quit"%string ++ repeat 0 252; len := 0; houtput := [] |}
      (key_up 13 :: [no_events])
    = (Returned (Some l), s', [no_events]) /\
    l = 13 :: chars "uit"%string.
Proof.
  destruct (Sys_ConsoleInput_enter_exits
              {| isDedicated := true; sc_return_on_enter := true;
                 text := chars "quit"%string ++ repeat 0 252; len := 0;
                 houtput := [] |}
              [no_events])
    as (l & s' & E & _ & _ & _ & H0).
  - unfold console_ok. cbn [text len]. split; [reflexivity|]. split; [lia|reflexivity].
  - reflexivity.
  - reflexivity.
  - exists l, s'. split; [exact E|]. rewrite (H0 eq_refl). reflexivity.
Defined.

(** X6. Each call returns one line and leaves the events after its Enter
    in the queue: after lines of 1 to 255 characters each were typed, as
    many calls return them in order, and the next one, finding no event,
    returns [NULL]. *)
Theorem Sys_ConsoleInput_line_per_call ws : forall s,
  console_ok s -> isDedicated s = true -> len s = 0 ->
  forallb typed_line ws = true ->
  fst (fst (calls (S (length ws)) s (typing ws ++ [no_events])))
  = map (fun w => Returned (Some w)) ws ++ [Returned None].
Proof.
  induction ws as [|w ws IH]; intros s Hok Hd H0 Hws.
  - cbn [length typing flat_map app calls map].
    rewrite Sys_ConsoleInput_dedicated by exact Hd.
    rewrite console_loop_no_events. reflexivity.
  - cbn [forallb] in Hws. apply andb_true_iff in Hws. destruct Hws as [Hw Hws].
    change (typing (w :: ws)) with ((map key_up w ++ [key_up 13]) ++ typing ws).
    rewrite <- !app_assoc. cbn [app].
    destruct (typed_line_returned s w (typing ws ++ [no_events]) Hok H0 Hw)
      as (s' & E & Hok' & H0' & Hd' & _).
    cbn [length]. change (calls (S (S (length ws))) s ?p)
      with (let '(r, s', polls') := Sys_ConsoleInput s p in
            let '(rs, s'', polls'') := calls (S (length ws)) s' polls' in
            (r :: rs, s'', polls'')).
    rewrite Sys_ConsoleInput_dedicated, E by exact Hd.
    specialize (IH s' Hok' ltac:(congruence) H0' Hws).
    destruct (calls (S (length ws)) s' (typing ws ++ [no_events])) as [[rs s''] p''].
    cbn [fst] in IH |- *. cbn [map app]. now rewrite IH.
Qed.

Lemma Sys_ConsoleInput_line_per_call_witness :
  fst (fst (calls 3 (console_at_start true)
              (typing [chars "map e1m1"%string; chars "status"%string]
               ++ [no_events])))
  = [Returned (Some (chars "map e1m1"%string));
     Returned (Some (chars "status"%string)); Returned None].
Proof.
  exact (Sys_ConsoleInput_line_per_call
           [chars "map e1m1"%string; chars "status"%string]
           (console_at_start true) (console_at_start_ok true)
           eq_refl eq_refl eq_refl).
Defined.

(** *** The command line *)

Lemma blank_not_in_word c : (c <=? 32) || (126 <? c) = negb (in_word c).
Proof.
  unfold in_word.
  destruct (c <=? 32) eqn:A, (126 <? c) eqn:B, (32 <? c) eqn:C, (c <=? 126) eqn:D;
    try reflexivity; exfalso;
    rewrite ?Z.leb_le, ?Z.leb_gt, ?Z.ltb_lt, ?Z.ltb_ge in *; lia.
Qed.

Lemma skip_blanks_spec l :
  (length (skip_blanks l) <= length l)%nat /\
  filter in_word (skip_blanks l) = filter in_word l /\
  match skip_blanks l with
  | [] => True
  | c :: _ => in_word c = true
  end.
Proof.
  induction l as [|c l (IH1 & IH2 & IH3)]; cbn [skip_blanks length filter].
  - auto.
  - rewrite blank_not_in_word. destruct (in_word c) eqn:E; cbn [negb].
    + cbn [length filter]. rewrite E. auto.
    + repeat split; auto.
Qed.

Lemma skip_blanks_word c l : in_word c = true -> skip_blanks (c :: l) = c :: l.
Proof.
  intros H. cbn [skip_blanks]. now rewrite blank_not_in_word, H.
Qed.

Lemma scan_word_spec l :
  l = fst (scan_word l) ++ snd (scan_word l) /\
  forallb in_word (fst (scan_word l)) = true /\
  match snd (scan_word l) with
  | [] => True
  | c :: _ => in_word c = false
  end.
Proof.
  induction l as [|c l (IH1 & IH2 & IH3)]; cbn [scan_word].
  - cbn. auto.
  - fold (in_word c). destruct (in_word c) eqn:E.
    + destruct (scan_word l) as [w r]. cbn [fst snd] in *.
      cbn [app forallb]. rewrite E, IH2. repeat split; auto. now f_equal.
    + cbn [fst snd app forallb]. auto.
Qed.

Lemma scan_word_app w : forall rest,
  forallb in_word w = true ->
  match rest with [] => True | c :: _ => in_word c = false end ->
  scan_word (w ++ rest) = (w, rest).
Proof.
  induction w as [|c w IH]; intros rest Hw Hr.
  - destruct rest as [|c rest]; [reflexivity|].
    cbn [app scan_word]. fold (in_word c). now rewrite Hr.
  - cbn [forallb] in Hw. apply andb_true_iff in Hw. destruct Hw as [Hc Hw].
    cbn [app scan_word]. fold (in_word c). rewrite Hc.
    now rewrite (IH rest Hw Hr).
Qed.

Lemma filter_all {A} (f : A -> bool) l : forallb f l = true -> filter f l = l.
Proof.
  induction l as [|x l IH]; cbn [forallb filter]; [reflexivity|].
  intros H. apply andb_true_iff in H. destruct H as [H1 H2].
  rewrite H1. now rewrite IH.
Qed.

Lemma word_spec w :
  word w = true <-> w <> [] /\ forallb in_word w = true.
Proof.
  unfold word. rewrite andb_true_iff, negb_true_iff, Nat.eqb_neq.
  destruct w; cbn [length]; split; intros [H1 H2]; split; auto; congruence.
Qed.

Lemma argv_loop_spec fuel : forall MAX argc l,
  (length l < fuel)%nat ->
  exists args,
    argv_loop fuel MAX argc l = Some args /\
    forallb word args = true /\
    argc + Z.of_nat (length args) <= Z.max argc MAX /\
    (argc + Z.of_nat (length args) < MAX -> concat args = filter in_word l).
Proof.
  induction fuel as [|fuel IH]; intros MAX argc l Hf; [lia|].
  destruct l as [|c0 l0].
  - exists []. cbn. repeat split; auto; lia.
  - set (l := c0 :: l0) in *. cbn [argv_loop]. unfold l at 1.
    destruct (argc <? MAX) eqn:EM.
    2:{ exists []. cbn [forallb length Z.of_nat concat]. apply Z.ltb_ge in EM.
        repeat split; auto; lia. }
    apply Z.ltb_lt in EM.
    destruct (skip_blanks_spec l) as (S1 & S2 & S3).
    destruct (skip_blanks l) as [|c1 l1] eqn:ES.
    { exists []. cbn [forallb length Z.of_nat concat]. rewrite <- S2.
      repeat split; auto; lia. }
    destruct (scan_word_spec (c1 :: l1)) as (W1 & W2 & W3).
    assert (Wne : fst (scan_word (c1 :: l1)) <> []).
    { cbn [scan_word]. fold (in_word c1). rewrite S3.
      destruct (scan_word l1). cbn [fst]. discriminate. }
    destruct (scan_word (c1 :: l1)) as [w r]. cbn [fst snd] in *.
    set (r' := match r with [] => [] | _ :: r' => r' end).
    assert (Lr : (length r' < fuel)%nat).
    { apply (f_equal (@length Z)) in W1. rewrite length_app in W1.
      assert (0 < length w)%nat by (destruct w; [congruence|cbn; lia]).
      assert (length r' <= length r)%nat by (unfold r'; destruct r; cbn; lia).
      cbn [length] in S1, Hf, W1. unfold l in *. cbn [length] in *. lia. }
    assert (Fr : filter in_word r = filter in_word r').
    { unfold r'. destruct r as [|c r]; [reflexivity|].
      cbn [filter]. now rewrite W3. }
    destruct (IH MAX (argc + 1) r' Lr) as (args & E & A1 & A2 & A3).
    rewrite E. exists (w :: args). split; [reflexivity|].
    cbn [forallb length concat]. rewrite Nat2Z.inj_succ.
    split; [rewrite A1, andb_true_r; now apply word_spec|].
    split; [lia|].
    intros Hlt. rewrite A3 by lia. rewrite <- S2, W1, filter_app.
    rewrite (filter_all in_word w W2), Fr. reflexivity.
Qed.

Lemma join_cons w ws :
  exists rest,
    join (w :: ws) = w ++ rest /\
    match rest with [] => True | c :: _ => in_word c = false end /\
    match rest with [] => [] | _ :: r' => r' end = join ws /\
    (length rest <= S (length (join ws)))%nat.
Proof.
  destruct ws as [|w' ws].
  - exists []. cbn [join]. rewrite app_nil_r. repeat split; auto.
  - exists (32 :: join (w' :: ws)). change (join (w :: w' :: ws))
      with (w ++ 32 :: join (w' :: ws)).
    repeat split; auto.
Qed.

Lemma argv_loop_join ws : forall fuel MAX argc,
  forallb word ws = true ->
  (length (join ws) < fuel)%nat ->
  argv_loop fuel MAX argc (join ws) = Some (firstn (Z.to_nat (MAX - argc)) ws).
Proof.
  induction ws as [|w ws IH]; intros fuel MAX argc Hws Hf.
  - destruct fuel; [lia|]. cbn [join argv_loop]. now rewrite firstn_nil.
  - cbn [forallb] in Hws. apply andb_true_iff in Hws. destruct Hws as [Hw Hws].
    apply word_spec in Hw. destruct Hw as [Hne Hw].
    destruct (join_cons w ws) as (rest & J & R1 & R2 & R3).
    rewrite J in *. destruct fuel as [|fuel]; [lia|].
    destruct w as [|c w]; [congruence|].
    cbn [forallb] in Hw. apply andb_true_iff in Hw. destruct Hw as [Hc Hw].
    change ((c :: w) ++ rest) with (c :: (w ++ rest)) in *.
    cbn [argv_loop].
    destruct (argc <? MAX) eqn:EM.
    2:{ apply Z.ltb_ge in EM. replace (Z.to_nat (MAX - argc)) with 0%nat by lia.
        reflexivity. }
    apply Z.ltb_lt in EM.
    rewrite skip_blanks_word by exact Hc.
    change (c :: (w ++ rest)) with ((c :: w) ++ rest).
    rewrite (scan_word_app (c :: w) rest)
      by (try exact R1; cbn [forallb]; now rewrite Hc, Hw).
    rewrite R2.
    rewrite (IH fuel MAX (argc + 1) Hws).
    2:{ cbn [length app] in Hf. rewrite length_app in Hf.
        destruct rest as [|c' rest'].
        - rewrite <- R2. cbn [length]. lia.
        - cbn [length] in *. rewrite <- R2. lia. }
    replace (Z.to_nat (MAX - argc)) with (S (Z.to_nat (MAX - (argc + 1)))) by lia.
    reflexivity.
Qed.

(** X7. [WinMain] always gets through the command line. Each argument it
    finds is a run, not empty, of characters from 33 to 126; everything
    else, every byte from 128 up among it, only separates arguments, and a
    double quote is a character like any other. With [argv[0]] there are at
    most [MAX_NUM_ARGVS] arguments; as long as that limit is not reached, the
    arguments put end to end are the characters from 33 to 126 of the command
    line, in order. *)
Theorem WinMain_argv_words MAX_NUM_ARGVS lpCmdLine :
  exists args,
    WinMain_argv MAX_NUM_ARGVS lpCmdLine = Some args /\
    forallb word args = true /\
    1 + Z.of_nat (length args) <= Z.max 1 MAX_NUM_ARGVS /\
    (1 + Z.of_nat (length args) < MAX_NUM_ARGVS ->
     concat args = filter in_word lpCmdLine).
Proof.
  apply argv_loop_spec. lia.
Qed.

(** X8. The command line made of words of characters from 33 to 126 with
    one space between them is taken apart into these words again; with
    more than [MAX_NUM_ARGVS - 1] of them, the first [MAX_NUM_ARGVS - 1] are
    kept and the rest of the command line is dropped. *)
Theorem WinMain_argv_join MAX_NUM_ARGVS ws :
  forallb word ws = true ->
  WinMain_argv MAX_NUM_ARGVS (join ws)
  = Some (firstn (Z.to_nat (MAX_NUM_ARGVS - 1)) ws).
Proof.
  intros H. apply argv_loop_join; [exact H|lia].
Qed.

Lemma WinMain_argv_join_witness :
  WinMain_argv 3
    (join [chars "-dedicated"%string; chars "-heapsize"%string;
           chars "16384"%string])
  = Some [chars "-dedicated"%string; chars "-heapsize"%string].
Proof.
  exact (WinMain_argv_join 3
           [chars "-dedicated"%string; chars "-heapsize"%string;
            chars "16384"%string] eq_refl).
Defined.

(** *** The memory of the game *)

Lemma wrap_int32_small z : - 2 ^ 31 <= z < 2 ^ 31 -> wrap_int32 z = z.
Proof.
  intros H. unfold wrap_int32. change (2 ^ 31) with 2147483648 in *.
  change (2 ^ 32) with 4294967296. rewrite Z.mod_small; lia.
Qed.

Lemma wrap_int32_high z : 2 ^ 31 <= z < 2 ^ 32 -> wrap_int32 z = z - 2 ^ 32.
Proof.
  intros H. unfold wrap_int32. change (2 ^ 31) with 2147483648 in *.
  change (2 ^ 32) with 4294967296 in *.
  replace (z + 2147483648) with (z - 2147483648 + 1 * 4294967296) by lia.
  rewrite Z.mod_add, Z.mod_small; lia.
Qed.

Lemma heapsize_small n :
  - 2 ^ 21 <= n < 2 ^ 21 -> wrap_int32 (wrap_int32 n * 1024) = n * 1024.
Proof.
  intros Hn. change (2 ^ 21) with 2097152 in Hn.
  rewrite (wrap_int32_small n) by (change (2 ^ 31) with 2147483648; lia).
  rewrite wrap_int32_small by (change (2 ^ 31) with 2147483648; lia).
  reflexivity.
Qed.

(** X9. On Win32, where the sizes that [GlobalMemoryStatus] stores have 32
    bits, the memory that [WinMain] asks for without [-heapsize] is always
    between [MINIMUM_WIN_MEMORY] (12 MB) and [MAXIMUM_WIN_MEMORY] (32 MB): it
    is the greater of the available memory and half the total memory, raised
    to the minimum and cut to the maximum; 2 GB or more available, negative
    as an [int], count as less than the minimum. With [-heapsize n], for
    [n] from -2^21 to 2^21 - 1, so that [n * 1024] is in the range of an
    [int], it is [n * 1024] whatever these bounds are. *)
Theorem WinMain_memsize_bounds dwAvailPhys dwTotalPhys :
  0 <= dwAvailPhys < 2 ^ 32 -> 0 <= dwTotalPhys < 2 ^ 32 ->
  MINIMUM_WIN_MEMORY <= WinMain_memsize dwAvailPhys dwTotalPhys None
                     <= MAXIMUM_WIN_MEMORY /\
  (dwAvailPhys < 2 ^ 31 ->
   WinMain_memsize dwAvailPhys dwTotalPhys None
   = Z.min MAXIMUM_WIN_MEMORY
       (Z.max (Z.max dwAvailPhys MINIMUM_WIN_MEMORY) (dwTotalPhys / 2))) /\
  (2 ^ 31 <= dwAvailPhys ->
   WinMain_memsize dwAvailPhys dwTotalPhys None
   = Z.min MAXIMUM_WIN_MEMORY (Z.max MINIMUM_WIN_MEMORY (dwTotalPhys / 2))) /\
  (forall n, - 2 ^ 21 <= n < 2 ^ 21 ->
             WinMain_memsize dwAvailPhys dwTotalPhys (Some n) = n * 1024).
Proof.
  intros Ha Ht. unfold WinMain_memsize, MINIMUM_WIN_MEMORY, MAXIMUM_WIN_MEMORY.
  rewrite Z.shiftr_div_pow2 by lia. change (2 ^ 1) with 2.
  change (2 ^ 32) with 4294967296 in *. change (2 ^ 31) with 2147483648 in *.
  assert (Hh : 0 <= dwTotalPhys / 2 < 2147483648)
    by (split; [apply Z.div_pos; lia|apply Z.div_lt_upper_bound; lia]).
  rewrite (wrap_int32_small (dwTotalPhys / 2))
    by (change (2 ^ 31) with 2147483648; lia).
  assert (Hc : forall m, 12582912 <= m < 2147483648 ->
            12582912
            <= (let memsize :=
                  if wrap32 m <? dwTotalPhys / 2 then dwTotalPhys / 2 else m in
                if 33554432 <? memsize then 33554432 else memsize)
            <= 33554432 /\
            (let memsize :=
               if wrap32 m <? dwTotalPhys / 2 then dwTotalPhys / 2 else m in
             if 33554432 <? memsize then 33554432 else memsize)
            = Z.min 33554432 (Z.max m (dwTotalPhys / 2))).
  { intros m Hm. cbv zeta.
    rewrite wrap32_small by (change (2 ^ 32) with 4294967296; lia).
    destruct (m <? dwTotalPhys / 2) eqn:E1;
      [apply Z.ltb_lt in E1|apply Z.ltb_ge in E1];
      match goal with |- context [33554432 <? ?v] =>
        destruct (33554432 <? v) eqn:E2;
          [apply Z.ltb_lt in E2|apply Z.ltb_ge in E2] end; lia. }
  destruct (Z_lt_le_dec dwAvailPhys 2147483648) as [L|L].
  - rewrite (wrap_int32_small dwAvailPhys)
      by (change (2 ^ 31) with 2147483648; lia).
    destruct (dwAvailPhys <? 12582912) eqn:E0;
      [apply Z.ltb_lt in E0|apply Z.ltb_ge in E0].
    + destruct (Hc 12582912 ltac:(lia)) as [B E]. cbv zeta in B, E |- *.
      split; [exact B|]. split; [intros _; rewrite E; f_equal; lia|].
      split; [lia|].
      intros n Hn. now apply heapsize_small.
    + destruct (Hc dwAvailPhys ltac:(lia)) as [B E]. cbv zeta in B, E |- *.
      split; [exact B|]. split; [intros _; rewrite E; f_equal; lia|].
      split; [lia|].
      intros n Hn. now apply heapsize_small.
  - rewrite (wrap_int32_high dwAvailPhys)
      by (change (2 ^ 31) with 2147483648; change (2 ^ 32) with 4294967296; lia).
    change (2 ^ 32) with 4294967296.
    destruct (dwAvailPhys - 4294967296 <? 12582912) eqn:E0;
      [|apply Z.ltb_ge in E0; lia].
    destruct (Hc 12582912 ltac:(lia)) as [B E]. cbv zeta in B, E |- *.
    split; [exact B|]. split; [lia|]. split; [intros _; exact E|].
    intros n Hn. now apply heapsize_small.
Qed.

Lemma WinMain_memsize_bounds_witness :
  MINIMUM_WIN_MEMORY <= WinMain_memsize 3000000000 4000000000 None
                     <= MAXIMUM_WIN_MEMORY.
Proof.
  apply (WinMain_memsize_bounds 3000000000 4000000000).
  - change (2 ^ 32) with 4294967296. lia.
  - change (2 ^ 32) with 4294967296. lia.
Defined.

(** *** Paging in *)

Lemma PageIn_pass_total fuel : forall x size m sum,
  size - 16 * 4096 - m <= Z.of_nat fuel ->
  exists sum' reads, PageIn_pass fuel x size m sum = Some (sum', reads).
Proof.
  induction fuel as [|fuel IH]; intros x size m sum H.
  - cbn [PageIn_pass]. destruct (m <? size - 16 * 4096) eqn:E.
    + apply Z.ltb_lt in E. lia.
    + eauto.
  - cbn [PageIn_pass]. destruct (m <? size - 16 * 4096) eqn:E; [|eauto].
    apply Z.ltb_lt in E.
    match goal with |- context [PageIn_pass fuel x size (m + 4) ?s] =>
      destruct (IH x size (m + 4) s ltac:(lia)) as (sum' & reads & E1) end.
    rewrite E1. eauto.
Qed.

Lemma PageIn_pass_reads fuel : forall x size m sum sum' reads,
  PageIn_pass fuel x size m sum = Some (sum', reads) ->
  (size <= 16 * 4096 + m -> sum' = sum /\ reads = []) /\
  forall r, In r reads <->
            exists j, m <= j < size - 16 * 4096 /\ (j - m) mod 4 = 0 /\
                      (r = j \/ r = j + 16 * 4096).
Proof.
  induction fuel as [|fuel IH]; intros x size m sum sum' reads H.
  - cbn [PageIn_pass] in H. destruct (m <? size - 16 * 4096) eqn:E; [discriminate|].
    apply Z.ltb_ge in E. injection H as <- <-. split; [auto|].
    intros r. split; [intros []|]. intros (j & Hj & _). lia.
  - cbn [PageIn_pass] in H. destruct (m <? size - 16 * 4096) eqn:E.
    + apply Z.ltb_lt in E.
      match type of H with context [PageIn_pass fuel x size (m + 4) ?s] =>
        destruct (PageIn_pass fuel x size (m + 4) s) as [[s1 reads1]|] eqn:E1;
          [|discriminate] end.
      injection H as <- <-. apply IH in E1. destruct E1 as [_ E1].
      split; [lia|].
      intros r. cbn [In]. rewrite E1. split.
      * intros [<-|[<-|(j & Hj & Hm & Hr)]].
        -- exists m. rewrite Z.sub_diag. repeat split; auto; lia.
        -- exists m. rewrite Z.sub_diag. repeat split; auto; lia.
        -- exists j. split; [lia|]. split; [|exact Hr].
           replace (j - m) with (j - (m + 4) + 1 * 4) by lia.
           now rewrite Z.mod_add by lia.
      * intros (j & Hj & Hm & Hr).
        destruct (Z.eq_dec j m) as [->|Hne]; [destruct Hr; auto|].
        right. right. exists j.
        assert (4 <= j - m).
        { pose proof (Z.div_mod (j - m) 4 ltac:(lia)) as D. rewrite Hm in D. lia. }
        split; [lia|]. split; [|exact Hr].
        replace (j - (m + 4)) with (j - m + (-1) * 4) by lia.
        now rewrite Z.mod_add by lia.
    + apply Z.ltb_ge in E. injection H as <- <-. split; [auto|].
      intros r. split; [intros []|]. intros (j & Hj & _). lia.
Qed.

Lemma PageIn_passes_S n x size sum :
  PageIn_passes (S n) x size sum
  = match PageIn_pass (Z.to_nat size) x size 0 sum with
    | Some (s, r) =>
        match PageIn_passes n x size s with
        | Some (s', r') => Some (s', r ++ r')
        | None => None
        end
    | None => None
    end.
Proof. reflexivity. Qed.

Lemma PageIn_passes_reads n : forall x size sum,
  exists sum' reads,
    PageIn_passes n x size sum = Some (sum', reads) /\
    (size <= 16 * 4096 -> sum' = sum /\ reads = []) /\
    forall r, In r reads ->
              exists j, 0 <= j < size - 16 * 4096 /\ j mod 4 = 0 /\
                        (r = j \/ r = j + 16 * 4096).
Proof.
  induction n as [|n IH]; intros x size sum.
  - exists sum, []. cbn [PageIn_passes]. repeat split; auto. intros r [].
  - rewrite PageIn_passes_S.
    destruct (PageIn_pass_total (Z.to_nat size) x size 0 sum ltac:(lia))
      as (s1 & r1 & E1).
    rewrite E1. destruct (IH x size s1) as (s2 & r2 & E2 & Z2 & R2).
    rewrite E2. exists s2, (r1 ++ r2). split; [reflexivity|].
    destruct (PageIn_pass_reads _ _ _ _ _ _ _ E1) as [Z1 R1].
    split.
    + intros Hs. destruct (Z1 ltac:(lia)) as [-> ->].
      destruct (Z2 Hs) as [-> ->]. auto.
    + intros r Hr. apply in_app_or in Hr. destruct Hr as [Hr|Hr].
      * apply R1 in Hr. destruct Hr as (j & Hj & Hm & Hr).
        rewrite Z.sub_0_r in Hm. exists j. auto.
      * now apply R2.
Qed.

Lemma PageIn_first_pass x size sum :
  exists s1 r1 s2 r2,
    PageIn_pass (Z.to_nat size) x size 0 sum = Some (s1, r1) /\
    Sys_PageIn x size sum = Some (s2, r1 ++ r2).
Proof.
  unfold Sys_PageIn. rewrite PageIn_passes_S.
  destruct (PageIn_pass_total (Z.to_nat size) x size 0 sum ltac:(lia))
    as (s1 & r1 & E1).
  rewrite E1.
  destruct (PageIn_passes_reads 3 x size s1) as (s2 & r2 & E2 & _).
  rewrite E2. exists s1, r1, s2, r2. auto.
Qed.

(** X10. [Sys_PageIn] always ends. On a block of at most 16 pages
    (65536 bytes) it reads nothing and leaves [sys_checksum] as it was. Every
    [int] it reads starts at a multiple of 4 below [size - 65536], or 65536
    bytes after one; so with [size] a multiple of 4 every read lies inside
    the block, and with a [size] above 65536 that is no multiple of 4 the
    last read of each pass runs past the end of the block. *)
Theorem Sys_PageIn_reads x size sys_checksum :
  exists sum reads,
    Sys_PageIn x size sys_checksum = Some (sum, reads) /\
    (size <= 65536 -> sum = sys_checksum /\ reads = []) /\
    (forall r, In r reads <->
               exists j, 0 <= j < size - 65536 /\ j mod 4 = 0 /\
                         (r = j \/ r = j + 65536)) /\
    (size mod 4 = 0 -> forallb (inside size) reads = true) /\
    (65536 < size -> size mod 4 <> 0 ->
     exists r, In r reads /\ r < size < r + 4).
Proof.
  destruct (PageIn_passes_reads 4 x size sys_checksum) as (sum & reads & E & Z0 & R).
  destruct (PageIn_first_pass x size sys_checksum) as (s1 & r1 & s2 & r2 & E1 & E2).
  unfold Sys_PageIn in *. rewrite E in E2. injection E2 as -> ->.
  change (16 * 4096) with 65536 in *.
  destruct (PageIn_pass_reads _ _ _ _ _ _ _ E1) as [_ R1].
  change (16 * 4096) with 65536 in *.
  assert (C : forall r, In r (r1 ++ r2) <->
               exists j, 0 <= j < size - 65536 /\ j mod 4 = 0 /\
                         (r = j \/ r = j + 65536)).
  { intros r. split; [apply R|]. intros (j & Hj & Hm & Hr).
    apply in_or_app. left. apply R1. exists j. rewrite Z.sub_0_r. auto. }
  exists s2, (r1 ++ r2). split; [exact E|]. split; [exact Z0|].
  split; [exact C|]. split.
  - intros Hs. apply forallb_forall. intros r Hr. apply C in Hr.
    destruct Hr as (j & Hj & Hm & Hr). unfold inside.
    apply andb_true_iff. rewrite Z.leb_le, Z.leb_le.
    pose proof (Z.div_mod size 4 ltac:(lia)) as D1.
    pose proof (Z.div_mod j 4 ltac:(lia)) as D2.
    rewrite Hs in D1. rewrite Hm in D2. lia.
  - intros Hs Hm.
    pose proof (Z.div_mod (size - 65536) 4 ltac:(lia)) as D.
    pose proof (Z.mod_pos_bound (size - 65536) 4 ltac:(lia)) as B.
    assert (Hm' : (size - 65536) mod 4 <> 0).
    { intros Hz. apply Hm.
      replace size with (size - 65536 + 16384 * 4) by lia.
      now rewrite Z.mod_add by lia. }
    exists (4 * ((size - 65536) / 4) + 65536). split; [|lia].
    apply C. exists (4 * ((size - 65536) / 4)).
    split; [split; [|lia]|].
    + apply Z.mul_nonneg_nonneg; [lia|]. apply Z.div_pos; lia.
    + split; [|auto]. rewrite Z.mul_comm. apply Z.mod_mul. lia.
Qed.

(** X11. With [size] a multiple of 4 and at least 32 pages (131072 bytes),
    [Sys_PageIn] reads every [int] of the block that starts at a multiple
    of 4. A block above 16 and below 32 pages is not read whole: nothing
    is read from the offsets that are between [size - 65536] and 65536. *)
Theorem Sys_PageIn_touches x size sys_checksum :
  exists sum reads,
    Sys_PageIn x size sys_checksum = Some (sum, reads) /\
    (131072 <= size -> size mod 4 = 0 ->
     forall k, 0 <= k < size -> k mod 4 = 0 -> In k reads) /\
    (forall k, size - 65536 <= k < 65536 -> ~ In k reads).
Proof.
  destruct (PageIn_passes_reads 4 x size sys_checksum) as (sum & reads & E & Z0 & R).
  destruct (PageIn_first_pass x size sys_checksum) as (s1 & r1 & s2 & r2 & E1 & E2).
  unfold Sys_PageIn in *. rewrite E in E2. injection E2 as -> ->.
  change (16 * 4096) with 65536 in *.
  destruct (PageIn_pass_reads _ _ _ _ _ _ _ E1) as [_ R1].
  change (16 * 4096) with 65536 in *.
  exists s2, (r1 ++ r2). split; [exact E|]. split.
  - intros Hs Hm k Hk Hkm. apply in_or_app. left. apply R1.
    destruct (Z_lt_le_dec k (size - 65536)) as [L|L].
    + exists k. rewrite Z.sub_0_r. auto with zarith.
    + exists (k - 65536). rewrite Z.sub_0_r. split; [lia|]. split; [|right; lia].
      replace (k - 65536) with (k + (-16384) * 4) by lia.
      now rewrite Z.mod_add by lia.
  - intros k Hk Hin. apply R in Hin. destruct Hin as (j & Hj & _ & Hr). lia.
Qed.

(** *** Printing *)

Lemma plain_range c :
  plain c = true <-> 32 <= c <= 128 \/ c = 10 \/ c = 13 \/ c = 9.
Proof.
  unfold plain. rewrite !orb_true_iff, andb_true_iff, !Z.leb_le, !Z.eqb_eq. tauto.
Qed.

Lemma hex_digit_plain d : 0 <= d < 16 -> plain (hex_digit d) = true.
Proof.
  intros H. apply plain_range. unfold hex_digit.
  destruct (d <? 10) eqn:E; [apply Z.ltb_lt in E|apply Z.ltb_ge in E]; lia.
Qed.

Lemma Sys_Printf_char_plain c :
  0 <= c < 256 -> forallb plain (Sys_Printf_char c) = true.
Proof.
  intros H. unfold Sys_Printf_char.
  destruct (((128 <? c) || (c <? 32)) && negb (c =? 10) && negb (c =? 13)
            && negb (c =? 9)) eqn:E.
  - cbn [forallb].
    rewrite (hex_digit_plain (c / 16)), (hex_digit_plain (c mod 16)).
    + reflexivity.
    + apply Z.mod_pos_bound. lia.
    + split; [apply Z.div_pos; lia|apply Z.div_lt_upper_bound; lia].
  - cbn [forallb]. rewrite andb_true_r. apply plain_range.
    destruct (128 <? c) eqn:E1, (c <? 32) eqn:E2, (c =? 10) eqn:E3,
             (c =? 13) eqn:E4, (c =? 9) eqn:E5;
      cbn in E; try discriminate E;
      rewrite ?Z.ltb_lt, ?Z.ltb_ge, ?Z.eqb_eq, ?Z.eqb_neq in *; lia.
Qed.

Lemma Sys_Printf_char_same c : plain c = true -> Sys_Printf_char c = [c].
Proof.
  intros H. apply plain_range in H. unfold Sys_Printf_char.
  destruct (128 <? c) eqn:E1, (c <? 32) eqn:E2, (c =? 10) eqn:E3,
           (c =? 13) eqn:E4, (c =? 9) eqn:E5;
    cbn [orb andb negb]; try reflexivity; exfalso;
    rewrite ?Z.ltb_lt, ?Z.ltb_ge, ?Z.eqb_eq, ?Z.eqb_neq in *; lia.
Qed.

Lemma forallb_flat_map {A B} (f : A -> list B) (p : B -> bool) l :
  (forall x, forallb p (f x) = true) -> forallb p (flat_map f l) = true.
Proof.
  intros H. induction l as [|x l IH]; cbn [flat_map forallb]; [reflexivity|].
  now rewrite forallb_app, H, IH.
Qed.

Lemma cstring_plain text : forallb plain text = true -> cstring text = text.
Proof.
  induction text as [|c text IH]; cbn [forallb cstring]; [reflexivity|].
  intros H. apply andb_true_iff in H. destruct H as [Hc Ht].
  apply plain_range in Hc.
  destruct (c =? 0) eqn:E; [apply Z.eqb_eq in E; lia|].
  now rewrite IH.
Qed.

Lemma Sys_Printf_same text :
  forallb plain text = true -> Sys_Printf false text = text.
Proof.
  intros H. unfold Sys_Printf. rewrite cstring_plain by exact H.
  induction text as [|c text IH]; cbn [flat_map]; [reflexivity|].
  cbn [forallb] in H. apply andb_true_iff in H. destruct H as [Hc Ht].
  pose proof Hc as Hr. apply plain_range in Hr.
  rewrite Z.mod_small by lia. rewrite Sys_Printf_char_same by exact Hc.
  cbn [app]. now rewrite IH.
Qed.

Lemma Sys_Printf_all_plain nostdout text :
  forallb plain (Sys_Printf nostdout text) = true.
Proof.
  unfold Sys_Printf. destruct nostdout; [reflexivity|].
  apply forallb_flat_map. intros c. apply Sys_Printf_char_plain.
  apply Z.mod_pos_bound. lia.
Qed.

(** X12. Whatever the text, [Sys_Printf] writes only tabs, line feeds,
    carriage returns and bytes from 32 to 128 (127 and 128 pass as they
    are, since the test is [> 128]); every other byte comes out as two
    hexadecimal digits between square brackets. A text made of such bytes
    only is written as it is, so printing what was printed changes nothing
    more. *)
Theorem Sys_Printf_plain :
  (forall nostdout text, forallb plain (Sys_Printf nostdout text) = true) /\
  (forall text, forallb plain text = true -> Sys_Printf false text = text) /\
  (forall text,
     Sys_Printf false (Sys_Printf false text) = Sys_Printf false text) /\
  (forall c text, 0 <= c < 256 -> plain c = false -> c <> 0 ->
     Sys_Printf false (c :: text)
     = 91 :: hex_digit (c / 16) :: hex_digit (c mod 16) :: 93
       :: Sys_Printf false text).
Proof.
  split; [exact Sys_Printf_all_plain|]. split; [exact Sys_Printf_same|].
  split.
  - intros text. apply Sys_Printf_same, Sys_Printf_all_plain.
  - intros c text Hc Hp H0. unfold Sys_Printf. cbn [cstring].
    apply Z.eqb_neq in H0. rewrite H0. cbn [flat_map].
    rewrite Z.mod_small by lia. unfold Sys_Printf_char at 1.
    assert (E : ((128 <? c) || (c <? 32)) && negb (c =? 10) && negb (c =? 13)
                && negb (c =? 9) = true).
    { unfold plain in Hp.
      destruct (128 <? c) eqn:E1, (c <? 32) eqn:E2, (c =? 10) eqn:E3,
               (c =? 13) eqn:E4, (c =? 9) eqn:E5, (32 <=? c) eqn:E6,
               (c <=? 128) eqn:E7;
        cbn in Hp |- *; try discriminate Hp; try reflexivity; exfalso;
        rewrite ?Z.ltb_lt, ?Z.ltb_ge, ?Z.leb_le, ?Z.leb_gt, ?Z.eqb_eq,
                ?Z.eqb_neq in *; lia. }
    rewrite E. reflexivity.
Qed.

(** *** The content directory *)

Lemma strrchr_none s c : strrchr s c = None <-> ~ In c s.
Proof.
  induction s as [|x s IH]; cbn [strrchr In].
  - tauto.
  - destruct (strrchr s c) as [i|].
    + split; [discriminate|]. intros H. exfalso. apply H. right.
      destruct (in_dec Z.eq_dec c s) as [I|I]; [exact I|].
      apply IH in I. discriminate.
    + destruct (x =? c) eqn:E.
      * apply Z.eqb_eq in E. split; [discriminate|]. intros H. exfalso. auto.
      * apply Z.eqb_neq in E. split; [|reflexivity].
        intros _ [H|H]; [congruence|]. now apply IH in H.
Qed.

Lemma strrchr_last a : forall c b,
  ~ In c b -> strrchr (a ++ c :: b) c = Some (length a).
Proof.
  induction a as [|x a IH]; intros c b Hb.
  - cbn [app strrchr length]. apply strrchr_none in Hb. rewrite Hb.
    now rewrite Z.eqb_refl.
  - cbn [app strrchr length]. now rewrite (IH c b Hb).
Qed.

Lemma strrchr_some s : forall c i,
  strrchr s c = Some i -> (i < length s)%nat.
Proof.
  induction s as [|x s IH]; intros c i; cbn [strrchr length]; [discriminate|].
  destruct (strrchr s c) as [j|] eqn:E.
  - intros H. injection H as <-. apply IH in E. lia.
  - destruct (x =? c); [|discriminate]. intros H. injection H as <-. lia.
Qed.

Lemma firstn_app_length {A} (a b : list A) : firstn (length a) (a ++ b) = a.
Proof.
  rewrite firstn_app, Nat.sub_diag, firstn_all. cbn [firstn]. apply app_nil_r.
Qed.

(** X13. [extract_directory] works on the path cut to its first
    [size - 1] characters, which is the whole path when that is shorter than
    [size]. It leaves in [buf] what comes before the last slash of the cut
    path, whatever backslashes follow that slash; without any slash there,
    what comes before the last backslash; without either, the empty string,
    as it does for a file directly under the root. The result is always a
    part of the path from its start, shorter than [size] and than the path
    unless that is empty. *)
Theorem extract_directory_split :
  (forall (path dir file : list Z) (size : nat),
     firstn (size - 1) path = dir ++ 47 :: file -> ~ In 47 file ->
     extract_directory path size = dir) /\
  (forall (path dir file : list Z) (size : nat),
     firstn (size - 1) path = dir ++ 92 :: file ->
     ~ In 47 dir -> ~ In 47 file -> ~ In 92 file ->
     extract_directory path size = dir) /\
  (forall (path : list Z) (size : nat),
     ~ In 47 (firstn (size - 1) path) -> ~ In 92 (firstn (size - 1) path) ->
     extract_directory path size = []) /\
  (forall (path : list Z) (size : nat),
     (length path < size)%nat -> firstn (size - 1) path = path) /\
  (forall path size,
     exists rest,
       path = extract_directory path size ++ rest /\
       (length (extract_directory path size) <= size - 1)%nat /\
       (rest = [] -> path = [])).
Proof.
  split; [|split; [|split; [|split]]].
  - intros path dir file size E Hf. unfold extract_directory.
    rewrite E, strrchr_last by exact Hf.
    apply firstn_app_length.
  - intros path dir file size E Hd Hf Hb. unfold extract_directory.
    rewrite E.
    assert (N : strrchr (dir ++ 92 :: file) 47 = None).
    { apply strrchr_none. intros H. apply in_app_or in H.
      destruct H as [H|[H|H]]; [auto|discriminate|auto]. }
    rewrite N, strrchr_last by exact Hb. apply firstn_app_length.
  - intros path size H1 H2. unfold extract_directory.
    apply strrchr_none in H1, H2. now rewrite H1, H2.
  - intros path size Hl. apply firstn_all2. lia.
  - intros path size. unfold extract_directory.
    set (buf := firstn (size - 1) path).
    assert (P : forall i, (i < length buf)%nat ->
              exists rest, path = firstn i buf ++ rest /\
                           (length (firstn i buf) <= size - 1)%nat /\
                           (rest = [] -> path = [])).
    { intros i Hi. exists (skipn i buf ++ skipn (size - 1) path).
      rewrite app_assoc, firstn_skipn. unfold buf at 1.
      rewrite firstn_skipn. split; [reflexivity|].
      assert (length buf <= size - 1)%nat
        by (unfold buf; rewrite length_firstn; lia).
      split; [rewrite length_firstn; lia|].
      intros Hr. apply app_eq_nil in Hr. destruct Hr as [Hr _].
      apply (f_equal (@length Z)) in Hr. rewrite length_skipn in Hr.
      cbn [length] in Hr. lia. }
    destruct (strrchr buf 47) as [i|] eqn:E1.
    + apply P. now apply strrchr_some in E1.
    + destruct (strrchr buf 92) as [i|] eqn:E2.
      * apply P. now apply strrchr_some in E2.
      * exists path. cbn [app length]. split; [reflexivity|]. split; [lia|auto].
Qed.

(** *** The scale of the clock *)

Lemma pow2_le_mono a b : 0 <= a <= b -> 2 ^ a <= 2 ^ b.
Proof. intros H. apply Z.pow_le_mono_r; lia. Qed.

(** X14. For a counter above 2 MHz [Sys_InitTimers] shifts at least once
    and leaves a scaled frequency from 1000000 to 2000000, ticks of half a
    microsecond to one microsecond; a counter of at most 2 MHz is taken
    as it is. A frequency below 2^32 takes at most 12 shifts. A frequency
    reported as zero gives [timer_pfreq] the value 1.0 / 0.0, infinity. *)
Theorem Sys_InitTimers_resolution f env0 :
  let V := wrap32 (HighPart f) * 2 ^ 32 + wrap32 (LowPart f) in
  exists k s0,
    Sys_InitTimers timers_at_start (Some f) env0 = Some s0 /\
    timer_lowshift s0 = k /\
    timer_pfreq s0 = (1 / double_of_uint (V / 2 ^ k))%float /\
    (V <= 2000000 -> k = 0) /\
    (2000000 < V -> 1 <= k /\ 1000000 <= V / 2 ^ k <= 2000000) /\
    (V < 2 ^ 32 -> k <= 12) /\
    (V = 0 -> timer_pfreq s0 = infinity).
Proof.
  intros V.
  destruct (Sys_InitTimers_spec timers_at_start f env0) as (k & Hk & Hle & Hmin & E).
  fold V in Hle, Hmin, E.
  pose proof (wrap32_range (HighPart f)) as HH.
  pose proof (wrap32_range (LowPart f)) as HL.
  assert (HV : 0 <= V) by (unfold V; change (2 ^ 32) with 4294967296 in *; lia).
  eexists k, _. split; [exact E|]. cbn [timer_lowshift timer_pfreq].
  split; [reflexivity|]. split; [reflexivity|].
  split; [|split; [|split]].
  - intros Hs. destruct (Z.eq_dec k 0) as [->|Hne]; [reflexivity|].
    specialize (Hmin 0 ltac:(lia)). change (2 ^ 0) with 1 in Hmin.
    rewrite Z.div_1_r in Hmin. lia.
  - intros Hb. assert (Hk1 : 1 <= k).
    { destruct (Z.eq_dec k 0) as [->|Hne]; [|lia].
      change (2 ^ 0) with 1 in Hle. rewrite Z.div_1_r in Hle. lia. }
    split; [exact Hk1|]. split; [|exact Hle].
    specialize (Hmin (k - 1) ltac:(lia)).
    assert (Ediv : V / 2 ^ k = V / 2 ^ (k - 1) / 2).
    { rewrite Z.div_div by (try apply Z.pow_pos_nonneg; lia).
      f_equal. change 2 with (2 ^ 1) at 3. rewrite <- Z.pow_add_r by lia.
      f_equal. lia. }
    rewrite Ediv. apply Z.div_le_lower_bound; lia.
  - intros H32. destruct (Z_le_gt_dec k 12) as [L|G]; [exact L|exfalso].
    specialize (Hmin 12 ltac:(lia)).
    assert (V / 2 ^ 12 < 2 ^ 20).
    { apply Z.div_lt_upper_bound; [reflexivity|].
      change (2 ^ 12 * 2 ^ 20) with (2 ^ 32). exact H32. }
    change (2 ^ 20) with 1048576 in *. lia.
  - intros H0. rewrite H0 in Hle, Hmin |- *. rewrite Z.div_0_l.
    + reflexivity.
    + apply Z.pow_nonzero; lia.
Qed.

(** *** Differences of clock values *)

Lemma binary_normalize_plus_any z e : 0 <= z ->
  SFplus (binary_normalize prec emax z e false) = true.
Proof.
  destruct z as [|p|p]; try lia; intros _; [reflexivity|].
  unfold binary_normalize, binary_round.
  destruct (shl_align _ _ _) as [mz ez]. apply binary_round_aux_plus. lia.
Qed.

Lemma valid_digits m e :
  valid_binary (S754_finite false m e) = true ->
  Zdigits2 (Zpos m) <= 53 /\ (-1074 < e -> Zdigits2 (Zpos m) = 53) /\ -1074 <= e.
Proof.
  cbn [valid_binary]. unfold bounded, canonical_mantissa. intros H.
  apply andb_true_iff in H. destruct H as [H _]. apply Z.eqb_eq in H.
  change (SpecFloat.fexp prec emax) with fexp64 in H. unfold fexp64 in H.
  change (Z.pos (SpecFloat.digits2_pos m)) with (Zdigits2 (Zpos m)) in H.
  lia.
Qed.

(** [y - x] is not negative for canonical [0 <= x <= y] with [x] finite. *)
Lemma SFsub_nonneg x y :
  valid_binary x = true -> valid_binary y = true ->
  SFnonneg x = true -> SFleb x y = true ->
  SFltb x (S754_infinity false) = true ->
  SFnonneg (SF64sub y x) = true.
Proof.
  intros Vx Vy Hx Hle Hfin.
  destruct x as [sx|sx| |sx mx ex]; try discriminate;
  destruct y as [sy|sy| |sy my ey]; try discriminate;
  try (destruct sx; try discriminate); try (destruct sy; try discriminate);
  try reflexivity.
  unfold SF64sub, SFsub, cond_Zopp.
  apply SFplus_nonneg, binary_normalize_plus_any.
  destruct (shl_align_spec mx ex (Z.min ey ex)) as [Hax _].
  destruct (shl_align_spec my ey (Z.min ey ex)) as [Hay _].
  rewrite Hax, Hay.
  apply SFleb_finite in Hle.
  destruct (valid_digits mx ex Vx) as (Dx & _ & Ex).
  destruct (valid_digits my ey Vy) as (_ & Dy & _).
  destruct Hle as [Hlt|[-> Hm]].
  - specialize (Dy ltac:(lia)).
    destruct (Zdigits2_bounds (Zpos mx) ltac:(lia)) as (_ & _ & Ux).
    destruct (Zdigits2_bounds (Zpos my) ltac:(lia)) as (_ & Ly & _).
    rewrite Dy in Ly.
    rewrite (Z.max_l (ey - Z.min ey ex)), (Z.max_r (ex - Z.min ey ex)) by lia.
    change (2 ^ 0) with 1. rewrite Z.mul_1_r.
    assert (Ux' : Zpos mx < 2 ^ 53).
    { eapply Z.lt_le_trans; [exact Ux|]. apply pow2_le_mono.
      pose proof (Zdigits2_bounds (Zpos mx) ltac:(lia)). lia. }
    assert (P : 2 ^ 1 <= 2 ^ (ey - Z.min ey ex)) by (apply pow2_le_mono; lia).
    change (2 ^ 1) with 2 in P. change (2 ^ (53 - 1)) with 4503599627370496 in Ly.
    change (2 ^ 53) with 9007199254740992 in Ux'. nia.
  - rewrite Z.min_id, Z.sub_diag. change (Z.max 0 0) with 0.
    change (2 ^ 0) with 1. lia.
Qed.

Lemma sub_nonneg a b :
  (0 <=? a)%float = true -> (a <=? b)%float = true ->
  (a <? infinity)%float = true -> (0 <=? b - a)%float = true.
Proof.
  rewrite !leb_zero, leb_spec, ltb_spec, sub_spec.
  change (Prim2SF infinity) with (S754_infinity false).
  intros Ha Hle Hfin. apply SFsub_nonneg; auto using Prim2SF_valid.
Qed.

Lemma SFltb_infinity_le x y :
  SFnonneg x = true -> SFleb x y = true ->
  SFltb y (S754_infinity false) = true -> SFltb x (S754_infinity false) = true.
Proof.
  destruct x as [sx|[]| |[] mx ex]; try discriminate;
  destruct y as [sy|[]| |[] my ey]; try discriminate; auto.
Qed.

Lemma ltb_infinity_le a b :
  (0 <=? a)%float = true -> (a <=? b)%float = true ->
  (b <? infinity)%float = true -> (a <? infinity)%float = true.
Proof.
  rewrite leb_zero, leb_spec, !ltb_spec.
  change (Prim2SF infinity) with (S754_infinity false).
  apply SFltb_infinity_le.
Qed.

(** *** The main loop *)

Lemma run_curtime_le envs : forall s, timers_ok s ->
  timers_ok (snd (run s envs)) /\
  (curtime s <=? curtime (snd (run s envs)))%float = true.
Proof.
  induction envs as [|env envs IH]; intros s Hs.
  - cbn [run snd]. split; [exact Hs|]. apply leb_refl_nonneg. apply Hs.
  - cbn [run].
    destruct (Sys_DoubleTime_step s env Hs) as (Hok & Hv & Hle).
    destruct (Sys_DoubleTime s env) as [v s1]. cbn [fst snd] in Hok, Hv, Hle.
    destruct (IH s1 Hok) as [Hok' Hle'].
    destruct (run s1 envs) as [vs s2]. cbn [snd] in *.
    split; [exact Hok'|]. rewrite Hv in Hle.
    apply (leb_trans_nonneg _ (curtime s1)); auto; try apply Hs; try apply Hok;
      apply Hok'.
Qed.

Lemma main_loop_nonneg d ticrate turns : forall s oldtime,
  timers_ok s -> (0 <=? oldtime)%float = true ->
  (oldtime <=? curtime s)%float = true ->
  timers_ok (snd (main_loop d ticrate s oldtime turns)) /\
  (curtime s <=? curtime (snd (main_loop d ticrate s oldtime turns)))%float = true /\
  ((curtime (snd (main_loop d ticrate s oldtime turns)) <? infinity)%float = true ->
   all_nonneg (fst (main_loop d ticrate s oldtime turns)) = true).
Proof.
  induction turns as [|t turns IH]; intros s oldtime Hs H0 Hle.
  - cbn [main_loop fst snd]. split; [exact Hs|].
    split; [apply leb_refl_nonneg; apply Hs|reflexivity].
  - cbn [main_loop].
    destruct (run_curtime_le (others t) s Hs) as [Hs1 L1].
    set (s1 := snd (run s (others t))) in *.
    destruct (Sys_DoubleTime_step s1 (sample t) Hs1) as (Hs2 & Hv & L2).
    destruct (Sys_DoubleTime s1 (sample t)) as [newtime s2].
    cbn [fst snd] in Hs2, Hv, L2. subst newtime.
    assert (C0 : (0 <=? curtime s)%float = true) by apply Hs.
    assert (C1 : (0 <=? curtime s1)%float = true) by apply Hs1.
    assert (C2 : (0 <=? curtime s2)%float = true) by apply Hs2.
    assert (L02 : (curtime s <=? curtime s2)%float = true)
      by (apply (leb_trans_nonneg _ (curtime s1)); auto).
    assert (Lo2 : (oldtime <=? curtime s2)%float = true)
      by (apply (leb_trans_nonneg _ (curtime s)); auto).
    destruct (d && (curtime s2 - oldtime <? ticrate)%float).
    + destruct (IH s2 oldtime Hs2 H0 Lo2) as (I1 & I2 & I3).
      split; [exact I1|]. split; [|exact I3].
      apply (leb_trans_nonneg _ (curtime s2)); auto. apply I1.
    + destruct (IH s2 (curtime s2) Hs2 C2 (leb_refl_nonneg _ C2)) as (I1 & I2 & I3).
      destruct (main_loop d ticrate s2 (curtime s2) turns) as [times s'].
      cbn [fst snd] in *.
      assert (C' : (0 <=? curtime s')%float = true) by apply I1.
      split; [exact I1|]. split.
      * apply (leb_trans_nonneg _ (curtime s2)); auto.
      * intros Hfin. unfold all_nonneg. cbn [forallb].
        fold (all_nonneg times). rewrite (I3 Hfin), andb_true_r.
        apply sub_nonneg; [exact H0|exact Lo2|].
        apply (ltb_infinity_le _ (curtime s')); auto.
        apply (leb_trans_nonneg _ (curtime s2)); auto.
Qed.

(** X15. In fallback mode every value that [Sys_DoubleTime] returns is a
    number of milliseconds below 2^32 divided by 1000: it lies between 0 and
    4294967.295 seconds, so the fallback clock cannot count past 49.7 days
    from its origin. *)
Theorem fallback_range s env :
  timer_fallback s = true ->
  (exists ms, 0 <= ms < 2 ^ 32 /\
     fst (Sys_DoubleTime s env) = (double_of_uint ms / 1000)%float) /\
  (0 <=? fst (Sys_DoubleTime s env))%float = true /\
  (fst (Sys_DoubleTime s env) <=? double_of_uint 4294967295 / 1000)%float = true.
Proof.
  intros Hf.
  assert (E : exists ms, 0 <= ms < 2 ^ 32 /\
            fst (Sys_DoubleTime s env) = (double_of_uint ms / 1000)%float).
  { unfold Sys_DoubleTime. rewrite Hf. cbv zeta.
    destruct (_ <? _); cbn [fst]; eexists; (split; [|reflexivity]);
      apply wrap32_range. }
  split; [exact E|]. destruct E as (ms & Hms & ->).
  split; [apply uint_div_nonneg; reflexivity|].
  change (2 ^ 32) with 4294967296 in Hms.
  apply milliseconds_monotone; lia.
Qed.

Lemma fallback_range_witness :
  (fst (Sys_DoubleTime (fallback_timers 1000) (at_ms 999))
   <=? double_of_uint 4294967295 / 1000)%float = true.
Proof.
  exact (proj2 (proj2 (fallback_range (fallback_timers 1000) (at_ms 999) eq_refl))).
Defined.

(** *** Binary64: the bit that decides the rounding *)

(** When the bits shifted out are less than half a unit of the last place
    kept, [binary_round_aux] drops them. *)
Lemma binary_round_aux_down M e q :
  0 < M ->
  let n := fexp64 (Zdigits2 M + e) - e in
  0 < n -> Z.odd (M / 2 ^ (n - 1)) = false ->
  M / 2 ^ n = Zpos q ->
  fexp64 (Zdigits2 (Zpos q) + (e + n)) = e + n -> e + n <= 971 ->
  binary_round_aux prec emax false M e loc_Exact = S754_finite false q (e + n).
Proof.
  intros HM n Hn Hodd Hq Hcan Hmax.
  unfold binary_round_aux, shr_fexp.
  change (SpecFloat.fexp prec emax) with fexp64. fold n.
  destruct n as [|p|p] eqn:En; try lia.
  cbn [shr shr_record_of_loc].
  set (mrs := iter_pos shr_1 p {| shr_m := M; shr_r := false; shr_s := false |}).
  assert (Hm : shr_m mrs = Zpos q).
  { unfold mrs. rewrite shr_m_iter by (cbn [shr_m]; lia). exact Hq. }
  assert (Hr : shr_r mrs = false).
  { unfold mrs. rewrite shr_r_iter by (cbn [shr_m]; lia). exact Hodd. }
  assert (Hrn : round_nearest_even (shr_m mrs) (loc_of_shr_record mrs) = Zpos q).
  { destruct mrs as [m r s]. cbn [shr_m shr_r] in Hm, Hr. subst m r.
    destruct s; reflexivity. }
  rewrite Hrn, Hcan, Z.sub_diag. cbn [shr shr_m].
  apply Z.leb_le in Hmax. change (emax - prec) with 971. now rewrite Hmax.
Qed.

(** Rounding adds less than one unit of the last place. *)
Lemma binary_round_aux_upper M e l :
  0 < M -> -1074 <= e ->
  let n1 := Z.max (fexp64 (Zdigits2 M + e) - e) 0 in
  e + n1 + 1 <= 971 ->
  binary_round_aux prec emax false M e l = S754_zero false \/
  exists m3 e3,
    binary_round_aux prec emax false M e l = S754_finite false m3 e3 /\
    e <= e3 /\ Zpos m3 * 2 ^ (e3 - e) <= M + 2 ^ n1.
Proof.
  intros HM He n1 Hmax.
  destruct (binary_round_aux_spec false M e l (Z.lt_le_incl _ _ HM)) as [m2 [Hm2 Hr]].
  cbv zeta in Hr. fold n1 in Hm2, Hr.
  assert (Hn1 : 0 <= n1) by (unfold n1; lia).
  assert (Hp1 : 0 < 2 ^ n1) by (apply Z.pow_pos_nonneg; lia).
  set (m1 := M / 2 ^ n1) in *.
  assert (Hm1 : 0 <= m1) by (apply Z.div_pos; lia).
  assert (Hm1hi : m1 < 2 ^ 53).
  { apply div_pow2_upper; [exact HM|exact Hn1|]. unfold n1, fexp64. lia. }
  assert (HbrL : m1 * 2 ^ n1 <= M).
  { rewrite Z.mul_comm. apply Z.mul_div_le. exact Hp1. }
  set (n2 := Z.max (fexp64 (Zdigits2 m2 + (e + n1)) - (e + n1)) 0) in *.
  assert (Hn2 : 0 <= n2) by (unfold n2; lia).
  assert (Hp2 : 0 < 2 ^ n2) by (apply Z.pow_pos_nonneg; lia).
  assert (H2 : 0 <= m2) by lia.
  assert (Hq : 0 <= m2 / 2 ^ n2) by (apply Z.div_pos; lia).
  destruct (m2 / 2 ^ n2) as [|m3|m3] eqn:E3; try lia; [now left|right].
  assert (Hd2 : Zdigits2 m2 <= 54).
  { apply Zdigits2_upper; [|change (2 ^ 54) with (2 * 2 ^ 53); lia].
    destruct (Z.eq_dec m2 0) as [Z0|]; [|lia].
    rewrite Z0, Z.div_0_l in E3 by lia. discriminate. }
  assert (Hn21 : n2 <= 1) by (unfold n2, fexp64, n1 in *; lia).
  assert (Hle : e + n1 + n2 <= 971) by lia.
  apply Z.leb_le in Hle. rewrite Hle in Hr.
  exists m3, (e + n1 + n2). split; [exact Hr|]. split; [lia|].
  replace (e + n1 + n2 - e) with (n2 + n1) by lia.
  rewrite Z.pow_add_r, Z.mul_assoc by lia.
  assert (Hm3 : Zpos m3 * 2 ^ n2 <= m2).
  { rewrite <- E3, Z.mul_comm. apply Z.mul_div_le. exact Hp2. }
  apply Z.le_trans with ((m1 + 1) * 2 ^ n1); [|lia].
  apply Z.mul_le_mono_nonneg_r; lia.
Qed.

Lemma binary_round_upper M e :
  -1074 <= e ->
  let f := fexp64 (Zdigits2 (Zpos M) + e) in
  f + 1 <= 971 ->
  binary_round prec emax false M e = S754_zero false \/
  exists m3 e3,
    binary_round prec emax false M e = S754_finite false m3 e3 /\
    -1074 <= e3 /\
    Zpos m3 * 2 ^ (e3 + 1074) <= Zpos M * 2 ^ (e + 1074) + 2 ^ (f + 1074).
Proof.
  intros He f Hmax. unfold binary_round.
  destruct (shl_align_spec M e (SpecFloat.fexp prec emax (Zpos (digits2_pos M) + e)))
    as [Hm Hez].
  destruct (shl_align M e (SpecFloat.fexp prec emax (Zpos (digits2_pos M) + e)))
    as [mz ez].
  cbn [fst snd] in Hm, Hez. change (SpecFloat.fexp prec emax) with fexp64 in *.
  change (Zpos (digits2_pos M)) with (Zdigits2 (Zpos M)) in *. fold f in Hm, Hez.
  set (k := Z.max (e - f) 0) in *.
  assert (Hk : 0 <= k) by (unfold k; lia).
  assert (Hf : -1074 <= f) by (unfold f, fexp64; lia).
  assert (Hdz : Zdigits2 (Zpos mz) + ez = Zdigits2 (Zpos M) + e).
  { rewrite Hm, Zdigits2_shift by lia. lia. }
  assert (Hez' : -1074 <= ez) by (unfold k in *; lia).
  assert (En : Z.max (fexp64 (Zdigits2 (Zpos mz) + ez) - ez) 0 = f - ez).
  { rewrite Hdz. fold f. unfold k in *. lia. }
  destruct (binary_round_aux_upper (Zpos mz) ez loc_Exact ltac:(lia) Hez')
    as [Hz|(m3 & e3 & Hr & He3 & Hv)].
  - rewrite En. lia.
  - now left.
  - right. exists m3, e3. split; [exact Hr|]. split; [lia|].
    rewrite En in Hv.
    replace (e3 + 1074) with ((e3 - ez) + (ez + 1074)) by lia.
    rewrite Z.pow_add_r, Z.mul_assoc by lia.
    replace (f + 1074) with ((f - ez) + (ez + 1074)) by lia.
    rewrite (Z.pow_add_r 2 (f - ez)) by (unfold k in *; lia).
    replace (e + 1074) with (k + (ez + 1074)) by lia.
    rewrite (Z.pow_add_r 2 k), (Z.mul_assoc (Zpos M)), <- Hm by lia.
    rewrite <- Z.mul_add_distr_r.
    apply Z.mul_le_mono_nonneg_r; [|exact Hv].
    apply Z.pow_nonneg. lia.
Qed.

(** A normal mantissa [A], shifted up by [k] bits, plus less than half a
    unit of its last place rounds back to [A]. *)
Lemma binary_round_absorb A k t e :
  Zdigits2 (Zpos A) = 53 -> 0 < k -> 0 <= t < 2 ^ (k - 1) ->
  -1074 <= e -> e + k <= 971 ->
  forall M, Zpos M = Zpos A * 2 ^ k + t ->
  binary_round prec emax false M e = S754_finite false A (e + k).
Proof.
  intros HA Hk Ht He Hmax M HM.
  destruct (digits53_bounds A HA) as [Alo Ahi].
  assert (Pk : 0 < 2 ^ k) by (apply Z.pow_pos_nonneg; lia).
  assert (Pk1 : 2 ^ k = 2 * 2 ^ (k - 1)).
  { replace k with (1 + (k - 1)) at 1 by lia. rewrite Z.pow_add_r by lia.
    reflexivity. }
  assert (Pk0 : 0 < 2 ^ (k - 1)) by (apply Z.pow_pos_nonneg; lia).
  assert (HdM : Zdigits2 (Zpos M) = 53 + k).
  { apply Z.le_antisymm.
    - apply Zdigits2_upper; [lia|]. rewrite HM, Z.pow_add_r by lia. nia.
    - replace (53 + k) with ((52 + k) + 1) by lia.
      apply Zdigits2_lower; [lia|]. rewrite HM, Z.pow_add_r by lia. nia. }
  unfold binary_round.
  change (Zpos (digits2_pos M)) with (Zdigits2 (Zpos M)).
  change (SpecFloat.fexp prec emax) with fexp64.
  assert (Ef : fexp64 (Zdigits2 (Zpos M) + e) = e + k)
    by (rewrite HdM; unfold fexp64; lia).
  rewrite Ef. unfold shl_align.
  replace (e + k - e) with k by lia.
  destruct k as [|pk|pk] eqn:Ek; try lia. rewrite <- Ek in *.
  assert (Ediv : Zpos M / 2 ^ k = Zpos A).
  { rewrite HM. rewrite Z.div_add_l by lia. rewrite Z.div_small by lia. lia. }
  replace (e + k) with (e + (fexp64 (Zdigits2 (Zpos M) + e) - e)) by lia.
  apply binary_round_aux_down; try lia.
  - rewrite Ef. replace (e + k - e - 1) with (k - 1) by lia.
    rewrite HM, Pk1. replace (Zpos A * (2 * 2 ^ (k - 1)) + t)
      with (t + (2 * Zpos A) * 2 ^ (k - 1)) by ring.
    rewrite Z.div_add by lia. rewrite Z.div_small by lia.
    rewrite Z.add_0_l. now rewrite Z.odd_mul.
  - rewrite Ef. replace (e + k - e) with k by lia. exact Ediv.
  - rewrite Ef. replace (e + (e + k - e)) with (e + k) by lia.
    rewrite HA. unfold fexp64. lia.
Qed.

(** *** Binary64: sums that stay bounded *)

Lemma pow2_lt_mono a b : 0 <= a < b -> 2 ^ a < 2 ^ b.
Proof. intros H. apply Z.pow_lt_mono_r; lia. Qed.

Lemma pow2_split a b : 0 <= a -> 0 <= b -> 2 ^ (a + b) = 2 ^ a * 2 ^ b.
Proof. intros. apply Z.pow_add_r; lia. Qed.

Lemma SFbelow_weaken n n' x : -1074 <= n <= n' -> SFbelow n x -> SFbelow n' x.
Proof.
  intros Hn. destruct x as [s|s| |[] m e]; cbn [SFbelow]; auto.
  intros [He H]. split; [exact He|].
  eapply Z.lt_le_trans; [exact H|]. apply pow2_le_mono. lia.
Qed.

(** A clock value below [2^88] stays below [2^88] when less than [2^33] is
    added to it: from [2^87] on, the sum rounds back to the value. *)
Lemma SFadd_below c t :
  valid_binary c = true -> valid_binary t = true ->
  SFbelow 88 c -> SFbelow 33 t -> SFbelow 88 (SF64add c t).
Proof.
  intros Vc Vt Hc Ht.
  destruct c as [sc|sc| |sc mc ec]; try contradiction;
  destruct t as [st|st| |st mt et]; try contradiction.
  - unfold SF64add, SFadd. destruct sc, st; exact I.
  - unfold SF64add, SFadd. apply (SFbelow_weaken 33); [lia|exact Ht].
  - unfold SF64add, SFadd. exact Hc.
  - destruct sc; [contradiction|]. destruct st; [contradiction|].
    destruct Hc as [_ Hc]. destruct Ht as [_ Ht]. cbn [SFunits] in Hc, Ht.
    destruct (valid_finite _ _ _ Vc) as (Dc & Dc53 & Ec).
    destruct (valid_finite _ _ _ Vt) as (Dt & _ & Et).
    unfold SF64add, SFadd, cond_Zopp.
    destruct (shl_align_spec mc ec (Z.min ec et)) as [Hac _].
    destruct (shl_align_spec mt et (Z.min ec et)) as [Hat _].
    set (ac := fst (shl_align mc ec (Z.min ec et))) in *.
    set (at' := fst (shl_align mt et (Z.min ec et))) in *.
    change (Z.pos ac + Z.pos at') with (Z.pos (ac + at')).
    cbn [binary_normalize].
    set (ez := Z.min ec et) in *.
    assert (Hez : -1074 <= ez) by (unfold ez; lia).
    set (p := 2 ^ (ez + 1074)).
    assert (Pp : 0 < p) by (apply Z.pow_pos_nonneg; lia).
    assert (Uc : Zpos mc * 2 ^ (ec + 1074) = Zpos ac * p).
    { rewrite Hac. unfold p. replace (ec + 1074) with (Z.max (ec - ez) 0 + (ez + 1074))
        by (unfold ez; lia).
      rewrite pow2_split by lia. ring. }
    assert (Ut : Zpos mt * 2 ^ (et + 1074) = Zpos at' * p).
    { rewrite Hat. unfold p. replace (et + 1074) with (Z.max (et - ez) 0 + (ez + 1074))
        by (unfold ez; lia).
      rewrite pow2_split by lia. ring. }
    assert (UM : Zpos (ac + at') * p
                 = Zpos mc * 2 ^ (ec + 1074) + Zpos mt * 2 ^ (et + 1074)).
    { rewrite Uc, Ut, Pos2Z.inj_add. ring. }
    assert (Het : et < 33).
    { destruct (Z_lt_le_dec et 33) as [L|L]; [exact L|exfalso].
      assert (2 ^ (33 + 1074) <= 2 ^ (et + 1074)) by (apply pow2_le_mono; lia).
      nia. }
    assert (P33 : 2 ^ (33 + 1074) = 2 ^ 33 * 2 ^ 1074) by (apply pow2_split; lia).
    assert (P35 : 2 ^ (35 + 1074) = 2 ^ 35 * 2 ^ 1074) by (apply pow2_split; lia).
    assert (P87 : 2 ^ (87 + 1074) = 2 ^ 87 * 2 ^ 1074) by (apply pow2_split; lia).
    assert (P88 : 2 ^ (88 + 1074) = 2 ^ 88 * 2 ^ 1074) by (apply pow2_split; lia).
    assert (Pu : 0 < 2 ^ 1074) by (apply Z.pow_pos_nonneg; lia).
    set (u := 2 ^ 1074) in *.
    change (2 ^ 33) with 8589934592 in P33.
    change (2 ^ 35) with 34359738368 in P35.
    change (2 ^ 87) with 154742504910672534362390528 in P87.
    change (2 ^ 88) with 309485009821345068724781056 in P88.
    destruct (Z_lt_le_dec (Zpos mc * 2 ^ (ec + 1074)) (2 ^ (87 + 1074))) as [Low|High].
    + (* below 2^87: the sum stays below 2^88 *)
      assert (HM : Zpos (ac + at') * p < 2 ^ (88 + 1074)) by (rewrite UM; lia).
      assert (Hez88 : ez < 88).
      { destruct (Z_lt_le_dec ez 88) as [L|L]; [exact L|exfalso].
        assert (2 ^ (88 + 1074) <= p) by (apply pow2_le_mono; lia). nia. }
      assert (HdM : Zdigits2 (Zpos (ac + at')) + ez <= 88).
      { assert (Zdigits2 (Zpos (ac + at')) <= 88 - ez); [|lia].
        apply Zdigits2_upper; [lia|].
        apply (Z.mul_lt_mono_pos_r p); [exact Pp|].
        unfold p. rewrite <- pow2_split by lia.
        replace (88 - ez + (ez + 1074)) with (88 + 1074) by lia. exact HM. }
      destruct (binary_round_upper (ac + at') ez Hez) as [Hz|(m3 & e3 & Hr & He3 & Hv)].
      * unfold fexp64. lia.
      * rewrite Hz. exact I.
      * rewrite Hr. cbn [SFbelow SFunits]. split; [exact He3|].
        fold p in Hv. rewrite UM in Hv.
        assert (Hf : 2 ^ (fexp64 (Zdigits2 (Z.pos (ac + at')) + ez) + 1074)
                     <= 2 ^ (35 + 1074)).
        { apply pow2_le_mono. unfold fexp64. lia. }
        lia.
    + (* from 2^87 on: the sum rounds back to [c] *)
      assert (Hec : 35 <= ec).
      { destruct (Z_le_gt_dec 35 ec) as [L|G]; [exact L|exfalso].
        assert (2 ^ (ec + 1074) <= 2 ^ (34 + 1074)) by (apply pow2_le_mono; lia).
        assert (P34 : 2 ^ (34 + 1074) = 2 ^ 34 * u) by (apply pow2_split; lia).
        change (2 ^ 34) with 17179869184 in P34.
        destruct (Zdigits2_bounds (Zpos mc) ltac:(lia)) as (_ & _ & Ux).
        assert (Zpos mc < 2 ^ 53).
        { eapply Z.lt_le_trans; [exact Ux|]. apply pow2_le_mono.
          pose proof (Zdigits2_bounds (Zpos mc) ltac:(lia)). lia. }
        change (2 ^ 53) with 9007199254740992 in *. nia. }
      assert (Eez : ez = et) by (unfold ez; lia).
      set (k := ec - et).
      assert (Hk : 2 <= k) by (unfold k; lia).
      assert (Eac : Zpos ac = Zpos mc * 2 ^ k).
      { rewrite Hac, Eez. unfold k. f_equal. f_equal. lia. }
      assert (Eat : Zpos at' = Zpos mt).
      { rewrite Hat, Eez, Z.sub_diag. change (Z.max 0 0) with 0.
        change (2 ^ 0) with 1. lia. }
      assert (Hmt : Zpos mt < 2 ^ (k - 1)).
      { apply (Z.mul_lt_mono_pos_r (2 ^ (et + 1074))); [apply Z.pow_pos_nonneg; lia|].
        rewrite <- pow2_split by (unfold k; lia).
        eapply Z.lt_le_trans; [exact Ht|]. apply pow2_le_mono. unfold k. lia. }
      rewrite Eez.
      assert (Habs : binary_round prec emax false (ac + at') et
                     = S754_finite false mc (et + k)).
      { apply (binary_round_absorb mc k (Zpos mt) et).
        - apply Dc53. lia.
        - lia.
        - lia.
        - lia.
        - unfold k. lia.
        - rewrite Pos2Z.inj_add, Eac, Eat. reflexivity. }
      rewrite Habs. replace (et + k) with ec by (unfold k; lia).
      cbn [SFbelow SFunits]. split; [lia|exact Hc].
Qed.

(** *** The clock stays finite *)

Lemma SFbelow_nonneg n x : SFbelow n x -> SFnonneg x = true.
Proof. destruct x as [s|s| |[] m e]; cbn [SFbelow SFnonneg]; auto; contradiction. Qed.

Lemma one_below : SFbelow 33 (Prim2SF 1).
Proof.
  rewrite Prim2SF_one. cbn [SFbelow SFunits]. split; [lia|].
  change (Z.pos 4503599627370496) with (2 ^ 52).
  rewrite <- pow2_split by lia. apply pow2_lt_mono. lia.
Qed.

(** The seconds added by one call are below [2^33]. *)
Lemma seconds_below d f :
  0 < d < 2 ^ 32 -> 1 <= f < 2 ^ 53 ->
  SFbelow 33 (Prim2SF (double_of_uint d * (1 / double_of_uint f))).
Proof.
  intros Hd Hf.
  destruct (delta_seconds_accurate d f Hd ltac:(lia)) as (mv & ev & E & Hev & Hacc).
  pose proof (Prim2SF_valid (double_of_uint d * (1 / double_of_uint f))) as V.
  rewrite E in V |- *. destruct (valid_finite _ _ _ V) as (_ & _ & Ev).
  cbn [SFbelow SFunits]. split; [lia|].
  set (a := 2 ^ (- ev)) in *. set (b := 2 ^ (ev + 1074)).
  assert (Pa : 0 < a) by (apply Z.pow_pos_nonneg; lia).
  assert (Pb : 0 < b) by (apply Z.pow_pos_nonneg; lia).
  assert (Eab : a * b = 2 ^ 1074).
  { unfold a, b. rewrite <- pow2_split by lia. f_equal. lia. }
  rewrite pow2_split by lia. rewrite <- Eab.
  change (2 ^ 50) with 1125899906842624 in Hacc.
  change (2 ^ 32) with 4294967296 in Hd. change (2 ^ 33) with 8589934592.
  assert (Hmv : Zpos mv < 8589934592 * a) by nia.
  nia.
Qed.

Lemma add_below c t :
  SFbelow 88 (Prim2SF c) -> SFbelow 33 (Prim2SF t) ->
  SFbelow 88 (Prim2SF (c + t)).
Proof.
  intros Hc Ht. rewrite add_spec. apply SFadd_below; auto using Prim2SF_valid.
Qed.

Lemma clock_bounded_ok f s : clock_bounded f s -> timers_ok s.
Proof.
  intros (Hf & Hp & Ho & Hc). unfold timers_ok. repeat split; try lia; auto.
  - rewrite leb_zero. now apply (SFbelow_nonneg 88).
  - rewrite Hp. apply one_div_uint_nonneg.
Qed.

Lemma Sys_DoubleTime_bounded f s env :
  1 <= f < 2 ^ 53 -> clock_bounded f s ->
  clock_bounded f (snd (Sys_DoubleTime s env)).
Proof.
  intros Hf (Hfb & Hp & Ho & Hc). unfold Sys_DoubleTime. rewrite Hfb.
  pose proof (shifted_count_range (timer_lowshift s) (QueryPerformanceCounter env)) as Ht.
  set (temp := shifted_count _ _) in *.
  destruct (backward_guard temp (timer_oldtime s)) eqn:G.
  - unfold clock_bounded. cbn [snd timer_fallback timer_pfreq timer_oldtime curtime].
    auto.
  - destruct (wrap32_sub_pos temp (timer_oldtime s) Ht Ho G) as [Ht2 _].
    set (t2 := wrap32 (temp - timer_oldtime s)) in *.
    cbv zeta.
    assert (Hs : SFbelow 88 (Prim2SF (curtime s + double_of_uint t2 * timer_pfreq s))).
    { apply add_below; [exact Hc|]. rewrite Hp. now apply seconds_below. }
    destruct (_ =? _)%float; [destruct (100000 <? _)|];
      unfold clock_bounded;
      cbn [snd timer_fallback timer_pfreq timer_oldtime curtime];
      repeat split; auto; try lia.
    apply add_below; [exact Hs|exact one_below].
Qed.

Lemma run_bounded f envs : forall s,
  1 <= f < 2 ^ 53 -> clock_bounded f s ->
  clock_bounded f (snd (run s envs)) /\
  Forall (fun v => SFbelow 88 (Prim2SF v)) (fst (run s envs)).
Proof.
  induction envs as [|env envs IH]; intros s Hf Hs.
  - cbn [run fst snd]. auto.
  - cbn [run].
    pose proof (Sys_DoubleTime_bounded f s env Hf Hs) as H1.
    destruct (Sys_DoubleTime_step s env (clock_bounded_ok f s Hs)) as (_ & Hv & _).
    destruct (Sys_DoubleTime s env) as [v s1]. cbn [fst snd] in H1, Hv.
    destruct (IH s1 Hf H1) as [H2 H3].
    destruct (run s1 envs) as [vs s2]. cbn [fst snd] in *.
    split; [exact H2|]. constructor; [|exact H3].
    rewrite Hv. apply H1.
Qed.

Lemma below_ltb x : SFbelow 88 (Prim2SF x) -> (x <? 0x1p88)%float = true.
Proof.
  intros H. rewrite ltb_spec.
  change (Prim2SF 0x1p88) with (S754_finite false 4503599627370496 36).
  pose proof (Prim2SF_valid x) as V.
  destruct (Prim2SF x) as [s|s| |[] m e]; try contradiction; [reflexivity|].
  destruct H as [He H]. cbn [SFunits] in H.
  destruct (valid_finite _ _ _ V) as (_ & D53 & _).
  apply SFltb_finite. left.
  destruct (Z_lt_le_dec e 36) as [L|L]; [exact L|exfalso].
  destruct (digits53_bounds m (D53 ltac:(lia))) as [Lo _].
  assert (P : 2 ^ (36 + 1074) <= 2 ^ (e + 1074)) by (apply pow2_le_mono; lia).
  assert (Q : 2 ^ (88 + 1074) = 2 ^ 52 * 2 ^ (36 + 1074)).
  { rewrite <- pow2_split by lia. reflexivity. }
  assert (0 < 2 ^ (36 + 1074)) by (apply Z.pow_pos_nonneg; lia).
  nia.
Qed.

Lemma ltb_88_infinity x : (x <? 0x1p88)%float = true -> (x <? infinity)%float = true.
Proof.
  rewrite !ltb_spec.
  change (Prim2SF 0x1p88) with (S754_finite false 4503599627370496 36).
  change (Prim2SF infinity) with (S754_infinity false).
  destruct (Prim2SF x) as [s|[]| |[] m e]; try discriminate; reflexivity.
Qed.

Lemma Sys_InitTimers_bounded f env0 :
  let V := wrap32 (HighPart f) * 2 ^ 32 + wrap32 (LowPart f) in
  0 < V ->
  exists s0 scaled,
    Sys_InitTimers timers_at_start (Some f) env0 = Some s0 /\
    1 <= scaled < 2 ^ 53 /\ clock_bounded scaled s0.
Proof.
  intros V HV.
  destruct (Sys_InitTimers_spec timers_at_start f env0) as (k & Hk & Hle & Hmin & E).
  fold V in Hle, Hmin, E.
  eexists _, (V / 2 ^ k). split; [exact E|].
  assert (Hs : 0 < V / 2 ^ k).
  { destruct (Z.eq_dec k 0) as [->|Hne].
    - change (2 ^ 0) with 1. now rewrite Z.div_1_r.
    - specialize (Hmin (k - 1) ltac:(lia)).
      assert (Ediv : V / 2 ^ k = V / 2 ^ (k - 1) / 2).
      { rewrite Z.div_div by (try apply Z.pow_pos_nonneg; lia).
        f_equal. change 2 with (2 ^ 1) at 3. rewrite <- Z.pow_add_r by lia.
        f_equal. lia. }
      rewrite Ediv. apply Z.div_str_pos. lia. }
  split; [change (2 ^ 53) with 9007199254740992; lia|].
  unfold clock_bounded.
  cbn [timer_fallback timer_pfreq timer_oldtime curtime timers_at_start].
  split; [reflexivity|]. split; [reflexivity|].
  split; [apply shifted_count_range|exact I].
Qed.

(** X16. With a hardware counter of a frequency above zero the clock never
    reaches infinity: every value that [Sys_DoubleTime] returns, and
    [curtime] after any calls, is below [2^88] seconds; once [curtime] has
    reached [2^87], what a call adds, and the 1.0 of the stall breaker, is
    rounded away. *)
Theorem Sys_DoubleTime_stays_finite f env0 envs :
  let V := wrap32 (HighPart f) * 2 ^ 32 + wrap32 (LowPart f) in
  0 < V ->
  exists s0,
    Sys_InitTimers timers_at_start (Some f) env0 = Some s0 /\
    all_below (fst (run s0 envs)) = true /\
    (curtime (snd (run s0 envs)) <? 0x1p88)%float = true /\
    (curtime (snd (run s0 envs)) <? infinity)%float = true.
Proof.
  intros V HV.
  destruct (Sys_InitTimers_bounded f env0 HV) as (s0 & scaled & E & Hsc & Hb).
  exists s0. split; [exact E|].
  destruct (run_bounded scaled envs s0 Hsc Hb) as [(_ & _ & _ & Hc) Hall].
  split.
  - unfold all_below. apply forallb_forall. intros v Hv.
    rewrite Forall_forall in Hall. apply below_ltb. now apply Hall.
  - split; [now apply below_ltb|]. now apply ltb_88_infinity, below_ltb.
Qed.

Lemma Sys_DoubleTime_stays_finite_witness :
  exists s0,
    Sys_InitTimers timers_at_start
      (Some {| LowPart := 10000000; HighPart := 0 |}) (at_count 0) = Some s0 /\
    all_below (fst (run s0 [at_count 4294967295; at_count 7])) = true.
Proof.
  destruct (Sys_DoubleTime_stays_finite
              {| LowPart := 10000000; HighPart := 0 |} (at_count 0)
              [at_count 4294967295; at_count 7])
    as (s0 & E & H & _).
  - vm_compute. reflexivity.
  - exists s0. split; [exact E|exact H].
Defined.

Lemma main_loop_bounded f d ticrate turns : forall s oldtime,
  1 <= f < 2 ^ 53 -> clock_bounded f s ->
  clock_bounded f (snd (main_loop d ticrate s oldtime turns)).
Proof.
  induction turns as [|t turns IH]; intros s oldtime Hf Hs; [exact Hs|].
  cbn [main_loop].
  destruct (run_bounded f (others t) s Hf Hs) as [H1 _].
  pose proof (Sys_DoubleTime_bounded f _ (sample t) Hf H1) as H2.
  destruct (Sys_DoubleTime (snd (run s (others t))) (sample t)) as [newtime s2].
  cbn [snd] in H2.
  destruct (d && (newtime - oldtime <? ticrate)%float).
  - now apply IH.
  - specialize (IH s2 newtime Hf H2).
    destruct (main_loop d ticrate s2 newtime turns) as [times s'].
    exact IH.
Qed.

(** X17. With a hardware counter, the time that the main loop of
    [WinMain] gives to [Host_Frame] is never negative and never a NaN as long
    as the clock has not reached infinity, whatever the counter reads and
    whoever else calls [Sys_DoubleTime] between the samples; with a
    frequency above zero the clock never does, so no frame time is ever
    negative or a NaN. *)
Theorem WinMain_frame_times d ticrate f env0 before first turns :
  let V := wrap32 (HighPart f) * 2 ^ 32 + wrap32 (LowPart f) in
  exists times s',
    WinMain_frames d ticrate (Some f) env0 before first turns
    = Some (times, s') /\
    ((curtime s' <? infinity)%float = true -> all_nonneg times = true) /\
    (0 < V -> all_nonneg times = true).
Proof.
  intros V. unfold WinMain_frames.
  destruct (Sys_InitTimers_total timers_at_start (Some f) env0)
    as [s0 (E & _ & Hc & Hf & Hp)].
  rewrite E. destruct Hp as [Hp Ho]; [discriminate|].
  assert (Hok : timers_ok s0).
  { unfold timers_ok. rewrite Hf, Hc. repeat split; auto; lia. }
  destruct (run_curtime_le before s0 Hok) as [Hs1 _].
  destruct (Sys_DoubleTime_step _ first Hs1) as (Hs2 & Hv & _).
  assert (B : 0 < V ->
            (curtime (snd (main_loop d ticrate
                             (snd (Sys_DoubleTime (snd (run s0 before)) first))
                             (fst (Sys_DoubleTime (snd (run s0 before)) first))
                             turns)) <? infinity)%float = true).
  { intros HV.
    destruct (Sys_InitTimers_bounded f env0 HV) as (s0' & scaled & E' & Hsc & Hb).
    rewrite E in E'. injection E' as <-.
    destruct (run_bounded scaled before s0 Hsc Hb) as [H1 _].
    pose proof (Sys_DoubleTime_bounded scaled _ first Hsc H1) as H2.
    pose proof (main_loop_bounded scaled d ticrate turns _
                  (fst (Sys_DoubleTime (snd (run s0 before)) first)) Hsc H2)
      as (_ & _ & _ & H3).
    now apply ltb_88_infinity, below_ltb. }
  destruct (Sys_DoubleTime (snd (run s0 before)) first) as [oldtime s2].
  cbn [fst snd] in Hs2, Hv, B. subst oldtime.
  assert (C2 : (0 <=? curtime s2)%float = true) by apply Hs2.
  destruct (main_loop_nonneg d ticrate turns s2 (curtime s2) Hs2 C2
              (leb_refl_nonneg _ C2)) as (_ & _ & I3).
  destruct (main_loop d ticrate s2 (curtime s2) turns) as [times s'].
  cbn [fst snd] in I3, B.
  exists times, s'. split; [reflexivity|]. split; [exact I3|].
  intros HV. apply I3, B, HV.
Qed.

Import WinError.

(** *** The line of [Sys_Error] *)

Lemma cstring_no_NUL l r : no_NUL l = true -> cstring (l ++ 0 :: r) = l.
Proof.
  unfold no_NUL. induction l as [|c l IH]; intros H; cbn [app cstring].
  - reflexivity.
  - cbn [forallb] in H. apply andb_true_iff in H. destruct H as [Hc Hl].
    apply negb_true_iff in Hc. rewrite Hc. now rewrite IH.
Qed.

Lemma store_app_r l : forall r i c,
  (length l <= i)%nat -> store (l ++ r) i c = l ++ store r (i - length l) c.
Proof.
  induction l as [|x l IH]; intros r i c H.
  - cbn [app length]. now rewrite Nat.sub_0_r.
  - destruct i as [|i]; [cbn [length] in H; lia|].
    cbn [app store length]. rewrite IH by (cbn [length] in H; lia). reflexivity.
Qed.

Lemma nth_app_at l (x : Z) r : nth (length l) (l ++ x :: r) 0 = x.
Proof. rewrite nth_middle. reflexivity. Qed.

Lemma no_NUL_app a b : no_NUL (a ++ b) = no_NUL a && no_NUL b.
Proof. unfold no_NUL. apply forallb_app. Qed.

Lemma no_NUL_firstn n l : no_NUL l = true -> no_NUL (firstn n l) = true.
Proof. unfold no_NUL. apply forallb_firstn. Qed.

Lemma no_NUL_nth l i : no_NUL l = true -> (i < length l)%nat -> nth i l 0 <> 0.
Proof.
  unfold no_NUL. intros H Hi. rewrite forallb_forall in H.
  specialize (H (nth i l 0) (nth_In l 0 Hi)).
  apply negb_true_iff in H. now apply Z.eqb_neq.
Qed.

(** X18. The line with the message that [Sys_Error] writes to the console
    of the dedicated server is the word ERROR, a colon, a space, the message
    and a line feed if that fits into [text2] with its NUL; if not, it is cut
    to fit and its last character is replaced by a line feed. So it always
    ends in a line feed, and it does not depend on what the array, which is
    not initialised, held before, though the test reads a byte of it. *)
Theorem error_line_ends stack text :
  (2 <= length stack)%nat -> no_NUL text = true ->
  error_line stack text
  = if (length text + 8 <=? length stack - 1)%nat
    then chars "ERROR: "%string ++ text ++ [10]
    else firstn (length stack - 2) (chars "ERROR: "%string ++ text) ++ [10].
Proof.
  intros HN Ht. unfold error_line, snprintf. cbv zeta.
  set (N := length stack) in *.
  rewrite (app_assoc (chars "ERROR: "%string) text [10]).
  set (base := chars "ERROR: "%string ++ text).
  assert (Lb : length base = (length text + 7)%nat).
  { unfold base. rewrite length_app.
    change (length (chars "ERROR: "%string)) with 7%nat. lia. }
  assert (Hb : no_NUL base = true).
  { unfold base. rewrite no_NUL_app, Ht. reflexivity. }
  assert (Ls : length (base ++ [10]) = (length text + 8)%nat).
  { rewrite length_app. cbn [length]. lia. }
  assert (Hs : no_NUL (base ++ [10]) = true).
  { rewrite no_NUL_app, Hb. reflexivity. }
  destruct (Nat.leb_spec (length text + 8) (N - 1)) as [Fit|Cut].
  - (* the line fits *)
    rewrite (firstn_all2 (base ++ [10])) by lia.
    set (rest := skipn (S (length (base ++ [10]))) stack).
    assert (Lr : length rest = (N - length text - 9)%nat).
    { unfold rest. rewrite length_skipn, Ls. fold N. lia. }
    match goal with |- cstring (if ?b then _ else _) = _ => destruct b eqn:T end;
      [|now apply cstring_no_NUL].
    destruct (Nat.eq_dec (length text + 8) (N - 1)) as [E1|E1].
    + (* the byte tested is the line feed that ends the line *)
      rewrite <- app_assoc. cbn [app].
      rewrite store_app_r by lia.
      replace (N - 2 - length base)%nat with 0%nat by lia. cbn [store].
      rewrite store_app_r by lia.
      replace (N - 1 - length base)%nat with 1%nat by lia. cbn [store].
      change (base ++ 10 :: 0 :: rest) with (base ++ [10] ++ 0 :: rest).
      rewrite app_assoc. now apply cstring_no_NUL.
    + destruct (Nat.eq_dec (length text + 8) (N - 2)) as [E2|E2].
      * (* the byte tested is the NUL that ends the line *)
        exfalso. replace (N - 2)%nat with (length (base ++ [10])) in T by lia.
        rewrite nth_app_at in T. discriminate.
      * rewrite store_app_r by lia.
        replace (N - 2 - length (base ++ [10%Z]))%nat
          with (S (N - length text - 11)) by lia.
        cbn [store].
        rewrite store_app_r by lia.
        replace (N - 1 - length (base ++ [10%Z]))%nat
          with (S (N - length text - 10)) by lia.
        cbn [store]. now apply cstring_no_NUL.
  - (* the line is cut *)
    assert (Ew : firstn (N - 1) (base ++ [10])
                 = firstn (N - 2) base ++ [nth (N - 2) base 0]).
    { rewrite firstn_app.
      replace (N - 1 - length base)%nat with 0%nat by lia.
      cbn [firstn]. rewrite app_nil_r.
      replace (N - 1)%nat with (S (N - 2)) by lia.
      rewrite <- (firstn_skipn (N - 2) base) at 1.
      assert (L2 : length (firstn (N - 2) base) = (N - 2)%nat)
        by (rewrite length_firstn; lia).
      rewrite firstn_app, L2.
      replace (S (N - 2) - (N - 2))%nat with 1%nat by lia.
      rewrite firstn_firstn, Nat.min_r by lia. f_equal.
      destruct (skipn (N - 2) base) as [|x r] eqn:E.
      - apply (f_equal (@length Z)) in E. rewrite length_skipn in E.
        cbn [length] in E. lia.
      - cbn [firstn]. f_equal.
        rewrite <- (firstn_skipn (N - 2) base) at 1. rewrite E.
        rewrite <- L2 at 1. now rewrite nth_app_at. }
    assert (L2 : length (firstn (N - 2) base) = (N - 2)%nat)
      by (rewrite length_firstn; lia).
    assert (Hn : nth (N - 2) base 0 <> 0) by (apply no_NUL_nth; [exact Hb|lia]).
    rewrite Ew.
    assert (Sk : skipn (S (length (firstn (N - 2) base ++ [nth (N - 2) base 0])))
                   stack = []).
    { apply skipn_all2. rewrite length_app, L2. cbn [length]. fold N. lia. }
    rewrite Sk. rewrite <- app_assoc. cbn [app].
    replace (nth (N - 2) (firstn (N - 2) base ++ [nth (N - 2) base 0; 0]) 0)
      with (nth (N - 2) base 0)
      by (rewrite <- L2 at 2; now rewrite nth_app_at).
    apply Z.eqb_neq in Hn. rewrite Hn. cbn [negb].
    rewrite store_app_r by lia. rewrite L2, Nat.sub_diag. cbn [store].
    rewrite store_app_r by lia. rewrite L2.
    replace (N - 1 - (N - 2))%nat with 1%nat by lia. cbn [store].
    change (firstn (N - 2) base ++ [10; 0])
      with (firstn (N - 2) base ++ [10] ++ 0 :: []).
    rewrite app_assoc. apply cstring_no_NUL.
    rewrite no_NUL_app, no_NUL_firstn by exact Hb. reflexivity.
Qed.

Lemma error_line_ends_witness :
  error_line (repeat 7 12) (chars "No memory"%string)
  = firstn (12 - 2) (chars "ERROR: "%string ++ chars "No memory"%string) ++ [10].
Proof.
  exact (error_line_ends (repeat 7 12) (chars "No memory"%string)
           ltac:(vm_compute; lia) eq_refl).
Defined.

(** *** [Sys_Error] on the dedicated server *)

Lemma wait_for_enter_eq nested p starttime polls clocks :
  wait_for_enter nested p starttime polls clocks
  = match Sys_ConsoleInput (con p) polls with
    | (Returned (Some _), c, _) => shut_down (set_con p c)
    | (Returned None, c, polls) =>
        match clocks with
        | [] => (Waiting, set_con p c)
        | env :: clocks' =>
            let '(now, t) := Sys_DoubleTime (clock p) env in
            let p := set_clock (set_con p c) t in
            if (now - starttime <? CONSOLE_ERROR_TIMEOUT)%float
            then wait_for_enter nested p starttime polls clocks'
            else shut_down p
        end
    | (Fatal message, c, polls) =>
        nested (set_con p c) (chars message) polls clocks
    | (Unanswered, c, _) => (Waiting, set_con p c)
    end.
Proof. destruct clocks; reflexivity. Qed.

Lemma Sys_ConsoleInput_fails c q polls :
  isDedicated c = true -> events_ok q = false ->
  Sys_ConsoleInput c (q :: polls)
  = (Fatal "Error getting # of console events"%string, c, polls).
Proof.
  intros Hd Hq. unfold Sys_ConsoleInput. rewrite Hd. cbn [negb console_loop].
  now rewrite Hq.
Qed.

(** X19. On the dedicated server, when the console fails
    ([GetNumberOfConsoleInputEvents] returning zero) at every call,
    [Sys_Error] never comes to [exit]: in its loop [Sys_ConsoleInput] calls
    [Sys_Error] again, which waits in the same loop, and so on, each call
    nested in the one before; the flags [in_sys_error0] to [in_sys_error3]
    do not stop it. However many stack frames there are, as many failures
    of the console use them up. *)
Theorem Sys_Error_console_fails frames : forall stack p error polls clocks,
  isDedicated (con p) = true ->
  forallb (fun q => negb (events_ok q)) polls = true ->
  (frames <= length polls)%nat -> (frames <= length clocks)%nat ->
  fst (Sys_Error frames stack p error polls clocks) = Overflow.
Proof.
  induction frames as [|frames IH]; intros stack p error polls clocks Hd Hq Lp Lc;
    [reflexivity|].
  cbn [Sys_Error].
  set (p1 := if in_sys_error3 p then p else _).
  assert (Hd1 : isDedicated (con p1) = true)
    by (unfold p1; destruct (in_sys_error3 p); exact Hd).
  rewrite Hd1.
  destruct clocks as [|env clocks]; [cbn [length] in Lc; lia|].
  destruct polls as [|q polls]; [cbn [length] in Lp; lia|].
  cbn [forallb] in Hq. apply andb_true_iff in Hq. destruct Hq as [Hq0 Hq].
  apply negb_true_iff in Hq0.
  destruct (Sys_DoubleTime (clock p1) env) as [starttime t].
  rewrite wait_for_enter_eq.
  cbn [set_clock set_con con].
  rewrite Sys_ConsoleInput_fails by (try exact Hq0; exact Hd1).
  apply IH; cbn [set_con con length] in *; try lia; assumption.
Qed.

Lemma Sys_Error_console_fails_witness :
  fst (Sys_Error 3 (repeat 0 64)
         (first_error (console_at_start true) timers_at_start)
         (chars "Couldn't create event"%string)
         (repeat console_fails 3) (repeat (at_count 0) 3))
  = Overflow.
Proof.
  apply Sys_Error_console_fails.
  - reflexivity.
  - reflexivity.
  - vm_compute. lia.
  - vm_compute. lia.
Defined.

Lemma return_on_enter_ok c : console_ok c -> console_ok (return_on_enter c).
Proof. intros H. exact H. Qed.

(** X20. On the dedicated server a first call of [Sys_Error] writes its
    banner to the console, samples the clock once and waits; when the next
    event of the console is a released Enter, whatever was typed before, the
    wait is over: [Host_Shutdown] and [DeinitConProc] are called once each,
    after [VID_ForceUnlockedAndReturnState], and the process exits with
    status 1. *)
Theorem Sys_Error_enter_exits frames stack c t error rest env clocks :
  console_ok c -> isDedicated c = true ->
  exists p',
    Sys_Error (S frames) stack (first_error c t) error
      (key_up 13 :: rest) (env :: clocks)
    = (Exited, p') /\
    made p'
    = [VID_ForceUnlockedAndReturnState; Host_Shutdown; DeinitConProc; exit 1] /\
    houtput (con p')
    = houtput c ++ banner stack (firstn (length stack - 1) error) ++ [13; 10] /\
    clock p' = snd (Sys_DoubleTime t env).
Proof.
  intros Hok Hd. cbn [Sys_Error first_error in_sys_error3 in_sys_error0
                        in_sys_error1 in_sys_error2 set_flags called con clock].
  rewrite Hd.
  destruct (Sys_DoubleTime t env) as [starttime t1]. cbn [snd].
  rewrite wait_for_enter_eq. cbn [set_clock set_con con clock].
  set (text := firstn (length stack - 1) error).
  set (c1 := return_on_enter _).
  assert (Hok1 : console_ok c1) by exact Hok.
  assert (Hd1 : isDedicated c1 = true) by exact Hd.
  assert (Ho1 : houtput c1 = houtput c ++ banner stack text).
  { unfold c1, banner. cbn [return_on_enter WriteFile houtput].
    now rewrite <- !app_assoc. }
  rewrite Sys_ConsoleInput_dedicated by exact Hd1.
  assert (E : exists l c2, console_loop c1 (key_up 13 :: rest)
                           = (Returned (Some l), c2, rest) /\
                           houtput c2 = houtput c1 ++ [13; 10]).
  { destruct (Z.eq_dec (len c1) 0) as [E0|E0].
    - rewrite console_loop_enter_empty by assumption.
      change (sc_return_on_enter c1) with true. cbv iota.
      eexists _, _. split; reflexivity.
    - rewrite console_loop_enter by assumption.
      eexists _, _. split; reflexivity. }
  destruct E as (l & c2 & E & Ho2). rewrite E.
  cbv [shut_down set_con set_clock called set_flags first_error
       in_sys_error0 in_sys_error1 in_sys_error2 in_sys_error3 made con clock].
  eexists. split; [reflexivity|].
  cbv [made con clock]. split; [reflexivity|]. split; [|reflexivity].
  rewrite Ho2, Ho1. now rewrite <- app_assoc.
Qed.

Lemma Sys_Error_enter_exits_witness :
  exists p',
    Sys_Error 1 (repeat 0 64)
      (first_error (console_at_start true) timers_at_start)
      (chars "Couldn't create event"%string)
      (key_up 13 :: []) (at_count 0 :: [])
    = (Exited, p') /\
    made p'
    = [VID_ForceUnlockedAndReturnState; Host_Shutdown; DeinitConProc; exit 1].
Proof.
  destruct (Sys_Error_enter_exits 0 (repeat 0 64) (console_at_start true)
              timers_at_start (chars "Couldn't create event"%string) []
              (at_count 0) [] (console_at_start_ok true) eq_refl)
    as (p' & E & M & _).
  exists p'. split; [exact E|exact M].
Defined.
